(** * text.py: panel geometry and the frame / wrap engine

    A shallow embedding of [src/text.py] (Python 2: the module uses the
    statement form [raise IndexError, "..."], so [/] between two ints is
    floor division and [round] rounds halves away from zero).

    - Python ints are unbounded, so they are [Z].
    - Python floats are IEEE-754 binary64; they are modelled with the
      Standard Library's executable specification [SpecFloat].
    - A Python exception is a value of [exn]; a call that mutates an object
      and may raise yields an [outcome] which carries the object as it is
      left behind in both cases.
    - Text is a list of characters. *)

From Stdlib Require Import String Ascii DecimalString.
From Stdlib Require Import ZArith List Bool Lia SpecFloat.
Import ListNotations.
Set Warnings "-register-all".
Open Scope Z_scope.

(** ** Exceptions and outcomes *)

(** The exception classes that the modelled code can raise. [PanelError]
    is the module's own class; the others are Python built-ins. *)
Inductive exn : Type :=
| PanelError
| ValueError
| AttributeError
| OverflowError
| IndexError
| ZeroDivisionError.

(** The result of a pure expression that may raise. *)
Inductive result (A : Type) : Type :=
| Ok (a : A)
| Raise (e : exn).
Arguments Ok {A} a.
Arguments Raise {A} e.

(** The result of a method that mutates its receiver: the receiver after
    the call, and the exception if one escaped. *)
Inductive outcome (S : Type) : Type :=
| Done (s : S)
| Raised (e : exn) (s : S).
Arguments Done {S} s.
Arguments Raised {S} e s.

Definition state_of {S : Type} (o : outcome S) : S :=
  match o with Done s => s | Raised _ s => s end.

Definition b2z (b : bool) : Z := if b then 1 else 0.

(** ** Python floats *)

Module PyFloat.

Definition prec : Z := 53.
Definition emax : Z := 1024.

(** [float(z)] for an int: correctly rounded, [OverflowError] when the int
    is too large for a double. *)
Definition of_int (z : Z) : result spec_float :=
  match binary_normalize prec emax z 0 false with
  | S754_infinity _ => Raise OverflowError
  | f => Ok f
  end.

Definition is_zero (x : spec_float) : bool :=
  match x with S754_zero _ => true | _ => false end.

Definition mul (x y : spec_float) : spec_float := SFmul prec emax x y.
Definition sub (x y : spec_float) : spec_float := SFsub prec emax x y.

(** Float division raises on a zero divisor. *)
Definition div (x y : spec_float) : result spec_float :=
  if is_zero y then Raise ZeroDivisionError else Ok (SFdiv prec emax x y).

(** [int(round(x))]: [round] takes the nearest integer, halves away from
    zero; [int] raises on an infinity or a NaN. *)
Definition int_round (x : spec_float) : result Z :=
  match x with
  | S754_zero _ => Ok 0
  | S754_infinity _ => Raise OverflowError
  | S754_nan => Raise ValueError
  | S754_finite s m e =>
      let mag :=
        if 0 <=? e then Z.pos m * 2 ^ e
        else
          let d := 2 ^ (- e) in
          let q := Z.pos m / d in
          let r := Z.pos m mod d in
          if d <=? 2 * r then q + 1 else q in
      Ok (if s then - mag else mag)
  end.

End PyFloat.

Definition bind_result {A B : Type} (r : result A) (k : A -> result B) : result B :=
  match r with
  | Ok a => k a
  | Raise e => Raise e
  end.

Notation "x <- r ;; k" := (bind_result r (fun x => k))
  (at level 61, r at next level, right associativity).

(** ** Panels *)

Inductive Panel : Type := mkPanel {
  name : string;
  content : string;
  width : Z;
  percent : Z;
  height : Z;
  padding : Z;
  topFrame : bool;
  botFrame : bool;
  leftFrame : bool;
  rightFrame : bool;
  daughters : list Panel;
  horizontal : bool;
  vertical : bool
}.

(** Field assignments. *)
Definition set_width (w : Z) (p : Panel) : Panel :=
  mkPanel (name p) (content p) w (percent p) (height p) (padding p)
    (topFrame p) (botFrame p) (leftFrame p) (rightFrame p)
    (daughters p) (horizontal p) (vertical p).

Definition set_height (h : Z) (p : Panel) : Panel :=
  mkPanel (name p) (content p) (width p) (percent p) h (padding p)
    (topFrame p) (botFrame p) (leftFrame p) (rightFrame p)
    (daughters p) (horizontal p) (vertical p).

Definition set_percent_field (v : Z) (p : Panel) : Panel :=
  mkPanel (name p) (content p) (width p) v (height p) (padding p)
    (topFrame p) (botFrame p) (leftFrame p) (rightFrame p)
    (daughters p) (horizontal p) (vertical p).

Definition set_padding_field (v : Z) (p : Panel) : Panel :=
  mkPanel (name p) (content p) (width p) (percent p) (height p) v
    (topFrame p) (botFrame p) (leftFrame p) (rightFrame p)
    (daughters p) (horizontal p) (vertical p).

Definition set_name (n : string) (p : Panel) : Panel :=
  mkPanel n (content p) (width p) (percent p) (height p) (padding p)
    (topFrame p) (botFrame p) (leftFrame p) (rightFrame p)
    (daughters p) (horizontal p) (vertical p).

Definition set_content (c : string) (p : Panel) : Panel :=
  mkPanel (name p) c (width p) (percent p) (height p) (padding p)
    (topFrame p) (botFrame p) (leftFrame p) (rightFrame p)
    (daughters p) (horizontal p) (vertical p).

Definition set_daughters (ds : list Panel) (p : Panel) : Panel :=
  mkPanel (name p) (content p) (width p) (percent p) (height p) (padding p)
    (topFrame p) (botFrame p) (leftFrame p) (rightFrame p)
    ds (horizontal p) (vertical p).

Definition set_direction (h v : bool) (p : Panel) : Panel :=
  mkPanel (name p) (content p) (width p) (percent p) (height p) (padding p)
    (topFrame p) (botFrame p) (leftFrame p) (rightFrame p)
    (daughters p) h v.

Definition set_frames_fields (t b l r : bool) (p : Panel) : Panel :=
  mkPanel (name p) (content p) (width p) (percent p) (height p) (padding p)
    t b l r (daughters p) (horizontal p) (vertical p).

(** [Panel.__init__]: percent starts at the sentinel -1, no daughters, no
    direction.  The [parent] and [origin] references are not fields of the
    model: a panel is addressed by its path from the root of its tree, its
    parent is the panel one step up and its origin is the root. *)
Definition new_panel (n c : string) (w h pad : Z) (t b l r : bool) : Panel :=
  mkPanel n c w (-1) h pad t b l r [] false false.

(** ** seal *)

Definition zsum (l : list Z) : Z := fold_right Z.add 0 l.

(** [parentHeight] and [parentWidth] of [seal]: the extents left once the
    frame lines and the padding are taken away. *)
Definition parentHeight (p : Panel) : Z :=
  height p - b2z (topFrame p) - b2z (botFrame p) - padding p * 2.

Definition parentWidth (p : Panel) : Z :=
  width p - b2z (leftFrame p) - b2z (rightFrame p) - padding p * 4.

Definition is_set (d : Panel) : bool := 0 <=? percent d.
Definition is_free (d : Panel) : bool := percent d <? 0.

(** [sum([elem.percent for elem in self.daughters if elem.percent >= 0])] *)
Definition daughtersPercent (ds : list Panel) : Z :=
  zsum (map percent (filter is_set ds)).

(** [len([elem for elem in self.daughters if elem.percent < 0])], taken
    before the percents are rescaled. *)
Definition numFreeDaughters (ds : list Panel) : Z :=
  Z.of_nat (length (filter is_free ds)).

(** The rescaling loop of [seal], run when [daughtersPercent > 100]: every
    daughter with a positive percent gets [percent / daughtersPercent]
    (floor division of two ints). *)
Definition normalize (dP : Z) (ds : list Panel) : list Panel :=
  if 100 <? dP then
    map (fun d => if 0 <? percent d
                  then set_percent_field (percent d / dP) d else d) ds
  else ds.

(** [int(round(float(parent * (1 - float(daughtersPercent)/100)) / numFreeDaughters))] *)
Definition free_extent (parent dP numFree : Z) : result Z :=
  fdP <- PyFloat.of_int dP ;;
  hundred <- PyFloat.of_int 100 ;;
  frac <- PyFloat.div fdP hundred ;;
  one <- PyFloat.of_int 1 ;;
  fparent <- PyFloat.of_int parent ;;
  fnum <- PyFloat.of_int numFree ;;
  share <- PyFloat.div (PyFloat.mul fparent (PyFloat.sub one frac)) fnum ;;
  PyFloat.int_round share.

(** [parent * elem.percent / 100], ints. *)
Definition set_extent (parent pct : Z) : Z := parent * pct / 100.

(** One turn of the [for elem in self.daughters] loop of the horizontal
    branch.  The cross extent is assigned first, so it is kept when the
    stacking extent raises. *)
Definition seal_step_h (pH pW dP numFree : Z) (d : Panel) : outcome Panel :=
  let d1 := set_height pH d in
  if percent d1 <? 0 then
    match free_extent pW dP numFree with
    | Ok w => Done (set_width w d1)
    | Raise e => Raised e d1
    end
  else Done (set_width (set_extent pW (percent d1)) d1).

Definition seal_step_v (pH pW dP numFree : Z) (d : Panel) : outcome Panel :=
  let d1 := set_width pW d in
  if percent d1 <? 0 then
    match free_extent pH dP numFree with
    | Ok h => Done (set_height h d1)
    | Raise e => Raised e d1
    end
  else Done (set_height (set_extent pH (percent d1)) d1).

(** A [for] loop over the daughters that stops at the first exception. *)
Fixpoint for_each (step : Panel -> outcome Panel) (ds : list Panel)
  : outcome (list Panel) :=
  match ds with
  | [] => Done []
  | d :: rest =>
      match step d with
      | Raised e d' => Raised e (d' :: rest)
      | Done d' =>
          match for_each step rest with
          | Done rest' => Done (d' :: rest')
          | Raised e rest' => Raised e (d' :: rest')
          end
      end
  end.

(** [freeDaughters[-1].<extent> += delta]: [freeDaughters] holds the very
    objects of [self.daughters], so the update lands on the last daughter
    whose percent was unset. *)
Fixpoint bump_last_free (bump : Panel -> Panel) (ds : list Panel) : list Panel :=
  match ds with
  | [] => []
  | d :: rest =>
      if existsb is_free rest then d :: bump_last_free bump rest
      else if is_free d then bump d :: rest
      else d :: rest
  end.

Definition sum_widths (ds : list Panel) : Z := zsum (map width ds).
Definition sum_heights (ds : list Panel) : Z := zsum (map height ds).

(** The body of [seal] past its first test: the interior extents, the
    percent bookkeeping, the rescaling, then the branch of the direction. *)
Definition seal_body (complete : bool) (p : Panel) : outcome Panel :=
  let pH := parentHeight p in
  let pW := parentWidth p in
  let dP := daughtersPercent (daughters p) in
  let hasFree := existsb is_free (daughters p) in
  let numFree := numFreeDaughters (daughters p) in
  let ds0 := normalize dP (daughters p) in
  if horizontal p then
    match for_each (seal_step_h pH pW dP numFree) ds0 with
    | Raised e ds1 => Raised e (set_daughters ds1 p)
    | Done ds1 =>
        if complete && hasFree then
          let delta := pW - sum_widths ds1 in
          Done (set_daughters
                  (bump_last_free (fun d => set_width (width d + delta) d) ds1) p)
        else Done (set_daughters ds1 p)
    end
  else if vertical p then
    match for_each (seal_step_v pH pW dP numFree) ds0 with
    | Raised e ds1 => Raised e (set_daughters ds1 p)
    | Done ds1 =>
        if complete && hasFree then
          let delta := pH - sum_heights ds1 in
          Done (set_daughters
                  (bump_last_free (fun d => set_height (height d + delta) d) ds1) p)
        else Done (set_daughters ds1 p)
    end
  else Raised PanelError (set_daughters ds0 p).

(** [Panel.seal(self, complete)].  The [print] of the vertical branch
    writes to the console and changes no panel; it is not modelled. *)
Definition seal (complete : bool) (p : Panel) : outcome Panel :=
  match daughters p with
  | [] => Raised PanelError p
  | _ :: _ => seal_body complete p
  end.

(** ** The panel tree

    Every method below is called on a panel [self] of a tree.  The tree is
    the mutable store; [self] is named by its path from the root (the list
    of daughter indices).  A method yields [None] when the path names no
    panel (there is no object to call the method on), and otherwise the
    outcome for the whole tree. *)

Definition path : Type := list nat.

Fixpoint get_at (p : path) (t : Panel) : option Panel :=
  match p with
  | [] => Some t
  | i :: q =>
      match nth_error (daughters t) i with
      | Some d => get_at q d
      | None => None
      end
  end.

Fixpoint replace_nth {A : Type} (i : nat) (x : A) (l : list A) : list A :=
  match l, i with
  | [], _ => []
  | _ :: r, O => x :: r
  | y :: r, S j => y :: replace_nth j x r
  end.

(** The tree in which the panel at [p] is now [x]. *)
Fixpoint replace_at (p : path) (x : Panel) (t : Panel) : Panel :=
  match p with
  | [] => x
  | i :: q =>
      match nth_error (daughters t) i with
      | Some d => set_daughters (replace_nth i (replace_at q x d) (daughters t)) t
      | None => t
      end
  end.

Definition map_outcome {S T : Type} (f : S -> T) (o : outcome S) : outcome T :=
  match o with
  | Done s => Done (f s)
  | Raised e s => Raised e (f s)
  end.

(** Run a method of the panel at [p] inside the tree [t]. *)
Definition update_at (p : path) (f : Panel -> outcome Panel) (t : Panel)
  : option (outcome Panel) :=
  match get_at p t with
  | Some x => Some (map_outcome (fun x' => replace_at p x' t) (f x))
  | None => None
  end.

Definition and_then_at (o : option (outcome Panel))
    (k : Panel -> option (outcome Panel)) : option (outcome Panel) :=
  match o with
  | Some (Done t) => k t
  | other => other
  end.

(** [self.parent]: the panel one step up, [None] for the root. *)
Definition parent_path (p : path) : option path :=
  match p with
  | [] => None
  | _ :: _ => Some (removelast p)
  end.

(** [self.parent.seal()]: on the root [self.parent] is [None] and the
    attribute access raises [AttributeError]. *)
Definition seal_parent (p : path) (t : Panel) : option (outcome Panel) :=
  match parent_path p with
  | None => Some (Raised AttributeError t)
  | Some q => update_at q (seal true) t
  end.

(** [self.origin.seal()]: [origin] is the root of the tree. *)
Definition seal_origin (t : Panel) : option (outcome Panel) :=
  update_at [] (seal true) t.

(** [Panel.set_percent] *)
Definition set_percent (p : path) (v : Z) (t : Panel) : option (outcome Panel) :=
  and_then_at (update_at p (fun self => Done (set_percent_field v self)) t)
              (seal_parent p).

(** [Panel.set_padding] *)
Definition set_padding (p : path) (v : Z) (t : Panel) : option (outcome Panel) :=
  and_then_at (update_at p (fun self => Done (set_padding_field v self)) t)
    (fun t1 =>
       match get_at p t1 with
       | None => None
       | Some self =>
           match daughters self with
           | _ :: _ => update_at p (seal true) t1
           | [] => seal_parent p t1
           end
       end).

(** [Panel.set_frames] *)
Definition set_frames (p : path) (tf bf lf rf : bool) (t : Panel)
  : option (outcome Panel) :=
  and_then_at (update_at p (fun self => Done (set_frames_fields tf bf lf rf self)) t)
              seal_origin.

(** [Panel.toggle_direction] *)
Definition toggle_direction (p : path) (t : Panel) : option (outcome Panel) :=
  match get_at p t with
  | None => None
  | Some self =>
      if negb (vertical self) && negb (horizontal self) then
        Some (Raised PanelError t)
      else if vertical self then
        seal_origin (replace_at p (set_direction true false self) t)
      else
        seal_origin (replace_at p (set_direction false true self) t)
  end.

(** [str(n)] for a non-negative int. *)
Definition str_of_nat (n : nat) : string :=
  NilEmpty.string_of_uint (Nat.to_uint n).

(** ["{}'s #{} daughter".format(self.name, str(len(self.daughters)+1))] *)
Definition daughter_name (parent : string) (n : nat) : string :=
  (parent ++ "'s #" ++ str_of_nat n ++ " daughter")%string.

(** The daughter that one turn of the loop of [subdivide] appends. *)
Definition new_daughter (self : Panel) (subdivisions w h : Z) (n : nat) : Panel :=
  let availableWidth :=
    width self - 1 * b2z (leftFrame self) - 1 * b2z (rightFrame self)
    - 4 * padding self in
  let availableHeight :=
    height self - 1 * b2z (topFrame self) - 1 * b2z (botFrame self)
    - 2 * padding self in
  if horizontal self then
    new_panel (daughter_name (name self) n) ""
      (if w <? 0 then availableWidth / subdivisions else w)
      (if h <? 0 then availableHeight else h)
      (padding self)
      (topFrame self) (botFrame self) (leftFrame self) (rightFrame self)
  else
    new_panel (daughter_name (name self) n) ""
      (if w <? 0 then availableWidth else w)
      (if h <? 0 then availableHeight / subdivisions else h)
      (padding self)
      (topFrame self) (botFrame self) (leftFrame self) (rightFrame self).

(** [for count in range(len(names)): self.daughters[count].name = names[count]];
    the lengths agree whenever the loop is reached with names. *)
Fixpoint apply_names (names : list string) (ds : list Panel) : list Panel :=
  match names, ds with
  | n :: ns, d :: rest => set_name n d :: apply_names ns rest
  | _, _ => ds
  end.

(** [Panel.subdivide].  The parameters [padding], [topFrame], [botFrame],
    [leftFrame] and [rightFrame] of the method are never read by its body
    (the daughters take the panel's own), so the model leaves them out. *)
Definition subdivide (p : path) (subdivisions : Z) (names : list string)
    (horiz : bool) (w h : Z) (t : Panel) : option (outcome Panel) :=
  match get_at p t with
  | None => None
  | Some self =>
      if negb (String.eqb (content self) "") then Some (Raised PanelError t)
      else if negb (Nat.eqb (length names) 0)
              && negb (Z.of_nat (length names) =? subdivisions)
      then Some (Raised PanelError t)
      else
        let self1 := set_daughters [] (set_direction horiz (negb horiz) self) in
        let ds := map (new_daughter self1 subdivisions w h)
                      (seq 1 (Z.to_nat subdivisions)) in
        let t1 := replace_at p (set_daughters ds self1) t in
        and_then_at (seal_origin t1)
          (fun t2 =>
             match names with
             | [] => Some (Done t2)
             | _ :: _ =>
                 update_at p
                   (fun self2 =>
                      Done (set_daughters (apply_names names (daughters self2)) self2))
                   t2
             end)
  end.

(** [Panel.__getitem__]: depth-first search by name, the path of the first
    match relative to [t], [None] for the [ValueError]. *)
Fixpoint getitem (t : Panel) (key : string) {struct t} : option path :=
  match t with
  | mkPanel n _ _ _ _ _ _ _ _ _ ds _ _ =>
      if String.eqb n key then Some []
      else
        (fix search (l : list Panel) (i : nat) {struct l} : option path :=
           match l with
           | [] => None
           | d :: rest =>
               match getitem d key with
               | Some q => Some (i :: q)
               | None => search rest (S i)
               end
           end) ds 0%nat
  end.

(** The values that [panel[key] = value] tells apart by their type. *)
Inductive value : Type :=
| VInt (n : Z)
| VStr (s : string)
| VOther.

(** [Panel.__setitem__], called on the panel at [p]. *)
Definition setitem (p : path) (key : string) (v : value) (t : Panel)
  : option (outcome Panel) :=
  match get_at p t with
  | None => None
  | Some self =>
      match v with
      | VInt n =>
          match getitem self key with
          | None => Some (Raised ValueError t)
          | Some q => set_percent (p ++ q) n t
          end
      | VStr s =>
          match getitem self key with
          | None => Some (Raised ValueError t)
          | Some q =>
              match get_at (p ++ q) t with
              | None => None
              | Some target =>
                  if horizontal target || vertical target
                  then Some (Raised PanelError t)
                  else update_at (p ++ q) (fun x => Done (set_content s x)) t
              end
          end
      | VOther => Some (Raised PanelError t)
      end
  end.

(** *** Reflow of the whole tree, as the specification words it

    The paths of all panels that have daughters, a panel before the panels
    below it. *)
Fixpoint container_paths (t : Panel) {struct t} : list path :=
  match t with
  | mkPanel _ _ _ _ _ _ _ _ _ _ ds _ _ =>
      match ds with
      | [] => []
      | _ :: _ =>
          [] ::
          (fix below (l : list Panel) (i : nat) {struct l} : list path :=
             match l with
             | [] => []
             | d :: rest => map (cons i) (container_paths d) ++ below rest (S i)
             end) ds 0%nat
      end
  end.

(** A reflow rooted at the root that covers the full tree: the root is
    sealed, then every container below it, top down. *)
Definition spec_full_reflow (t : Panel) : option (outcome Panel) :=
  fold_left (fun o q => and_then_at o (update_at q (seal true)))
            (container_paths t) (Some (Done t)).

(** *** Geometry read off a container *)

(** The stacking axis is the one [seal] takes: horizontal when the
    [horizontal] flag is up, vertical otherwise. *)
Definition stack_sum (p : Panel) : Z :=
  if horizontal p then sum_widths (daughters p) else sum_heights (daughters p).

Definition stack_interior (p : Panel) : Z :=
  if horizontal p then parentWidth p else parentHeight p.

(** Width, height and percent of every daughter. *)
Definition geometry (p : Panel) : list (Z * Z * Z) :=
  map (fun d => (width d, height d, percent d)) (daughters p).

(** *** Sample trees *)

Definition leaf (n : string) (pct : Z) : Panel :=
  set_percent_field pct (new_panel n "" 0 0 0 true true true true).

(** A framed 7-wide row (interior 5) or 102-wide row (interior 100). *)
Definition row (w : Z) (ds : list Panel) : Panel :=
  set_direction true false
    (set_daughters ds (new_panel "row" "" w 10 0 true true true true)).

Definition halves : Panel := row 7 [leaf "a" 50; leaf "b" 50].
Definition one_free : Panel := row 7 [leaf "a" 50; leaf "b" (-1)].
Definition over_full : Panel := row 102 [leaf "a" 60; leaf "b" 60].
Definition over_full_free : Panel :=
  row 102 [leaf "a" 60; leaf "b" 60; leaf "c" (-1); leaf "d" (-1)].

(** An 80 by 40 root split in two, each half split in two again. *)
Definition screen0 : Panel := new_panel "root" "" 80 40 0 true true true true.

Definition tree_of (o : option (outcome Panel)) : Panel :=
  match o with
  | Some x => state_of x
  | None => screen0
  end.

Definition screen1 : Panel :=
  tree_of (subdivide [] 2 ["A"; "C"]%string true (-1) (-1) screen0).
Definition screen2 : Panel :=
  tree_of (subdivide [0%nat] 2 ["B1"; "B2"]%string true (-1) (-1) screen1).
Definition screen3 : Panel :=
  tree_of (subdivide [1%nat] 2 ["D1"; "D2"]%string true (-1) (-1) screen2).

(** The left half A of [screen3] and its first daughter B1. *)
Definition screen3_A : Panel := nth 0 (daughters screen3) screen0.
Definition screen3_B1 : Panel := nth 0 (daughters screen3_A) screen0.

(** *** Predicates of the statements about panels *)

(** Two daughter lists that agree on everything below the daughters. *)
Definition same_below (ds ds' : list Panel) : Prop :=
  map daughters ds' = map daughters ds.

(** The geometry of one panel. *)
Definition triple (d : Panel) : Z * Z * Z := (width d, height d, percent d).

(** The exceptions that can escape a [seal]. *)
Definition seal_exn (e : exn) : Prop :=
  e = PanelError \/ e = OverflowError \/ e = ValueError \/ e = ZeroDivisionError.

(** ** Text

    A Python [str] is a list of characters.  The regular expressions of
    [constrain] and [frame] are embedded one by one as functions, each
    with the reading of the pattern in its comment ([re] of Python 2 on
    byte strings, no flags unless stated: [.] is any character but the
    newline, [\s] is one of space, tab, newline, return, form feed and
    vertical tab, [\w] is a letter, a digit or the underscore). *)

Definition text : Type := list ascii.

Definition str (s : string) : text := list_ascii_of_string s.

Definition nl : ascii := "010"%char.
Definition space : ascii := " "%char.
Definition pipe : ascii := "|"%char.
Definition dash : ascii := "-"%char.
Definition plus : ascii := "+"%char.
Definition backtick : ascii := "`"%char.

Definition is_nl (c : ascii) : bool := Ascii.eqb c nl.

(** [\s] *)
Definition is_space (c : ascii) : bool :=
  let n := nat_of_ascii c in
  Nat.eqb n 32 || (Nat.leb 9 n && Nat.leb n 13).

(** [\w] *)
Definition is_word (c : ascii) : bool :=
  let n := nat_of_ascii c in
  (Nat.leb 48 n && Nat.leb n 57) || (Nat.leb 65 n && Nat.leb n 90)
  || (Nat.leb 97 n && Nat.leb n 122) || Nat.eqb n 95.

(** [s * n]: the empty string when [n] is not positive.  Strings have any
    length here.  In Python a count, and the length of the string it
    gives, stay under 2^63, and [s * n] raises [OverflowError] past that;
    a statement that a call returns for a count that the caller gives
    keeps that count, and the strings repeated, small enough for the
    products to stay under this bound. *)
Definition rep (s : text) (n : Z) : text := concat (repeat s (Z.to_nat n)).

(** [len(s)] *)
Definition len (s : text) : Z := Z.of_nat (length s).

(** [s.split("\n")]: always at least one line. *)
Fixpoint split_lines (s : text) : list text :=
  match s with
  | [] => [[]]
  | c :: r =>
      if is_nl c then [] :: split_lines r
      else
        match split_lines r with
        | l :: ls => (c :: l) :: ls
        | [] => [[c]]
        end
  end.

(** ["\n".join(ls)] *)
Fixpoint join_lines (ls : list text) : text :=
  match ls with
  | [] => []
  | [l] => l
  | l :: rest => l ++ nl :: join_lines rest
  end.

(** The first line of a string, and what follows its newline if it has
    one. *)
Fixpoint break_line (s : text) : text * option text :=
  match s with
  | [] => ([], None)
  | c :: r =>
      if is_nl c then ([], Some r)
      else let (l, rest) := break_line r in (c :: l, rest)
  end.

(** [s.split("\n", n)] for [n >= 0]: at most [n] cuts, the rest of the
    string is the last piece.  The count is a [nat] of any size; in Python
    it stays under 2^63 ([OverflowError] past that), as for [rep]. *)
Fixpoint split_max (n : nat) (s : text) : list text :=
  match n with
  | O => [s]
  | S n' =>
      match break_line s with
      | (l, None) => [l]
      | (l, Some rest) => l :: split_max n' rest
      end
  end.

(** A substitution whose pattern starts with [^] under [re.M] and cannot
    cross a newline meets every line once, at its start: it rewrites the
    lines one by one. *)
Definition map_lines (f : text -> text) (s : text) : text :=
  join_lines (map f (split_lines s)).

(** [str(n)] for an int. *)
Definition str_of_Z (n : Z) : text :=
  str (NilZero.string_of_int (Z.to_int n)).

(** *** Bounded repetition in a pattern

    The pattern text [.{,N}] is built with [str(N)].  For [N >= 0] it is
    a repetition of [.] from 0 to N times, and the compiler of [re]
    raises [OverflowError] from [MAXREPEAT] on.  For [N < 0] the braces are
    no repetition: the pattern is [.] followed by the literal characters
    [{,-n}]. *)
Definition MAXREPEAT : Z := 4294967295.

Inductive dots : Type :=
| UpTo (n : Z)
| DotThen (lit : text).

Definition dots_upto (n : Z) : result dots :=
  if n <? 0 then Ok (DotThen (str "{," ++ str_of_Z n ++ str "}"))
  else if MAXREPEAT <=? n then Raise OverflowError
  else Ok (UpTo n).

Fixpoint starts_with (lit s : text) : bool :=
  match lit, s with
  | [], _ => true
  | a :: lit', b :: s' => Ascii.eqb a b && starts_with lit' s'
  | _ :: _, [] => false
  end.

(** ** constrain *)

(** The first substitution: in every line that matches [^.*\|.*\|.*$]
    (two pipes or more) each space becomes a backtick. *)
Definition count_pipes (l : text) : nat :=
  length (filter (Ascii.eqb pipe) l).

Definition protect_line (l : text) : text :=
  if Nat.leb 2 (count_pipes l)
  then map (fun c => if Ascii.eqb c space then backtick else c) l
  else l.

(** The second group [(\s|(\w--?\w)|$)] tried at the head of [r]: the
    text it matches.  The alternatives are tried in this order; [-?] takes
    the second dash when it can; [$] holds at the end of the string (just
    before a final newline [\s] has matched already). *)
Definition match_group2 (r : text) : option text :=
  match r with
  | [] => Some []
  | c :: r1 =>
      if is_space c then Some [c]
      else if is_word c then
        match r1 with
        | d1 :: d2 :: r2 =>
            if Ascii.eqb d1 dash then
              if Ascii.eqb d2 dash then
                match r2 with
                | w :: _ => if is_word w then Some [c; d1; d2; w] else None
                | [] => None
                end
              else if is_word d2 then Some [c; d1; d2] else None
            else None
        | _ => None
        end
      else None
  end.

Definition group2_only (r : text) : option (text * text) :=
  match match_group2 r with
  | Some g2 => Some ([], g2)
  | None => None
  end.

(** [(.{,n})(\s|(\w--?\w)|$)] at the head of [r]: the two groups.  The
    repetition is greedy: one more character is taken first, and given
    back when the rest does not match. *)
Fixpoint match_upto (n : Z) (r : text) {struct r} : option (text * text) :=
  match r with
  | [] => group2_only r
  | c :: r' =>
      if (0 <? n) && negb (is_nl c) then
        match match_upto (n - 1) r' with
        | Some (g1, g2) => Some (c :: g1, g2)
        | None => group2_only r
        end
      else group2_only r
  end.

(** [(.{,-n})(\s|(\w--?\w)|$)], the braces literal, at the head of [r]. *)
Definition match_dot_then (lit r : text) : option (text * text) :=
  match r with
  | [] => None
  | c :: r' =>
      if negb (is_nl c) && starts_with lit r' then
        match match_group2 (skipn (length lit) r') with
        | Some g2 => Some (c :: lit, g2)
        | None => None
        end
      else None
  end.

Definition match_wrap (q : dots) (r : text) : option (text * text) :=
  match q with
  | UpTo n => match_upto n r
  | DotThen lit => match_dot_then lit r
  end.

(** The replacement function of the second substitution.  Its first test,
    [re.match(r"^\+-*\+^", m.group(0))], asks for the start of the string
    after at least two characters and never holds.  What is left:
    [m.group(1) + "\n"] when group 2 has fewer than two characters, else
    group 1, group 2 less its last character, a newline, that last
    character. *)
Definition wrap_replacement (g1 g2 : text) : text :=
  if Nat.ltb (length g2) 2 then g1 ++ [nl]
  else g1 ++ removelast g2 ++ [nl] ++ skipn (length g2 - 1) g2.

(** [re.sub] of Python 2.7 for the pattern of [constrain], reading the
    string left to right.  [skip] counts the characters still inside the
    last match; [adjacent] tells that the last match ended at this very
    position.  At a position the pattern is tried; with no match the
    character is copied and the search moves on.  An empty match is
    replaced unless it is adjacent to the last match, and the search moves
    one character on; another match is replaced and the search resumes at
    its end. *)
Fixpoint wrap_sub (q : dots) (r : text) (skip : nat) (adjacent : bool)
  {struct r} : text :=
  match skip with
  | S k =>
      match r with
      | [] => []
      | _ :: r' => wrap_sub q r' k adjacent
      end
  | O =>
      match match_wrap q r with
      | None =>
          match r with
          | [] => []
          | c :: r' => c :: wrap_sub q r' 0 false
          end
      | Some (g1, g2) =>
          match (length g1 + length g2)%nat with
          | O =>
              (if adjacent then [] else wrap_replacement g1 g2)
              ++ match r with
                 | [] => []
                 | c :: r' => c :: wrap_sub q r' 0 false
                 end
          | S k =>
              wrap_replacement g1 g2
              ++ match r with
                 | [] => []
                 | _ :: r' => wrap_sub q r' k true
                 end
          end
      end
  end.

(** [re.sub("`", " ", text)] *)
Definition unprotect (s : text) : text :=
  map (fun c => if Ascii.eqb c backtick then space else c) s.

(** [if text[-1]=='\n': text = text[:-1]]; [text[-1]] raises on the empty
    string. *)
Definition drop_final_newline (s : text) : result text :=
  match s with
  | [] => Raise IndexError
  | _ :: _ => Ok (if is_nl (last s space) then removelast s else s)
  end.

(** [constrain(text, width)].  The loop that computes [longest] has no
    effect on the result and is left out. *)
Definition protect (t : text) : text := map_lines protect_line t.

Definition constrain (t : text) (width : Z) : result text :=
  let t1 := protect t in
  q <- dots_upto width ;;
  drop_final_newline (unprotect (wrap_sub q t1 0 false)).

(** *** Words and hyphens, for stating what [constrain] achieves

    [run s] is the number of characters of [s] before its first white
    space; [longest_run s] is the length of the longest stretch without
    white space anywhere in [s]. *)
Fixpoint run (s : text) : nat :=
  match s with
  | [] => O
  | c :: r => if is_space c then O else S (run r)
  end.

Fixpoint longest_run (s : text) : nat :=
  match s with
  | [] => O
  | _ :: r => Nat.max (run s) (longest_run r)
  end.

(** The alternative [\w--?\w] of the pattern matches at the head of [s]. *)
Definition hyphen_at (s : text) : bool :=
  match s with
  | c :: d1 :: d2 :: r2 =>
      is_word c && Ascii.eqb d1 dash
      && (if Ascii.eqb d2 dash
          then match r2 with w :: _ => is_word w | [] => false end
          else is_word d2)
  | _ => false
  end.

Fixpoint has_hyphen_break (s : text) : bool :=
  match s with
  | [] => false
  | _ :: r => hyphen_at s || has_hyphen_break r
  end.

(** ** frame *)

(** The longest line, as the [findall] loop over [^.*$] measures it. *)
Definition widest (s : text) : Z :=
  fold_right Z.max 0 (map len (split_lines s)).

(** [if len(text)<1: text = " "+" "*(width-fNum-padding*4)] *)
Definition fill_empty (t : text) (width fNum padding : Z) : text :=
  if len t <? 1 then [space] ++ rep [space] (width - fNum - padding * 4) else t.

(** [re.sub(r"(^.{,N})", r"\1" + " "*width, text, flags=re.M)] on one
    line: [width] spaces go in after the first N characters. *)
Definition pad_line (q : dots) (width : Z) (l : text) : text :=
  match q with
  | UpTo n => firstn (Z.to_nat n) l ++ rep [space] width ++ skipn (Z.to_nat n) l
  | DotThen lit =>
      match l with
      | c :: l' =>
          if starts_with lit l'
          then c :: lit ++ rep [space] width ++ skipn (length lit) l'
          else l
      | [] => l
      end
  end.

Definition left_bar (leftFrame : bool) : text := if leftFrame then [pipe] else [].
Definition right_bar (rightFrame : bool) : text := if rightFrame then [pipe] else [].

(** [re.sub(r"(^.{M}).*", "|" + r"\1" + "|", text, flags=re.M)] on one
    line, the bars as the flags say: a line shorter than M has no match. *)
Definition cut_line (m : Z) (leftFrame rightFrame : bool) (l : text) : text :=
  if Nat.leb (Z.to_nat m) (length l)
  then left_bar leftFrame ++ firstn (Z.to_nat m) l ++ right_bar rightFrame
  else l.

(** The block under [if leftFrame or rightFrame]. *)
Definition side_frames (width padding fNum : Z) (leftFrame rightFrame : bool)
    (s : text) : result text :=
  q <- dots_upto (width - 2 * padding - fNum) ;;
  let s1 := map_lines (pad_line q width) s in
  s2 <- (if 0 <? width - fNum then
           if MAXREPEAT <=? width - fNum then Raise OverflowError
           else Ok (map_lines (cut_line (width - fNum) leftFrame rightFrame) s1)
         else Ok s1) ;;
  let s3 := if width - fNum =? 0 then map_lines (fun _ => [pipe; pipe]) s2 else s2 in
  let s4 := if width - fNum =? -1 then map_lines (fun _ => [pipe]) s3 else s3 in
  let s5 := if width - fNum <? -1 then map_lines (fun _ => []) s4 else s4 in
  Ok s5.

Definition corner (side : bool) : text := if side then [plus] else [dash].

(** The border line drawn above or below, [None] when the width left by
    the side frames is under -1 and nothing is drawn. *)
Definition border_line (width fNum : Z) (leftFrame rightFrame : bool) : option text :=
  if 0 <? width - fNum then
    Some (corner leftFrame ++ rep [dash] (width - 2) ++ corner rightFrame)
  else if width - fNum =? 0 then
    Some (corner leftFrame ++ corner rightFrame)
  else if width - fNum =? -1 then
    Some (corner (leftFrame || rightFrame))
  else None.

Definition add_top (topFrame : bool) (border : option text) (s : text) : text :=
  match topFrame, border with
  | true, Some b => b ++ [nl] ++ s
  | _, _ => s
  end.

Definition add_bot (botFrame : bool) (border : option text) (s : text) : text :=
  match botFrame, border with
  | true, Some b => s ++ [nl] ++ b
  | _, _ => s
  end.

(** [temp[:-k]] for [k >= 1] *)
Definition drop_last {A : Type} (k : nat) (l : list A) : list A :=
  firstn (length l - k) l.

(** The block under [if height > -1]. *)
Definition fix_height (width height padding fNum : Z)
    (topFrame botFrame leftFrame rightFrame : bool) (s : text) : text :=
  if -1 <? height then
    let blank :=
      (if leftFrame then [nl; pipe] else [nl])
      ++ rep [space] (width - fNum) ++ right_bar rightFrame in
    let s1 := s ++ rep blank height in
    let temp := split_max (Z.to_nat (height + b2z topFrame)) s1 in
    let s2 := join_lines
                (drop_last (Z.to_nat (1 + padding + b2z botFrame + b2z topFrame)) temp) in
    s2 ++ rep ([nl; pipe] ++ rep [space] (width - fNum) ++ [pipe]) padding
  else s.

(** [frame(text, width, height, padding, topFrame, botFrame, leftFrame,
    rightFrame)] once the sentinel [padding < 0] is out of the way. *)
Definition frame_body (t : text) (width height padding : Z)
    (topFrame botFrame leftFrame rightFrame : bool) : result text :=
  let fNum := 0 + b2z leftFrame + b2z rightFrame in
  let t1 := fill_empty t width fNum padding in
  let width := if width <? 0 then widest t1 + 4 * padding + fNum else width in
  t2 <- constrain t1 (width - 4 * padding - fNum) ;;
  let t3 := map_lines (fun l => rep [space; space] padding ++ l) t2 in
  let t4 := rep [nl] padding ++ t3 ++ rep [nl] padding in
  t5 <- (if leftFrame || rightFrame
         then side_frames width padding fNum leftFrame rightFrame t4
         else Ok t4) ;;
  let border := border_line width fNum leftFrame rightFrame in
  let t6 := add_top topFrame border t5 in
  let t7 := fix_height width height padding fNum
              topFrame botFrame leftFrame rightFrame t6 in
  Ok (add_bot botFrame border t7).

Definition frame (t : text) (width height padding : Z)
    (topFrame botFrame leftFrame rightFrame : bool) : result text :=
  if padding <? 0 then frame_body t width height 0 false false false false
  else frame_body t width height padding topFrame botFrame leftFrame rightFrame.

(** The lines of a result, for reading. *)
Definition lines_of (r : result text) : list string :=
  match r with
  | Ok s => map string_of_list_ascii (split_lines s)
  | Raise _ => []
  end.

(** *** Predicates of the statements about text *)

(** A line: no newline in it. *)
Definition no_nl (l : text) : Prop := Forall (fun c => is_nl c = false) l.

(** Lines that all have [w] characters. *)
Definition all_width (w : Z) (ls : list text) : Prop :=
  Forall (fun l => len l = w /\ no_nl l) ls.

(** The text made of the lines [ls], each ended by a newline. *)
Definition ended (ls : list text) : text := concat (map (fun l => l ++ [nl]) ls).

(** A line of at most [W] characters. *)
Definition line_ok (W : Z) (l : text) : Prop := no_nl l /\ Z.of_nat (length l) <= W.

(** ** Further definitions

    *** Lookup in a list of daughters

    The loop [for elem in self.daughters: try: return elem[key]] of
    [__getitem__] on its own, the daughters numbered from [i] on. *)
Fixpoint search_daughters (key : string) (l : list Panel) (i : nat) : option path :=
  match l with
  | [] => None
  | d :: rest =>
      match getitem d key with
      | Some q => Some (i :: q)
      | None => search_daughters key rest (S i)
      end
  end.

(** The order in which the depth-first search meets the panels: a panel
    before the panels below it, a daughter before the daughters after
    it. *)
Fixpoint path_le (p q : path) : Prop :=
  match p, q with
  | [], _ => True
  | _ :: _, [] => False
  | i :: p', j :: q' => (i < j)%nat \/ (i = j /\ path_le p' q')
  end.

(** The tree of [screen2] with its right half split into D1 and a second
    panel named B2: two panels of one name, at [0; 1] and at [1; 1]. *)
Definition screen_twins : Panel :=
  tree_of (subdivide [1%nat] 2 ["D1"; "B2"]%string true (-1) (-1) screen2).
Definition screen_twins_second : Panel :=
  nth 1 (daughters (nth 1 (daughters screen_twins) screen0)) screen0.

(** Everything of a panel that is not its width, height or percent, the
    daughters left out. *)
Definition fixed_fields (d : Panel)
  : string * string * Z * (bool * bool * bool * bool) * (bool * bool) :=
  (name d, content d, padding d,
   (topFrame d, botFrame d, leftFrame d, rightFrame d),
   (horizontal d, vertical d)).

(** What a daughter takes from [subdivide]: no percent, no content, the
    padding and the frame flags handed down, no daughters. *)
Definition handed_down (d : Panel)
  : Z * string * Z * (bool * bool * bool * bool) * list Panel :=
  (percent d, content d, padding d,
   (topFrame d, botFrame d, leftFrame d, rightFrame d), daughters d).

(** *** The smaller text functions *)

(** The width that [frame] works with: the one asked for, or, when that
    is negative, the longest line of the text with four times the padding
    and the side frames added. *)
Definition frame_width (t : text) (width padding fNum : Z) : Z :=
  if width <? 0
  then widest (fill_empty t width fNum padding) + 4 * padding + fNum
  else width.

(** [text.count("\n")] *)
Definition count_nl (s : text) : Z := Z.of_nat (length (filter is_nl s)).

(** [longest_line(multi_line_string)]: the loop keeps the first line that
    is longer than all the lines before it. *)
Definition longest_line (s : text) : text :=
  snd (fold_left
         (fun (st : Z * text) (line : text) =>
            if fst st <? len line then (len line, line) else st)
         (split_lines s) (0, [])).

(** [line_height(multi_line_string)] *)
Definition line_height (s : text) : Z := Z.of_nat (length (split_lines s)).

(** [columnize(texts, width, height, padding, frames)]: the first text
    framed on all sides, the others without the top frame, one under the
    other. *)
Definition columnize (texts : list text) (width height padding : Z)
    (frames : bool) : result text :=
  match texts with
  | [] => Ok (rep [space] width)
  | first :: others =>
      let n := Z.of_nat (length texts) in
      let height :=
        if 0 <? height
        then (height - (n + 1) * b2z frames) / n + 2 * b2z frames
        else height in
      let width :=
        if width <? 0 then
          fold_left
            (fun biggest elem =>
               if biggest <? len (longest_line elem)
               then len (longest_line elem) else biggest)
            texts 0
          + 2 + 4 * padding
        else width in
      column <- frame first width height padding frames frames frames frames ;;
      fold_left
        (fun acc elem =>
           column <- acc ;;
           framed <- frame elem width height padding false frames frames frames ;;
           Ok (column ++ [nl] ++ framed))
        others (Ok column)
  end.

(** One line of the screen of [parallelize]: the line [num] of every
    column, each filled with spaces to the width of its column.
    [copy[num2][num]] raises [IndexError] on a column that is too
    short. *)
Fixpoint screen_line (num : nat) (columns : list (list text * Z)) : result text :=
  match columns with
  | [] => Ok []
  | (lines, l) :: rest =>
      match nth_error lines num with
      | None => Raise IndexError
      | Some cell =>
          others <- screen_line num rest ;;
          Ok (cell ++ rep [space] (l - len cell) ++ others)
      end
  end.

Fixpoint screen_lines (nums : list nat) (columns : list (list text * Z))
    (width : Z) : result text :=
  match nums with
  | [] => Ok []
  | num :: rest =>
      output <- screen_line num columns ;;
      screen <- screen_lines rest columns width ;;
      Ok ((if width <? 0 then output else firstn (Z.to_nat width) output)
          ++ [nl] ++ screen)
  end.

(** The text with the most newlines met so far, as the first loop of
    [parallelize] keeps it; it starts as the empty list, whose count is 0. *)
Definition tallest_of (texts : list text) : text :=
  fold_left
    (fun tallest t => if count_nl tallest <? count_nl t then t else tallest)
    texts [].

(** [parallelize(texts, width)].  The widest line of a text is found with
    the same loop over [^.*$] as in [frame]. *)
Definition parallelize (texts : list text) (width : Z) : result text :=
  let tallest := tallest_of texts in
  let lengths := map widest texts in
  let copy :=
    map (fun tl : text * Z =>
           let (t, l) := tl in
           split_lines
             (t ++ rep ([nl] ++ rep [space] l) (count_nl tallest - count_nl t)))
        (combine texts lengths) in
  match copy with
  | [] => Raise IndexError
  | first :: _ =>
      screen <- screen_lines (seq 0 (length first)) (combine copy lengths) width ;;
      Ok (removelast screen)
  end.

(** What [constrain] keeps of a text: the characters that are neither
    white space nor backticks. *)
Definition visible (c : ascii) : bool :=
  negb (is_space c) && negb (Ascii.eqb c backtick).

Definition black (c : ascii) : bool := negb (is_space c).

(** A column of [parallelize] with [rows] lines, none longer than the
    width of the column. *)
Definition column_ok (rows : nat) (col : list text * Z) : Prop :=
  length (fst col) = rows
  /\ Forall (fun x => no_nl x /\ len x <= snd col) (fst col).

(** * Theorems: the panel tree *)

Section SealFacts.

Lemma zsum_app (l1 l2 : list Z) : zsum (l1 ++ l2) = zsum l1 + zsum l2.
Proof. unfold zsum. induction l1 as [|x l1 IH]; simpl; [reflexivity | lia]. Qed.

(** The loop body of [seal] never touches a percent. *)
Lemma seal_step_h_percent pH pW dP nF d :
  percent (state_of (seal_step_h pH pW dP nF d)) = percent d.
Proof.
  unfold seal_step_h. simpl.
  destruct (percent d <? 0); [destruct (free_extent pW dP nF)|]; reflexivity.
Qed.

Lemma seal_step_v_percent pH pW dP nF d :
  percent (state_of (seal_step_v pH pW dP nF d)) = percent d.
Proof.
  unfold seal_step_v. simpl.
  destruct (percent d <? 0); [destruct (free_extent pH dP nF)|]; reflexivity.
Qed.

Lemma for_each_percent step ds :
  (forall d, percent (state_of (step d)) = percent d) ->
  map percent (state_of (for_each step ds)) = map percent ds.
Proof.
  intros Hstep. induction ds as [|d ds IH]; simpl; [reflexivity|].
  specialize (Hstep d).
  destruct (step d) as [d'|e d']; simpl in *.
  - destruct (for_each step ds) as [r|e r]; simpl in *; congruence.
  - congruence.
Qed.

Lemma existsb_is_free_percent ds ds' :
  map percent ds' = map percent ds ->
  existsb is_free ds' = existsb is_free ds.
Proof.
  revert ds'. induction ds as [|d ds IH]; intros [|d' ds'] H; simpl in *;
    try discriminate; [reflexivity|].
  injection H as H1 H2. unfold is_free at 1 3. rewrite H1.
  f_equal. auto.
Qed.

Lemma normalize_free dP ds :
  existsb is_free (normalize dP ds) = existsb is_free ds.
Proof.
  unfold normalize. destruct (100 <? dP) eqn:E; [|reflexivity].
  apply Z.ltb_lt in E.
  induction ds as [|d ds IH]; simpl; [reflexivity|].
  rewrite IH. f_equal.
  unfold is_free. destruct (0 <? percent d) eqn:P; [|reflexivity].
  apply Z.ltb_lt in P. simpl.
  assert (0 <= percent d / dP) by (apply Z.div_pos; lia).
  destruct (percent d / dP <? 0) eqn:Q; [apply Z.ltb_lt in Q; lia|].
  destruct (percent d <? 0) eqn:R; [apply Z.ltb_lt in R; lia|reflexivity].
Qed.

(** Adding [delta] to the last free daughter adds [delta] to the sum. *)
Lemma bump_last_free_widths delta ds :
  existsb is_free ds = true ->
  sum_widths (bump_last_free (fun d => set_width (width d + delta) d) ds)
  = sum_widths ds + delta.
Proof.
  unfold sum_widths, zsum.
  induction ds as [|d ds IH]; simpl; [discriminate|].
  destruct (existsb is_free ds) eqn:E; simpl.
  - intros _. rewrite IH by reflexivity. lia.
  - rewrite orb_false_r. intros ->. simpl. lia.
Qed.

Lemma bump_last_free_heights delta ds :
  existsb is_free ds = true ->
  sum_heights (bump_last_free (fun d => set_height (height d + delta) d) ds)
  = sum_heights ds + delta.
Proof.
  unfold sum_heights, zsum.
  induction ds as [|d ds IH]; simpl; [discriminate|].
  destruct (existsb is_free ds) eqn:E; simpl.
  - intros _. rewrite IH by reflexivity. lia.
  - rewrite orb_false_r. intros ->. simpl. lia.
Qed.

Lemma for_each_free step ds ds1 :
  (forall d, percent (state_of (step d)) = percent d) ->
  for_each step ds = Done ds1 ->
  existsb is_free ds1 = existsb is_free ds.
Proof.
  intros Hs H. apply existsb_is_free_percent.
  pose proof (for_each_percent step ds Hs) as P. rewrite H in P. exact P.
Qed.

End SealFacts.

(** C1 (amended). When at least one daughter has no explicit percent, a
    completed [seal] leaves the daughters' extents along the stacking axis
    summing to exactly the container's interior extent along that axis. *)
Theorem seal_conservation_with_free_daughter (p p' : Panel) :
  existsb is_free (daughters p) = true ->
  seal true p = Done p' ->
  stack_sum p' = stack_interior p'.
Proof.
  intros Hfree H. unfold seal in H.
  destruct (daughters p) as [|d0 ds0] eqn:Eds; [discriminate|].
  unfold seal_body in H. rewrite <- Eds in *. rewrite Hfree in H. simpl andb in H.
  unfold stack_sum, stack_interior.
  destruct (horizontal p) eqn:Hh.
  - destruct (for_each _ _) as [ds1|e ds1] eqn:Eloop; [|discriminate].
    injection H as <-. simpl. rewrite Hh.
    rewrite bump_last_free_widths.
    + unfold parentWidth. simpl. lia.
    + rewrite (for_each_free _ _ _ (seal_step_h_percent _ _ _ _) Eloop).
      rewrite normalize_free. exact Hfree.
  - destruct (vertical p) eqn:Hv; [|discriminate].
    destruct (for_each _ _) as [ds1|e ds1] eqn:Eloop; [|discriminate].
    injection H as <-. simpl. rewrite Hh.
    rewrite bump_last_free_heights.
    + unfold parentHeight. simpl. lia.
    + rewrite (for_each_free _ _ _ (seal_step_v_percent _ _ _ _) Eloop).
      rewrite normalize_free. exact Hfree.
Qed.

Lemma seal_conservation_with_free_daughter_witness :
  exists p', seal true one_free = Done p' /\ stack_sum p' = stack_interior p'.
Proof.
  eexists. split; [vm_compute; reflexivity|].
  apply (seal_conservation_with_free_daughter one_free); vm_compute; reflexivity.
Defined.

(** C1, as the specification states it, fails: two daughters at 50 percent
    in a row of interior width 5 get 2 columns each, and with no free
    daughter nothing absorbs the missing column. *)
Lemma seal_conservation_fails_all_set :
  exists p', seal true halves = Done p'
             /\ geometry p' = [(2, 8, 50); (2, 8, 50)]
             /\ stack_sum p' = 4 /\ stack_interior p' = 5
             /\ stack_sum p' <> stack_interior p'.
Proof. eexists. vm_compute. repeat split; discriminate. Qed.

(** ** Rescaling of percents *)

Lemma daughtersPercent_nonneg ds : 0 <= daughtersPercent ds.
Proof.
  unfold daughtersPercent, zsum.
  induction ds as [|d ds IH]; simpl; [lia|].
  unfold is_set at 1. destruct (0 <=? percent d) eqn:E; simpl; [|exact IH].
  apply Z.leb_le in E. lia.
Qed.

Lemma percent_le_daughtersPercent ds d :
  In d ds -> 0 <= percent d -> percent d <= daughtersPercent ds.
Proof.
  unfold daughtersPercent, zsum.
  induction ds as [|x ds IH]; simpl; [tauto|].
  intros [->|Hin] Hd.
  - unfold is_set at 1. apply Z.leb_le in Hd. rewrite Hd. simpl.
    pose proof (daughtersPercent_nonneg ds) as N.
    unfold daughtersPercent, zsum in N. apply Z.leb_le in Hd. lia.
  - specialize (IH Hin Hd).
    unfold is_set at 1. destruct (0 <=? percent x) eqn:E; simpl; [|exact IH].
    apply Z.leb_le in E. lia.
Qed.

(** What the rescaling loop leaves: when the set percents sum to more than
    100, every set percent ends as 0 or 1 (the floor of a ratio that is at
    most 1), not as a share of 100. *)
Lemma normalize_collapses ds d' :
  100 < daughtersPercent ds ->
  In d' (normalize (daughtersPercent ds) ds) ->
  0 <= percent d' -> percent d' <= 1.
Proof.
  intros Hbig Hin Hd'. unfold normalize in Hin.
  apply Z.ltb_lt in Hbig as Hb. rewrite Hb in Hin.
  apply in_map_iff in Hin as (d & <- & Hd).
  destruct (0 <? percent d) eqn:P.
  - apply Z.ltb_lt in P. simpl.
    pose proof (percent_le_daughtersPercent ds d Hd ltac:(lia)) as L.
    apply Z.lt_succ_r.
    apply Z.div_lt_upper_bound; lia.
  - apply Z.ltb_ge in P. lia.
Qed.

(** C3. The code at the failing input: two daughters at 60 percent (sum
    120) in a row of interior width 100.  The loop stores 60 / 120 = 0 in
    both, where the claim has 60 * 100 / 120 = 50; the percents then sum to
    0 and both daughters get no width at all. *)
Theorem seal_rescale_at_120 :
  exists p', seal true over_full = Done p'
             /\ map percent (daughters p') = [0; 0]
             /\ map width (daughters p') = [0; 0]
             /\ stack_interior p' = 100
             /\ map (fun d => percent d * 100 / daughtersPercent (daughters over_full))
                    (daughters over_full) = [50; 50].
Proof. eexists. vm_compute. repeat split. Qed.

(** ** Sealing twice *)

Section Idempotence.

Lemma daughtersPercent_ext ds ds' :
  map percent ds' = map percent ds -> daughtersPercent ds' = daughtersPercent ds.
Proof.
  unfold daughtersPercent.
  revert ds'. induction ds as [|d ds IH]; intros [|d' ds'] H; simpl in *;
    try discriminate; [reflexivity|].
  injection H as H1 H2. specialize (IH ds' H2).
  replace (is_set d') with (is_set d) by (unfold is_set; rewrite H1; reflexivity).
  destruct (is_set d); simpl; [|exact IH].
  unfold zsum in *. simpl. rewrite H1, IH. reflexivity.
Qed.

Lemma numFreeDaughters_ext ds ds' :
  map percent ds' = map percent ds -> numFreeDaughters ds' = numFreeDaughters ds.
Proof.
  unfold numFreeDaughters. intros H. f_equal.
  revert ds' H. induction ds as [|d ds IH]; intros [|d' ds'] H; simpl in *;
    try discriminate; [reflexivity|].
  injection H as H1 H2. specialize (IH ds' H2).
  replace (is_free d') with (is_free d) by (unfold is_free; rewrite H1; reflexivity).
  destruct (is_free d); simpl; [f_equal|]; exact IH.
Qed.

Lemma bump_last_free_percent f ds :
  (forall d, percent (f d) = percent d) ->
  map percent (bump_last_free f ds) = map percent ds.
Proof.
  intros Hf. induction ds as [|d ds IH]; simpl; [reflexivity|].
  destruct (existsb is_free ds); simpl; [f_equal; exact IH|].
  destruct (is_free d); simpl; [rewrite Hf|]; reflexivity.
Qed.

Variable step : Panel -> outcome Panel.
Variable f : Panel -> Panel.
Hypothesis step_fixed : forall d d', step d = Done d' -> step d' = Done d'.
Hypothesis step_forgets : forall d d', step d = Done d' -> step (f d) = Done d'.

Lemma for_each_fixed ds ds1 :
  for_each step ds = Done ds1 -> for_each step ds1 = Done ds1.
Proof.
  revert ds1. induction ds as [|d ds IH]; intros ds1 H; simpl in H.
  - injection H as <-. reflexivity.
  - destruct (step d) as [d'|e d'] eqn:Ed; [|discriminate].
    destruct (for_each step ds) as [r|e r] eqn:Er; [|discriminate].
    injection H as <-. simpl.
    rewrite (step_fixed _ _ Ed), (IH r eq_refl). reflexivity.
Qed.

Lemma for_each_bump ds1 :
  for_each step ds1 = Done ds1 ->
  for_each step (bump_last_free f ds1) = Done ds1.
Proof.
  induction ds1 as [|d ds IH]; intros H; simpl in *; [reflexivity|].
  destruct (step d) as [d'|e d'] eqn:Ed; [|discriminate].
  destruct (for_each step ds) as [r|e r] eqn:Er; [|discriminate].
  injection H as H1 H2. subst d' r.
  destruct (existsb is_free ds).
  - simpl. rewrite Ed, (IH eq_refl). reflexivity.
  - destruct (is_free d); simpl.
    + rewrite (step_forgets _ _ Ed), Er. reflexivity.
    + rewrite Ed, Er. reflexivity.
Qed.

End Idempotence.

Lemma seal_step_h_fixed pH pW dP nF d d' :
  seal_step_h pH pW dP nF d = Done d' -> seal_step_h pH pW dP nF d' = Done d'.
Proof.
  unfold seal_step_h. cbn [percent set_width set_height].
  destruct (percent d <? 0) eqn:P.
  - destruct (free_extent pW dP nF) eqn:F; [|discriminate].
    intros H. injection H as <-. cbn [percent set_width set_height].
    rewrite P. reflexivity.
  - intros H. injection H as <-. cbn [percent set_width set_height].
    rewrite P. reflexivity.
Qed.

Lemma seal_step_v_fixed pH pW dP nF d d' :
  seal_step_v pH pW dP nF d = Done d' -> seal_step_v pH pW dP nF d' = Done d'.
Proof.
  unfold seal_step_v. cbn [percent set_width set_height].
  destruct (percent d <? 0) eqn:P.
  - destruct (free_extent pH dP nF) eqn:F; [|discriminate].
    intros H. injection H as <-. cbn [percent set_width set_height].
    rewrite P. reflexivity.
  - intros H. injection H as <-. cbn [percent set_width set_height].
    rewrite P. reflexivity.
Qed.

Lemma seal_step_h_forgets pH pW dP nF x d d' :
  seal_step_h pH pW dP nF d = Done d' ->
  seal_step_h pH pW dP nF (set_width (width d + x) d) = Done d'.
Proof.
  unfold seal_step_h. cbn [percent set_width set_height].
  destruct (percent d <? 0) eqn:P.
  - destruct (free_extent pW dP nF) eqn:F; [|discriminate].
    intros H. injection H as <-. reflexivity.
  - intros H. injection H as <-. reflexivity.
Qed.

Lemma seal_step_v_forgets pH pW dP nF x d d' :
  seal_step_v pH pW dP nF d = Done d' ->
  seal_step_v pH pW dP nF (set_height (height d + x) d) = Done d'.
Proof.
  unfold seal_step_v. cbn [percent set_width set_height].
  destruct (percent d <? 0) eqn:P.
  - destruct (free_extent pH dP nF) eqn:F; [|discriminate].
    intros H. injection H as <-. reflexivity.
  - intros H. injection H as <-. reflexivity.
Qed.

Lemma for_each_nonempty step d ds ds1 :
  for_each step (d :: ds) = Done ds1 -> exists d1 r1, ds1 = d1 :: r1.
Proof.
  simpl. destruct (step d); [|discriminate].
  destruct (for_each step ds); [|discriminate].
  intros H. injection H as <-. eauto.
Qed.

Lemma seal_nonempty c p :
  daughters p <> [] -> seal c p = seal_body c p.
Proof. unfold seal. destruct (daughters p); [congruence|reflexivity]. Qed.

Lemma bump_last_free_nonempty g d ds :
  exists d1 r1, bump_last_free g (d :: ds) = d1 :: r1.
Proof.
  simpl. destruct (existsb is_free ds); [eauto|].
  destruct (is_free d); eauto.
Qed.

(** Where the rescaling loop does not run (the set percents sum to at most
    100), a second [seal] changes nothing. *)
Lemma seal_idempotent_without_rescale (c : bool) (p p' : Panel) :
  daughtersPercent (daughters p) <= 100 ->
  seal c p = Done p' ->
  seal c p' = Done p'.
Proof.
  intros Hle H.
  assert (Hn : forall x ds, x <= 100 -> normalize x ds = ds).
  { intros x ds L. unfold normalize.
    destruct (100 <? x) eqn:E; [apply Z.ltb_lt in E; lia|reflexivity]. }
  unfold seal in H.
  destruct (daughters p) as [|d0 ds0] eqn:Eds; [discriminate|].
  unfold seal_body in H. rewrite <- Eds in *. rewrite (Hn _ _ Hle) in H.
  destruct (horizontal p) eqn:Hh.
  - destruct (for_each _ (daughters p)) as [ds1|e ds1] eqn:Eloop; [|discriminate].
    pose proof (for_each_percent _ (daughters p)
                  (seal_step_h_percent (parentHeight p) (parentWidth p)
                     (daughtersPercent (daughters p))
                     (numFreeDaughters (daughters p)))) as Hp.
    rewrite Eloop in Hp. simpl in Hp.
    pose proof (for_each_fixed _ (seal_step_h_fixed _ _ _ _) _ _ Eloop) as Hfix.
    rewrite Eds in Eloop. destruct (for_each_nonempty _ _ _ _ Eloop) as (d1 & r1 & E1).
    rewrite <- Eds in Eloop.
    set (g := fun d => set_width (width d + (parentWidth p - sum_widths ds1)) d) in *.
    assert (Hpb : map percent (bump_last_free g ds1) = map percent (daughters p)).
    { rewrite bump_last_free_percent by reflexivity. exact Hp. }
    assert (Hbump : for_each (seal_step_h (parentHeight p) (parentWidth p)
                     (daughtersPercent (daughters p))
                     (numFreeDaughters (daughters p))) (bump_last_free g ds1) = Done ds1).
    { apply for_each_bump; [|exact Hfix].
      intros d d'. apply seal_step_h_forgets. }
    destruct (c && existsb is_free (daughters p)) eqn:Ec; injection H as <-.
    + rewrite (seal_nonempty c (set_daughters (bump_last_free g ds1) p)).
      2:{ simpl. subst ds1. destruct (bump_last_free_nonempty g d1 r1) as (? & ? & E).
          rewrite E. discriminate. }
      unfold seal_body. simpl daughters.
      change (parentHeight (set_daughters (bump_last_free g ds1) p)) with (parentHeight p).
      change (parentWidth (set_daughters (bump_last_free g ds1) p)) with (parentWidth p).
      change (horizontal (set_daughters (bump_last_free g ds1) p)) with (horizontal p).
      rewrite (daughtersPercent_ext _ _ Hpb), (numFreeDaughters_ext _ _ Hpb).
      rewrite (existsb_is_free_percent _ _ Hpb).
      rewrite Hn by lia.
      rewrite Hh, Hbump, Ec. reflexivity.
    + rewrite (seal_nonempty c (set_daughters ds1 p)).
      2:{ simpl. rewrite E1. discriminate. }
      unfold seal_body. simpl daughters.
      change (parentHeight (set_daughters ds1 p)) with (parentHeight p).
      change (parentWidth (set_daughters ds1 p)) with (parentWidth p).
      change (horizontal (set_daughters ds1 p)) with (horizontal p).
      rewrite (daughtersPercent_ext _ _ Hp), (numFreeDaughters_ext _ _ Hp).
      rewrite (existsb_is_free_percent _ _ Hp).
      rewrite Hn by lia.
      rewrite Hh, Hfix, Ec. reflexivity.
  - destruct (vertical p) eqn:Hv; [|discriminate].
    destruct (for_each _ (daughters p)) as [ds1|e ds1] eqn:Eloop; [|discriminate].
    pose proof (for_each_percent _ (daughters p)
                  (seal_step_v_percent (parentHeight p) (parentWidth p)
                     (daughtersPercent (daughters p))
                     (numFreeDaughters (daughters p)))) as Hp.
    rewrite Eloop in Hp. simpl in Hp.
    pose proof (for_each_fixed _ (seal_step_v_fixed _ _ _ _) _ _ Eloop) as Hfix.
    rewrite Eds in Eloop. destruct (for_each_nonempty _ _ _ _ Eloop) as (d1 & r1 & E1).
    rewrite <- Eds in Eloop.
    set (g := fun d => set_height (height d + (parentHeight p - sum_heights ds1)) d) in *.
    assert (Hpb : map percent (bump_last_free g ds1) = map percent (daughters p)).
    { rewrite bump_last_free_percent by reflexivity. exact Hp. }
    assert (Hbump : for_each (seal_step_v (parentHeight p) (parentWidth p)
                     (daughtersPercent (daughters p))
                     (numFreeDaughters (daughters p))) (bump_last_free g ds1) = Done ds1).
    { apply for_each_bump; [|exact Hfix].
      intros d d'. apply seal_step_v_forgets. }
    destruct (c && existsb is_free (daughters p)) eqn:Ec; injection H as <-.
    + rewrite (seal_nonempty c (set_daughters (bump_last_free g ds1) p)).
      2:{ simpl. subst ds1. destruct (bump_last_free_nonempty g d1 r1) as (? & ? & E).
          rewrite E. discriminate. }
      unfold seal_body. simpl daughters.
      change (parentHeight (set_daughters (bump_last_free g ds1) p)) with (parentHeight p).
      change (parentWidth (set_daughters (bump_last_free g ds1) p)) with (parentWidth p).
      change (horizontal (set_daughters (bump_last_free g ds1) p)) with (horizontal p).
      change (vertical (set_daughters (bump_last_free g ds1) p)) with (vertical p).
      rewrite (daughtersPercent_ext _ _ Hpb), (numFreeDaughters_ext _ _ Hpb).
      rewrite (existsb_is_free_percent _ _ Hpb).
      rewrite Hn by lia.
      rewrite Hh, Hv, Hbump, Ec. reflexivity.
    + rewrite (seal_nonempty c (set_daughters ds1 p)).
      2:{ simpl. rewrite E1. discriminate. }
      unfold seal_body. simpl daughters.
      change (parentHeight (set_daughters ds1 p)) with (parentHeight p).
      change (parentWidth (set_daughters ds1 p)) with (parentWidth p).
      change (horizontal (set_daughters ds1 p)) with (horizontal p).
      change (vertical (set_daughters ds1 p)) with (vertical p).
      rewrite (daughtersPercent_ext _ _ Hp), (numFreeDaughters_ext _ _ Hp).
      rewrite (existsb_is_free_percent _ _ Hp).
      rewrite Hn by lia.
      rewrite Hh, Hv, Hfix, Ec. reflexivity.
Qed.

(** C7. The code at the failing input: daughters at 60, 60, unset, unset
    in a row of interior width 100.  The first [seal] rescales the two set
    percents to 0 and hands out widths from the old sum 120; the second
    [seal] sees the sum 0 and hands out other widths. *)
Theorem seal_twice_differs :
  exists p1 p2,
    seal true over_full_free = Done p1 /\ seal true p1 = Done p2
    /\ geometry p1 = [(0, 8, 0); (0, 8, 0); (-10, 8, -1); (110, 8, -1)]
    /\ geometry p2 = [(0, 8, 0); (0, 8, 0); (50, 8, -1); (50, 8, -1)]
    /\ geometry p1 <> geometry p2.
Proof.
  exists (state_of (seal true over_full_free)).
  exists (state_of (seal true (state_of (seal true over_full_free)))).
  vm_compute. repeat split. discriminate.
Qed.

(** ** Paths *)

Section Paths.

Lemma nth_error_replace_nth_eq {A : Type} (l : list A) i x y :
  nth_error l i = Some y -> nth_error (replace_nth i x l) i = Some x.
Proof.
  revert i. induction l as [|a l IH]; intros [|i] H; simpl in *;
    try discriminate; auto.
Qed.

Lemma replace_nth_twice {A : Type} (l : list A) i x y :
  replace_nth i y (replace_nth i x l) = replace_nth i y l.
Proof.
  revert i. induction l as [|a l IH]; intros [|i]; simpl; try reflexivity.
  f_equal. apply IH.
Qed.

Lemma get_at_app q r t :
  get_at (q ++ r) t =
  match get_at q t with Some x => get_at r x | None => None end.
Proof.
  revert t. induction q as [|i q IH]; intros t; simpl; [reflexivity|].
  destruct (nth_error (daughters t) i); [apply IH|reflexivity].
Qed.

Lemma get_at_replace_at q x y t :
  get_at q t = Some x -> get_at q (replace_at q y t) = Some y.
Proof.
  revert t. induction q as [|i q IH]; intros t H; simpl in *; [reflexivity|].
  destruct (nth_error (daughters t) i) as [d|] eqn:E; [|discriminate].
  simpl. rewrite (nth_error_replace_nth_eq _ _ _ _ E). apply IH. exact H.
Qed.

Lemma replace_at_twice q x y z t :
  get_at q t = Some x -> replace_at q z (replace_at q y t) = replace_at q z t.
Proof.
  revert t. induction q as [|i q IH]; intros t H; simpl in *; [reflexivity|].
  destruct (nth_error (daughters t) i) as [d|] eqn:E; [|discriminate].
  simpl. rewrite (nth_error_replace_nth_eq _ _ _ _ E).
  rewrite replace_nth_twice, (IH _ H).
  destruct t; reflexivity.
Qed.

Lemma replace_at_app q r x y t :
  get_at q t = Some x ->
  replace_at (q ++ r) y t = replace_at q (replace_at r y x) t.
Proof.
  revert t. induction q as [|i q IH]; intros t H; simpl in *.
  - injection H as ->. reflexivity.
  - destruct (nth_error (daughters t) i) as [d|] eqn:E; [|discriminate].
    rewrite (IH _ H). reflexivity.
Qed.

Lemma parent_path_snoc q i : parent_path (q ++ [i]) = Some q.
Proof.
  unfold parent_path. rewrite removelast_last.
  destruct q; reflexivity.
Qed.

End Paths.

(** ** What a seal leaves alone *)

Lemma for_each_same_below step ds :
  (forall d, daughters (state_of (step d)) = daughters d) ->
  same_below ds (state_of (for_each step ds)).
Proof.
  unfold same_below. intros Hs.
  induction ds as [|d ds IH]; simpl; [reflexivity|].
  specialize (Hs d).
  destruct (step d) as [d'|e d']; simpl in *.
  - destruct (for_each step ds) as [r|e r]; simpl in *; congruence.
  - congruence.
Qed.

Lemma bump_last_free_same_below g ds :
  (forall d, daughters (g d) = daughters d) ->
  same_below ds (bump_last_free g ds).
Proof.
  unfold same_below. intros Hg.
  induction ds as [|d ds IH]; simpl; [reflexivity|].
  destruct (existsb is_free ds); simpl; [f_equal; exact IH|].
  destruct (is_free d); simpl; [rewrite Hg|]; reflexivity.
Qed.

Lemma normalize_same_below x ds : same_below ds (normalize x ds).
Proof.
  unfold same_below, normalize. destruct (100 <? x); [|reflexivity].
  induction ds as [|d ds IH]; simpl; [reflexivity|].
  rewrite IH. destruct (0 <? percent d); reflexivity.
Qed.

Lemma same_below_trans a b c :
  same_below a b -> same_below b c -> same_below a c.
Proof. unfold same_below. congruence. Qed.

Lemma seal_step_h_daughters pH pW dP nF d :
  daughters (state_of (seal_step_h pH pW dP nF d)) = daughters d.
Proof.
  unfold seal_step_h. cbn [percent set_height].
  destruct (percent d <? 0); [destruct (free_extent pW dP nF)|]; reflexivity.
Qed.

Lemma seal_step_v_daughters pH pW dP nF d :
  daughters (state_of (seal_step_v pH pW dP nF d)) = daughters d.
Proof.
  unfold seal_step_v. cbn [percent set_width].
  destruct (percent d <? 0); [destruct (free_extent pH dP nF)|]; reflexivity.
Qed.

(** [seal] rewrites fields of the panel's own daughters and nothing
    further down. *)
Lemma seal_same_below c p :
  same_below (daughters p) (daughters (state_of (seal c p))).
Proof.
  unfold seal. destruct (daughters p) as [|d0 r0] eqn:E.
  - simpl. rewrite E. reflexivity.
  - rewrite <- E. clear E d0 r0. unfold seal_body.
    destruct (horizontal p).
    + pose proof (for_each_same_below
                    (seal_step_h (parentHeight p) (parentWidth p)
                       (daughtersPercent (daughters p))
                       (numFreeDaughters (daughters p)))
                    (normalize (daughtersPercent (daughters p)) (daughters p))
                    (seal_step_h_daughters _ _ _ _)) as L.
      pose proof (normalize_same_below (daughtersPercent (daughters p)) (daughters p)) as N.
      destruct (for_each _ _) as [ds1|e ds1]; simpl in *.
      * destruct (c && _); simpl.
        -- eapply same_below_trans; [exact N|].
           eapply same_below_trans; [exact L|].
           apply bump_last_free_same_below. reflexivity.
        -- eapply same_below_trans; eassumption.
      * eapply same_below_trans; eassumption.
    + destruct (vertical p).
      * pose proof (for_each_same_below
                    (seal_step_v (parentHeight p) (parentWidth p)
                       (daughtersPercent (daughters p))
                       (numFreeDaughters (daughters p)))
                    (normalize (daughtersPercent (daughters p)) (daughters p))
                    (seal_step_v_daughters _ _ _ _)) as L.
        pose proof (normalize_same_below (daughtersPercent (daughters p)) (daughters p)) as N.
        destruct (for_each _ _) as [ds1|e ds1]; simpl in *.
        -- destruct (c && _); simpl.
           ++ eapply same_below_trans; [exact N|].
              eapply same_below_trans; [exact L|].
              apply bump_last_free_same_below. reflexivity.
           ++ eapply same_below_trans; eassumption.
        -- eapply same_below_trans; eassumption.
      * simpl. apply normalize_same_below.
Qed.

Lemma same_below_nth ds ds' i :
  same_below ds ds' ->
  option_map daughters (nth_error ds' i) = option_map daughters (nth_error ds i).
Proof.
  unfold same_below. revert ds' i.
  induction ds as [|d ds IH]; intros [|d' ds'] [|i] H; simpl in *;
    try discriminate; try reflexivity.
  - injection H as H1 H2. rewrite H1. reflexivity.
  - injection H as H1 H2. apply IH. exact H2.
Qed.

Lemma get_at_same_daughters q x y :
  daughters x = daughters y -> q <> [] -> get_at q x = get_at q y.
Proof.
  intros H Hq. destruct q as [|i q]; [congruence|]. simpl. rewrite H. reflexivity.
Qed.

(** The daughter list of every panel below the sealed one is untouched. *)
Lemma seal_below c p q :
  q <> [] ->
  option_map daughters (get_at q (state_of (seal c p)))
  = option_map daughters (get_at q p).
Proof.
  intros Hq. destruct q as [|i q]; [congruence|]. clear Hq. simpl.
  pose proof (same_below_nth _ _ i (seal_same_below c p)) as H.
  destruct (nth_error (daughters (state_of (seal c p))) i) as [d'|];
    destruct (nth_error (daughters p) i) as [d|]; simpl in H; try discriminate.
  - injection H as H. destruct q as [|j q]; simpl; [rewrite H; reflexivity|].
    rewrite H. reflexivity.
  - reflexivity.
Qed.

Lemma nth_error_replace_nth_ne {A : Type} (l : list A) i j x :
  i <> j -> nth_error (replace_nth i x l) j = nth_error l j.
Proof.
  revert i j. induction l as [|a l IH]; intros [|i] [|j] H; simpl;
    try reflexivity; try congruence.
  apply IH. congruence.
Qed.

Lemma map_replace_nth_same {A B : Type} (f : A -> B) l i x y :
  nth_error l i = Some y -> f x = f y ->
  map f (replace_nth i x l) = map f l.
Proof.
  revert i. induction l as [|a l IH]; intros [|i] E H; simpl in *;
    try discriminate.
  - injection E as ->. rewrite H. reflexivity.
  - f_equal. apply IH; assumption.
Qed.

Lemma replace_at_direction_triple p self h v t :
  get_at p t = Some self ->
  triple (replace_at p (set_direction h v self) t) = triple t.
Proof.
  destruct p as [|i p]; simpl; intros H.
  - injection H as ->. reflexivity.
  - destruct (nth_error (daughters t) i); [reflexivity|discriminate].
Qed.

(** Flipping the direction flags of one panel moves no geometry at all. *)
Lemma replace_at_direction_geometry q :
  forall p self h v t,
    get_at p t = Some self ->
    option_map geometry (get_at q (replace_at p (set_direction h v self) t))
    = option_map geometry (get_at q t).
Proof.
  induction q as [|j q IH]; intros p self h v t H.
  - simpl. f_equal. unfold geometry.
    destruct p as [|i p]; simpl in *.
    + injection H as ->. reflexivity.
    + destruct (nth_error (daughters t) i) as [d|] eqn:E; [|discriminate].
      simpl. apply (map_replace_nth_same triple _ _ _ _ E).
      apply replace_at_direction_triple. exact H.
  - destruct p as [|i p]; simpl in H |- *.
    + injection H as ->. reflexivity.
    + destruct (nth_error (daughters t) i) as [d|] eqn:E; [|discriminate].
      simpl. destruct (Nat.eq_dec i j) as [->|N].
      * rewrite (nth_error_replace_nth_eq _ _ _ _ E), E. apply IH. exact H.
      * rewrite nth_error_replace_nth_ne by exact N. reflexivity.
Qed.

Lemma seal_below_geometry c p q :
  q <> [] ->
  option_map geometry (get_at q (state_of (seal c p)))
  = option_map geometry (get_at q p).
Proof.
  intros Hq. pose proof (seal_below c p q Hq) as H.
  destruct (get_at q (state_of (seal c p))) as [x|];
    destruct (get_at q p) as [y|]; simpl in *; try discriminate; [|reflexivity].
  injection H as H. unfold geometry. rewrite H. reflexivity.
Qed.

Lemma seal_origin_state t :
  exists o, seal_origin t = Some o /\ state_of o = state_of (seal true t)
            /\ (forall t', o = Done t' -> seal true t = Done t').
Proof.
  unfold seal_origin, update_at. simpl.
  destruct (seal true t) as [s|e s]; simpl; eexists; repeat split; auto.
Qed.

(** The seal of the origin is [seal] on the root of the tree. *)
Lemma seal_origin_is_seal t : seal_origin t = Some (seal true t).
Proof.
  unfold seal_origin, update_at. simpl.
  destruct (seal true t); reflexivity.
Qed.

(** [set_percent] on the [i]-th daughter of the panel at [q]: the percent
    is stored, the panel at [q] is sealed, and the rest of the tree stays. *)
Lemma set_percent_seals_parent t q i v par d :
  get_at q t = Some par -> nth_error (daughters par) i = Some d ->
  set_percent (q ++ [i]) v t =
  Some (map_outcome (fun x => replace_at q x t)
          (seal true
             (set_daughters
                (replace_nth i (set_percent_field v d) (daughters par)) par))).
Proof.
  intros Hq Hi.
  assert (Hd : get_at (q ++ [i]) t = Some d).
  { rewrite get_at_app, Hq. simpl. rewrite Hi. reflexivity. }
  unfold set_percent, update_at. rewrite Hd. simpl.
  unfold seal_parent. rewrite parent_path_snoc. unfold update_at.
  rewrite (replace_at_app _ _ _ _ _ Hq).
  rewrite (get_at_replace_at _ _ _ _ Hq).
  simpl replace_at. rewrite Hi.
  f_equal.
  destruct (seal true _) as [s|e s]; simpl;
    rewrite (replace_at_twice _ _ _ _ _ Hq); reflexivity.
Qed.

(** [set_padding] on a daughter without daughters of its own: the padding
    is stored and the parent is sealed. *)
Lemma set_padding_leaf_seals_parent t q i v par d :
  get_at q t = Some par -> nth_error (daughters par) i = Some d ->
  daughters d = [] ->
  set_padding (q ++ [i]) v t =
  Some (map_outcome (fun x => replace_at q x t)
          (seal true
             (set_daughters
                (replace_nth i (set_padding_field v d) (daughters par)) par))).
Proof.
  intros Hq Hi Hd0.
  assert (Hd : get_at (q ++ [i]) t = Some d).
  { rewrite get_at_app, Hq. simpl. rewrite Hi. reflexivity. }
  unfold set_padding, update_at. rewrite Hd. simpl.
  rewrite (get_at_replace_at _ _ _ _ Hd). simpl daughters. rewrite Hd0.
  unfold seal_parent. rewrite parent_path_snoc. unfold update_at.
  rewrite (replace_at_app _ _ _ _ _ Hq).
  rewrite (get_at_replace_at _ _ _ _ Hq).
  simpl replace_at. rewrite Hi.
  f_equal.
  destruct (seal true _) as [s|e s]; simpl;
    rewrite (replace_at_twice _ _ _ _ _ Hq); reflexivity.
Qed.

Lemma of_int_exn z e : PyFloat.of_int z = Raise e -> seal_exn e.
Proof.
  unfold PyFloat.of_int, seal_exn.
  destruct (binary_normalize _ _ _ _ _); intros H; try discriminate.
  injection H as <-. tauto.
Qed.

Lemma div_exn x y e : PyFloat.div x y = Raise e -> seal_exn e.
Proof.
  unfold PyFloat.div, seal_exn.
  destruct (PyFloat.is_zero y); intros H; try discriminate.
  injection H as <-. tauto.
Qed.

Lemma int_round_exn x e : PyFloat.int_round x = Raise e -> seal_exn e.
Proof.
  unfold PyFloat.int_round, seal_exn.
  destruct x; intros H; try discriminate; injection H as <-; tauto.
Qed.

Lemma free_extent_exn a b c e : free_extent a b c = Raise e -> seal_exn e.
Proof.
  unfold free_extent, bind_result.
  repeat match goal with
         | |- context [match PyFloat.of_int ?z with _ => _ end] =>
             let E := fresh "E" in
             destruct (PyFloat.of_int z) eqn:E;
             [|intros H; injection H as <-; exact (of_int_exn _ _ E)]
         | |- context [match PyFloat.div ?x ?y with _ => _ end] =>
             let E := fresh "E" in
             destruct (PyFloat.div x y) eqn:E;
             [|intros H; injection H as <-; exact (div_exn _ _ _ E)]
         end.
  apply int_round_exn.
Qed.

Lemma for_each_exn step ds e s :
  (forall d e' s', step d = Raised e' s' -> seal_exn e') ->
  for_each step ds = Raised e s -> seal_exn e.
Proof.
  intros Hs. revert s. induction ds as [|d ds IH]; intros s H; simpl in H;
    [discriminate|].
  destruct (step d) as [d'|e' d'] eqn:Ed.
  - destruct (for_each step ds) as [r|e'' r]; [discriminate|].
    injection H as <- <-. eapply IH. reflexivity.
  - injection H as <- <-. eapply Hs. exact Ed.
Qed.

Lemma seal_raises c p e s : seal c p = Raised e s -> seal_exn e.
Proof.
  unfold seal. destruct (daughters p) as [|d0 r0].
  { intros H. injection H as <- _. left. reflexivity. }
  unfold seal_body.
  destruct (horizontal p).
  - destruct (for_each _ _) as [ds1|e1 ds1] eqn:L.
    + destruct (c && _); discriminate.
    + intros H. injection H as <- _. eapply for_each_exn; [|exact L].
      intros d e' s'. unfold seal_step_h. cbn [percent set_height].
      destruct (percent d <? 0); [|discriminate].
      destruct (free_extent _ _ _) eqn:F; [discriminate|].
      intros H. injection H as <- _. eapply free_extent_exn. exact F.
  - destruct (vertical p).
    + destruct (for_each _ _) as [ds1|e1 ds1] eqn:L.
      * destruct (c && _); discriminate.
      * intros H. injection H as <- _. eapply for_each_exn; [|exact L].
        intros d e' s'. unfold seal_step_v. cbn [percent set_width].
        destruct (percent d <? 0); [|discriminate].
        destruct (free_extent _ _ _) eqn:F; [discriminate|].
        intros H. injection H as <- _. eapply free_extent_exn. exact F.
    + intros H. injection H as <- _. left. reflexivity.
Qed.

(** A panel with a parent never meets the [AttributeError] of the root. *)
Lemma set_percent_below_root (t : Panel) (q : path) (i : nat) (v : Z) (self : Panel) :
  get_at (q ++ [i]) t = Some self ->
  exists o, set_percent (q ++ [i]) v t = Some o
            /\ forall s, o <> Raised AttributeError s.
Proof.
  intros H. rewrite get_at_app in H.
  destruct (get_at q t) as [par|] eqn:Hq; [|discriminate].
  simpl in H. destruct (nth_error (daughters par) i) as [d|] eqn:Hi; [|discriminate].
  rewrite (set_percent_seals_parent t q i v par d Hq Hi).
  eexists. split; [reflexivity|].
  intros s. destruct (seal true _) as [x|e x] eqn:S; simpl; [discriminate|].
  intros E. injection E as -> _.
  apply seal_raises in S. unfold seal_exn in S.
  destruct S as [S|[S|[S|S]]]; discriminate.
Qed.




(** ** subdivide *)

(** C9. [subdivide] raises [PanelError] on a panel that holds content, and
    on a non-empty [names] list whose length is not the number of
    subdivisions; in both cases the tree is left exactly as it was, so no
    daughter has been created. *)
Theorem subdivide_rejects (p : path) (t self : Panel) (n : Z)
    (names : list string) (hz : bool) (w h : Z) :
  get_at p t = Some self ->
  content self <> ""%string
  \/ (names <> [] /\ Z.of_nat (length names) <> n) ->
  subdivide p n names hz w h t = Some (Raised PanelError t).
Proof.
  intros Hp H. unfold subdivide. rewrite Hp.
  destruct (String.eqb (content self) "") eqn:C; [|reflexivity].
  apply String.eqb_eq in C.
  destruct H as [H|[Hn Hl]]; [congruence|].
  apply Z.eqb_neq in Hl. rewrite Hl.
  destruct names as [|n0 ns]; [congruence|]. reflexivity.
Qed.

Lemma subdivide_rejects_witness :
  subdivide [] 2 ["only"]%string true (-1) (-1) screen0
  = Some (Raised PanelError screen0)
  /\ subdivide [] 2 [] true (-1) (-1) (set_content "text" screen0)
     = Some (Raised PanelError (set_content "text" screen0)).
Proof.
  split.
  - apply (subdivide_rejects [] screen0 screen0); [reflexivity|].
    right. split; [discriminate|]. simpl. lia.
  - apply (subdivide_rejects [] _ (set_content "text" screen0)); [reflexivity|].
    left. discriminate.
Defined.

(** ** Percent of the root *)

(** C10. On the root, [set_percent] stores the percent and then fails on
    [self.parent.seal()] with [AttributeError], which is neither
    [PanelError] nor the [ValueError] of a failed lookup; [panel[key] = n]
    on the root with the root's own name does the same. *)
Theorem set_percent_on_root_crashes (t : Panel) (n : Z) :
  set_percent [] n t = Some (Raised AttributeError (set_percent_field n t))
  /\ setitem [] (name t) (VInt n) t
     = Some (Raised AttributeError (set_percent_field n t))
  /\ AttributeError <> PanelError /\ AttributeError <> ValueError.
Proof.
  repeat split; try discriminate.
  assert (G : getitem t (name t) = Some []).
  { destruct t. simpl. rewrite String.eqb_refl. reflexivity. }
  unfold setitem. cbn [get_at]. cbv iota beta. rewrite G. reflexivity.
Qed.

(** * Theorems: the frame and wrap engine *)

(** ** Lines *)

Section Lines.

Lemma split_lines_nonempty s : split_lines s <> [].
Proof.
  destruct s as [|c r]; simpl; [discriminate|].
  destruct (is_nl c); [discriminate|].
  destruct (split_lines r); discriminate.
Qed.

Lemma split_lines_cons_other c r :
  is_nl c = false ->
  exists l ls, split_lines r = l :: ls /\ split_lines (c :: r) = (c :: l) :: ls.
Proof.
  intros H. simpl. rewrite H.
  destruct (split_lines r) as [|l ls] eqn:E.
  - exfalso. exact (split_lines_nonempty r E).
  - eauto.
Qed.

Lemma split_lines_no_nl s : Forall no_nl (split_lines s).
Proof.
  induction s as [|c r IH]; simpl.
  - repeat constructor.
  - destruct (is_nl c) eqn:E.
    + constructor; [constructor|exact IH].
    + destruct (split_lines r) as [|l ls]; [repeat constructor; exact E|].
      inversion IH as [|? ? Hl Hls]. subst.
      constructor; [constructor; assumption|assumption].
Qed.

Lemma split_lines_single l : no_nl l -> split_lines l = [l].
Proof.
  induction 1 as [|c l Hc Hl IH]; simpl; [reflexivity|].
  rewrite Hc, IH. reflexivity.
Qed.

Lemma split_lines_app_nl a b :
  split_lines (a ++ nl :: b) = split_lines a ++ split_lines b.
Proof.
  induction a as [|c a IH]; simpl.
  - reflexivity.
  - destruct (is_nl c); [rewrite IH; reflexivity|].
    rewrite IH.
    destruct (split_lines a) as [|l ls] eqn:E;
      [exfalso; exact (split_lines_nonempty a E)|].
    reflexivity.
Qed.

Lemma split_lines_line_app l b :
  no_nl l -> split_lines (l ++ nl :: b) = l :: split_lines b.
Proof.
  intros H. rewrite split_lines_app_nl, (split_lines_single l H). reflexivity.
Qed.

Lemma join_lines_cons l ls :
  ls <> [] -> join_lines (l :: ls) = l ++ nl :: join_lines ls.
Proof. destruct ls; [congruence|reflexivity]. Qed.

Lemma split_join ls :
  ls <> [] -> Forall no_nl ls -> split_lines (join_lines ls) = ls.
Proof.
  induction ls as [|l ls IH]; [congruence|]. intros _ H.
  inversion H as [|? ? Hl Hls]; subst.
  destruct ls as [|l' ls'].
  - simpl. apply split_lines_single. exact Hl.
  - rewrite join_lines_cons by discriminate.
    rewrite split_lines_line_app by exact Hl.
    rewrite IH; [reflexivity|discriminate|exact Hls].
Qed.

Lemma join_split s : join_lines (split_lines s) = s.
Proof.
  induction s as [|c r IH]; simpl; [reflexivity|].
  destruct (is_nl c) eqn:E.
  - rewrite join_lines_cons by apply split_lines_nonempty.
    rewrite IH. simpl. f_equal.
    unfold is_nl in E. apply Ascii.eqb_eq in E. congruence.
  - destruct (split_lines r) as [|l ls] eqn:S;
      [exfalso; exact (split_lines_nonempty r S)|].
    destruct ls as [|l' ls']; simpl in *; rewrite IH; reflexivity.
Qed.

Lemma split_map_lines f s :
  (forall l, no_nl l -> no_nl (f l)) ->
  split_lines (map_lines f s) = map f (split_lines s).
Proof.
  intros Hf. unfold map_lines. apply split_join.
  - pose proof (split_lines_nonempty s). destruct (split_lines s); [congruence|discriminate].
  - pose proof (split_lines_no_nl s) as H.
    induction H; simpl; constructor; auto.
Qed.

Lemma no_nl_app a b : no_nl a -> no_nl b -> no_nl (a ++ b).
Proof. unfold no_nl. intros. apply Forall_app. split; assumption. Qed.

Lemma no_nl_firstn n l : no_nl l -> no_nl (firstn n l).
Proof.
  unfold no_nl. intros H. revert n.
  induction H; intros [|n]; simpl; constructor; auto.
Qed.

Lemma no_nl_skipn n l : no_nl l -> no_nl (skipn n l).
Proof.
  unfold no_nl. intros H. revert n.
  induction H; intros [|n]; simpl; try constructor; auto.
Qed.

Lemma no_nl_rep c n : is_nl c = false -> no_nl (rep [c] n).
Proof.
  intros H. unfold rep, no_nl. induction (Z.to_nat n) as [|k IH]; simpl; constructor; auto.
Qed.

Lemma length_rep1 c n : length (rep [c] n) = Z.to_nat n.
Proof.
  unfold rep. induction (Z.to_nat n) as [|k IH]; simpl; [reflexivity|].
  rewrite IH. reflexivity.
Qed.

Lemma rep1_repeat c n : rep [c] n = repeat c (Z.to_nat n).
Proof.
  unfold rep. induction (Z.to_nat n) as [|k IH]; simpl; [reflexivity|].
  rewrite IH. reflexivity.
Qed.

(** Newlines before a text are empty lines before its lines. *)
Lemma split_lines_rep_nl_front n s :
  split_lines (rep [nl] n ++ s) = repeat [] (Z.to_nat n) ++ split_lines s.
Proof.
  unfold rep. induction (Z.to_nat n) as [|k IH]; simpl; [reflexivity|].
  change (is_nl nl) with true. cbv iota. rewrite IH. reflexivity.
Qed.

(** Lines, each after a newline, appended to a text. *)
Lemma split_lines_rep_back s x n :
  no_nl x ->
  split_lines (s ++ rep (nl :: x) n) = split_lines s ++ repeat x (Z.to_nat n).
Proof.
  intros Hx. unfold rep. revert s.
  induction (Z.to_nat n) as [|k IH]; intros s; simpl.
  - rewrite !app_nil_r. reflexivity.
  - rewrite split_lines_app_nl.
    change (x ++ concat (repeat (nl :: x) k)) with (x ++ concat (repeat (nl :: x) k)).
    rewrite IH, (split_lines_single x Hx). reflexivity.
Qed.

End Lines.

(** ** constrain returns *)

Section ConstrainReturns.

Lemma length_join_map (f : text -> text) ls :
  (forall l, length (f l) = length l) ->
  length (join_lines (map f ls)) = length (join_lines ls).
Proof.
  intros Hf. induction ls as [|l ls IH]; [reflexivity|].
  destruct ls as [|l' ls'].
  - simpl. apply Hf.
  - change (map f (l :: l' :: ls')) with (f l :: map f (l' :: ls')).
    rewrite !join_lines_cons by discriminate.
    rewrite !length_app. change (length (nl :: ?x)) with (S (length x)).
    rewrite IH, Hf. reflexivity.
Qed.

Lemma length_map_lines f s :
  (forall l, length (f l) = length l) -> length (map_lines f s) = length s.
Proof.
  intros Hf. unfold map_lines. rewrite length_join_map by exact Hf.
  rewrite join_split. reflexivity.
Qed.

Lemma length_protect_line l : length (protect_line l) = length l.
Proof.
  unfold protect_line. destruct (Nat.leb 2 (count_pipes l)); [|reflexivity].
  apply length_map.
Qed.

Lemma wrap_replacement_nonempty g1 g2 : wrap_replacement g1 g2 <> [].
Proof.
  unfold wrap_replacement. destruct (Nat.ltb (length g2) 2).
  - destruct g1; discriminate.
  - destruct g1; simpl; [|discriminate].
    destruct (removelast g2); discriminate.
Qed.

Lemma wrap_sub_nonempty q c r : wrap_sub q (c :: r) 0 false <> [].
Proof.
  simpl. destruct (match_wrap q (c :: r)) as [[g1 g2]|]; [|discriminate].
  pose proof (wrap_replacement_nonempty g1 g2) as N.
  destruct (length g1 + length g2)%nat; destruct (wrap_replacement g1 g2);
    try congruence; discriminate.
Qed.

Lemma dots_upto_ok n : 0 <= n < MAXREPEAT -> dots_upto n = Ok (UpTo n).
Proof.
  intros [H1 H2]. unfold dots_upto.
  destruct (n <? 0) eqn:A; [apply Z.ltb_lt in A; lia|].
  destruct (MAXREPEAT <=? n) eqn:B; [apply Z.leb_le in B; lia|reflexivity].
Qed.

Lemma dots_upto_below n : n < MAXREPEAT -> exists q, dots_upto n = Ok q.
Proof.
  intros H. unfold dots_upto. destruct (n <? 0); [eauto|].
  destruct (MAXREPEAT <=? n) eqn:B; [apply Z.leb_le in B; lia|eauto].
Qed.

(** On a text that is not empty and a width under the bound of [re],
    [constrain] returns. *)
Lemma constrain_returns t width :
  t <> [] -> width < MAXREPEAT -> exists s, constrain t width = Ok s.
Proof.
  intros Ht Hw. unfold constrain.
  destruct (dots_upto_below width Hw) as (q & ->). simpl.
  assert (L : protect t <> []).
  { intros E. apply (f_equal (@length ascii)) in E. unfold protect in E.
    rewrite length_map_lines in E by apply length_protect_line.
    destruct t; [congruence|discriminate]. }
  destruct (protect t) as [|c r]; [congruence|].
  pose proof (wrap_sub_nonempty q c r) as N.
  unfold drop_final_newline, unprotect.
  destruct (wrap_sub q (c :: r) 0 false); [congruence|].
  simpl. eauto.
Qed.

Lemma fill_empty_nonempty t w f p : fill_empty t w f p <> [].
Proof.
  unfold fill_empty. destruct (len t <? 1) eqn:E; [discriminate|].
  apply Z.ltb_ge in E. unfold len in E. destruct t; [simpl in E; lia|discriminate].
Qed.

End ConstrainReturns.

(** ** Empty text *)

Section BlankLine.

Lemma match_upto_spaces k :
  match_upto (Z.of_nat k) (repeat space (S k)) = Some (repeat space k, [space]).
Proof.
  induction k as [|k IH].
  - reflexivity.
  - change (repeat space (S (S k))) with (space :: repeat space (S k)).
    cbn [match_upto].
    replace (0 <? Z.of_nat (S k)) with true by (symmetry; apply Z.ltb_lt; lia).
    change (is_nl space) with false. cbn [andb negb].
    replace (Z.of_nat (S k) - 1) with (Z.of_nat k) by lia.
    rewrite IH. reflexivity.
Qed.

Lemma wrap_sub_skip q r adjacent :
  wrap_sub q r (length r) adjacent = wrap_sub q [] 0 adjacent.
Proof.
  induction r as [|c r IH]; [reflexivity|]. simpl length. cbn [wrap_sub]. exact IH.
Qed.

Lemma unprotect_spaces k : unprotect (repeat space k ++ [nl]) = repeat space k ++ [nl].
Proof.
  unfold unprotect. rewrite map_app. f_equal.
  induction k as [|k IH]; simpl; [reflexivity|]. f_equal. exact IH.
Qed.

Lemma no_nl_spaces k : no_nl (repeat space k).
Proof. unfold no_nl. induction k; simpl; constructor; auto. Qed.

Lemma count_pipes_spaces k : count_pipes (repeat space k) = 0%nat.
Proof. unfold count_pipes. induction k; simpl; auto. Qed.

(** A run of [k + 1] spaces wrapped to [k] columns is the run of [k]. *)
Lemma constrain_spaces k :
  Z.of_nat k < MAXREPEAT ->
  constrain (repeat space (S k)) (Z.of_nat k) = Ok (repeat space k).
Proof.
  intros Hk. unfold constrain.
  rewrite dots_upto_ok by lia. cbn [bind_result].
  assert (P : protect (repeat space (S k)) = repeat space (S k)).
  { unfold protect, map_lines. rewrite (split_lines_single _ (no_nl_spaces (S k))).
    cbn [map join_lines]. unfold protect_line.
    rewrite count_pipes_spaces. reflexivity. }
  rewrite P.
  assert (W : wrap_sub (UpTo (Z.of_nat k)) (repeat space (S k)) 0 false
              = repeat space k ++ [nl]).
  { change (repeat space (S k)) with (space :: repeat space k) at 1.
    cbn [wrap_sub match_wrap].
    change (space :: repeat space k) with (repeat space (S k)).
    rewrite match_upto_spaces.
    rewrite repeat_length. simpl length.
    replace (k + 1)%nat with (S k) by lia.
    unfold wrap_replacement. simpl Nat.ltb. cbv iota.
    pose proof (wrap_sub_skip (UpTo (Z.of_nat k)) (repeat space k) true) as S.
    rewrite repeat_length in S. rewrite S.
    cbn. rewrite app_nil_r. reflexivity. }
  rewrite W, unprotect_spaces.
  unfold drop_final_newline.
  destruct (repeat space k ++ [nl]) as [|c r] eqn:E.
  { destruct (repeat space k); discriminate. }
  rewrite <- E. rewrite last_last, removelast_last. reflexivity.
Qed.

End BlankLine.

(** C8 (amended). With empty text [frame] goes on with a blank line of
    [1 + max 0 interior] spaces, where [interior] is the width less the
    side frames and four times the padding: one space more than the
    interior width.  The wrapping that follows cuts it to the interior
    width when that is not negative. *)
Theorem frame_empty_text_fill (w h pad : Z) (t b l r : bool) :
  0 <= pad ->
  let interior := w - (b2z l + b2z r) - pad * 4 in
  let blank := repeat space (Z.to_nat (1 + Z.max 0 interior)) in
  frame [] w h pad t b l r = frame blank w h pad t b l r
  /\ fill_empty [] w (b2z l + b2z r) pad = blank
  /\ len blank = 1 + Z.max 0 interior
  /\ (0 <= interior < MAXREPEAT ->
      constrain blank interior = Ok (repeat space (Z.to_nat interior))).
Proof.
  intros Hpad interior blank.
  assert (F : fill_empty [] w (b2z l + b2z r) pad = blank).
  { unfold fill_empty, blank, interior.
    change (len [] <? 1) with true. cbv iota.
    rewrite rep1_repeat.
    change ([space] ++ ?x) with (repeat space 1 ++ x).
    rewrite <- repeat_app. f_equal. lia. }
  assert (B : fill_empty blank w (b2z l + b2z r) pad = blank).
  { unfold fill_empty. destruct (len blank <? 1) eqn:E; [|reflexivity].
    apply Z.ltb_lt in E. unfold len, blank in E. rewrite repeat_length in E. lia. }
  split; [|split; [exact F|split]].
  - unfold frame. destruct (pad <? 0) eqn:E; [apply Z.ltb_lt in E; lia|].
    unfold frame_body. cbn [Z.add]. rewrite F, B. reflexivity.
  - unfold len, blank. rewrite repeat_length. lia.
  - intros [H0 H1]. unfold blank.
    replace (Z.to_nat (1 + Z.max 0 interior)) with (S (Z.to_nat interior)) by lia.
    pose proof (constrain_spaces (Z.to_nat interior)) as C.
    rewrite Z2Nat.id in C by lia. apply C. lia.
Qed.

Lemma frame_empty_text_fill_witness :
  frame [] 10 (-1) 0 true true true true
  = frame (repeat space 9) 10 (-1) 0 true true true true
  /\ fill_empty [] 10 2 0 = repeat space 9
  /\ len (repeat space 9) = 9
  /\ (0 <= 8 < MAXREPEAT -> constrain (repeat space 9) 8 = Ok (repeat space 8)).
Proof.
  apply (frame_empty_text_fill 10 (-1) 0 true true true true). lia.
Defined.

(** C8, as the specification states it, fails: for width 10 with both side
    frames and no padding the interior width is 8 and the empty text is
    replaced by 9 spaces. *)
Lemma frame_empty_text_is_one_longer :
  fill_empty [] 10 (b2z true + b2z true) 0 = repeat space 9
  /\ len (fill_empty [] 10 (b2z true + b2z true) 0) = 9
  /\ 10 - (b2z true + b2z true) - 0 * 4 = 8
  /\ len (fill_empty [] 10 (b2z true + b2z true) 0) <> 10 - (b2z true + b2z true) - 0 * 4.
Proof. vm_compute. repeat split; discriminate. Qed.

(** ** Degenerate widths *)

Section Degenerate.

Lemma split_map_lines_const x s :
  no_nl x -> split_lines (map_lines (fun _ => x) s) = map (fun _ => x) (split_lines s).
Proof. intros Hx. apply split_map_lines. intros _ _. exact Hx. Qed.

Lemma Forall_map_const {A B : Type} (x : B) (l : list A) :
  Forall (eq x) (map (fun _ => x) l).
Proof. induction l; simpl; constructor; auto. Qed.

Lemma side_frames_two s :
  side_frames 2 0 2 true true s
  = Ok (map_lines (fun _ => [pipe; pipe]) (map_lines (pad_line (UpTo 0) 2) s)).
Proof. reflexivity. Qed.

Lemma side_frames_one s :
  side_frames 1 0 2 true true s
  = Ok (map_lines (fun _ => [pipe]) (map_lines (pad_line (DotThen (str "{,-1}")) 1) s)).
Proof. reflexivity. Qed.

Lemma side_frames_none s :
  side_frames 0 0 2 true true s
  = Ok (map_lines (fun _ => []) (map_lines (pad_line (DotThen (str "{,-2}")) 0) s)).
Proof. reflexivity. Qed.

Variable t : text.

(** What reaches the side frames when nothing is padded: the wrapped
    text, whatever it is. *)
Lemma frame_plain_sides width fNum :
  width - fNum < MAXREPEAT -> 0 <= width ->
  exists s, constrain (fill_empty t width fNum 0) (width - 4 * 0 - fNum) = Ok s.
Proof.
  intros H _. apply constrain_returns; [apply fill_empty_nonempty|lia].
Qed.

End Degenerate.

(** C4 (amended). The table is keyed on the width left once the side
    frames are taken away, [width - fNum].  With both side frames and no
    top or bottom frame, for every text: width 2 (0 left) gives lines that
    are all [||]; width 1 (-1 left) gives lines that are all [|]; width 0
    (-2 left) gives lines that are all empty.  With the top and bottom
    frames on, the text [x] gives [++], [||], [++] at width 2 and [+],
    [|], [+] at width 1.  A negative width asks for the automatic width:
    at width -1 and at every width below it, [x] gets the 3 wide frame
    around [x], and [|x|] alone without the top and bottom frames. *)
Theorem frame_degenerate_widths (t : text) :
  (exists out, frame t 2 (-1) 0 false false true true = Ok out
               /\ Forall (eq [pipe; pipe]) (split_lines out))
  /\ (exists out, frame t 1 (-1) 0 false false true true = Ok out
                  /\ Forall (eq [pipe]) (split_lines out))
  /\ (exists out, frame t 0 (-1) 0 false false true true = Ok out
                  /\ Forall (eq []) (split_lines out))
  /\ lines_of (frame (str "x") 2 (-1) 0 true true true true)
     = ["++"; "||"; "++"]%string
  /\ lines_of (frame (str "x") 1 (-1) 0 true true true true)
     = ["+"; "|"; "+"]%string
  /\ lines_of (frame (str "x") 0 (-1) 0 true true true true) = [""]%string
  /\ (forall w, w <= -1 ->
      lines_of (frame (str "x") w (-1) 0 true true true true)
      = ["+-+"; "|x|"; "+-+"]%string)
  /\ (forall w, w <= -1 ->
      lines_of (frame (str "x") w (-1) 0 false false true true)
      = ["|x|"]%string).
Proof.
  assert (Auto : forall w top bot, w <= -1 ->
            frame (str "x") w (-1) 0 top bot true true
            = frame (str "x") (-1) (-1) 0 top bot true true).
  { intros w top bot Hw. unfold frame. change (0 <? 0) with false. cbv iota.
    unfold frame_body, fill_empty.
    change (len (str "x") <? 1) with false. cbv iota.
    replace (w <? 0) with true by (symmetry; apply Z.ltb_lt; lia).
    reflexivity. }
  split; [|split; [|split; [|split; [|split; [|split; [|split]]]]]];
    [| | |vm_compute; reflexivity|vm_compute; reflexivity|vm_compute; reflexivity
     |intros w Hw; rewrite (Auto w true true Hw); vm_compute; reflexivity
     |intros w Hw; rewrite (Auto w false false Hw); vm_compute; reflexivity].
  - destruct (frame_plain_sides t 2 2) as (s & Hs);
      [unfold MAXREPEAT; lia|lia|].
    unfold frame. change (0 <? 0) with false. cbv iota.
    unfold frame_body. change (0 + b2z true + b2z true) with 2.
    change (2 <? 0) with false. cbv iota. rewrite Hs.
    unfold bind_result at 1. unfold orb. rewrite side_frames_two.
    unfold bind_result, fix_height. change (-1 <? -1) with false. cbv iota.
    unfold add_bot, add_top.
    eexists. split; [reflexivity|].
    rewrite split_map_lines_const by (repeat constructor).
    apply Forall_map_const.
  - destruct (frame_plain_sides t 1 2) as (s & Hs);
      [unfold MAXREPEAT; lia|lia|].
    unfold frame. change (0 <? 0) with false. cbv iota.
    unfold frame_body. change (0 + b2z true + b2z true) with 2.
    change (1 <? 0) with false. cbv iota. rewrite Hs.
    unfold bind_result at 1. unfold orb. rewrite side_frames_one.
    unfold bind_result, fix_height. change (-1 <? -1) with false. cbv iota.
    unfold add_bot, add_top.
    eexists. split; [reflexivity|].
    rewrite split_map_lines_const by (repeat constructor).
    apply Forall_map_const.
  - destruct (frame_plain_sides t 0 2) as (s & Hs);
      [unfold MAXREPEAT; lia|lia|].
    unfold frame. change (0 <? 0) with false. cbv iota.
    unfold frame_body. change (0 + b2z true + b2z true) with 2.
    change (0 <? 0) with false. cbv iota. rewrite Hs.
    unfold bind_result at 1. unfold orb. rewrite side_frames_none.
    unfold bind_result, fix_height. change (-1 <? -1) with false. cbv iota.
    unfold add_bot, add_top.
    eexists. split; [reflexivity|].
    rewrite split_map_lines_const by constructor.
    apply Forall_map_const.
Qed.

(** C4, as the specification states it, fails on all three rows: at width
    0 the framed [x] has one empty line and no [||]; at width -1 and at
    width -3 the width is taken from the text and the lines are those of
    the 3 wide frame. *)
Lemma frame_width_zero_is_not_two_bars :
  lines_of (frame (str "x") 0 (-1) 0 false false true true) = [""]%string
  /\ lines_of (frame (str "x") 0 (-1) 0 true true true true) = [""]%string
  /\ lines_of (frame (str "x") (-1) (-1) 0 false false true true) = ["|x|"]%string
  /\ lines_of (frame (str "x") (-1) (-1) 0 true true true true)
     = ["+-+"; "|x|"; "+-+"]%string
  /\ lines_of (frame (str "x") (-3) (-1) 0 false false true true) = ["|x|"]%string
  /\ ~ In "||"%string (lines_of (frame (str "x") 0 (-1) 0 false false true true))
  /\ ~ In "|"%string (lines_of (frame (str "x") (-1) (-1) 0 false false true true))
  /\ ~ In ""%string (lines_of (frame (str "x") (-3) (-1) 0 false false true true)).
Proof.
  vm_compute. repeat split; try (intros [H|H]; [discriminate|exact H]).
Qed.

(** ** Exact dimensions *)

Section SplitMax.

Lemma break_line_split s :
  match break_line s with
  | (l, None) => split_lines s = [l]
  | (l, Some rest) => split_lines s = l :: split_lines rest
  end.
Proof.
  induction s as [|c r IH]; simpl; [reflexivity|].
  destruct (is_nl c); [reflexivity|].
  destruct (break_line r) as [l [rest|]]; rewrite IH; reflexivity.
Qed.

(** [split("\n", n)] on a string of more than [n] lines: the first [n]
    lines, then the remainder in one piece. *)
Lemma split_max_lines n s :
  (n < length (split_lines s))%nat ->
  split_max n s
  = firstn n (split_lines s) ++ [join_lines (skipn n (split_lines s))].
Proof.
  revert s. induction n as [|n IH]; intros s H.
  - simpl. rewrite join_split. reflexivity.
  - simpl split_max. pose proof (break_line_split s) as B.
    destruct (break_line s) as [l [rest|]]; rewrite B in *.
    + simpl in H. simpl. rewrite IH by lia. reflexivity.
    + simpl in H. lia.
Qed.

End SplitMax.

Section FrameLines.

Lemma all_width_app w a b : all_width w a -> all_width w b -> all_width w (a ++ b).
Proof. unfold all_width. intros. apply Forall_app. split; assumption. Qed.

Lemma all_width_repeat w x n : len x = w -> no_nl x -> all_width w (repeat x n).
Proof. intros. unfold all_width. induction n; simpl; constructor; auto. Qed.

Lemma all_width_firstn w n ls : all_width w ls -> all_width w (firstn n ls).
Proof.
  unfold all_width. intros H. revert n.
  induction H; intros [|n]; simpl; constructor; auto.
Qed.

Lemma all_width_no_nl w ls : all_width w ls -> Forall no_nl ls.
Proof. unfold all_width. intros H. induction H; constructor; tauto. Qed.

Lemma all_width_len w ls : all_width w ls -> Forall (fun l => len l = w) ls.
Proof. unfold all_width. intros H. induction H; constructor; tauto. Qed.

Lemma no_nl_pad_line n w l : no_nl l -> no_nl (pad_line (UpTo n) w l).
Proof.
  intros H. unfold pad_line.
  apply no_nl_app; [apply no_nl_firstn; exact H|].
  apply no_nl_app; [apply no_nl_rep; reflexivity|apply no_nl_skipn; exact H].
Qed.

Lemma length_pad_line n w l :
  length (pad_line (UpTo n) w l) = (length l + Z.to_nat w)%nat.
Proof.
  unfold pad_line. rewrite !length_app, length_rep1.
  pose proof (firstn_skipn (Z.to_nat n) l) as E.
  apply (f_equal (@length ascii)) in E. rewrite length_app in E. lia.
Qed.

Lemma no_nl_bars lf rf x : no_nl x -> no_nl (left_bar lf ++ x ++ right_bar rf).
Proof.
  intros H. apply no_nl_app; [destruct lf; repeat constructor|].
  apply no_nl_app; [exact H|destruct rf; repeat constructor].
Qed.

Lemma no_nl_cut_line m lf rf l : no_nl l -> no_nl (cut_line m lf rf l).
Proof.
  intros H. unfold cut_line. destruct (Nat.leb _ _); [|exact H].
  apply no_nl_bars. apply no_nl_firstn. exact H.
Qed.

Lemma length_bars lf rf x :
  len (left_bar lf ++ x ++ right_bar rf) = b2z lf + len x + b2z rf.
Proof.
  unfold len. rewrite !length_app.
  destruct lf, rf; cbn [left_bar right_bar length b2z]; lia.
Qed.

(** A line after the two substitutions of the side frames: exactly
    [width] characters. *)
Lemma side_line_width w n lf rf l :
  0 < w - (b2z lf + b2z rf) ->
  no_nl l ->
  let x := cut_line (w - (b2z lf + b2z rf)) lf rf (pad_line (UpTo n) w l) in
  len x = w /\ no_nl x.
Proof.
  intros Hm Hl x. split.
  - unfold x, cut_line. rewrite length_pad_line.
    assert (Hw : 0 <= w) by (destruct lf, rf; cbn [b2z] in *; lia).
    replace (Nat.leb _ _) with true.
    2:{ symmetry. apply Nat.leb_le. destruct lf, rf; cbn [b2z] in *; lia. }
    rewrite length_bars. unfold len. rewrite length_firstn, length_pad_line.
    destruct lf, rf; cbn [b2z] in *; lia.
  - apply no_nl_cut_line, no_nl_pad_line. exact Hl.
Qed.

Lemma side_frames_regular w pad lf rf s :
  0 <= w - 2 * pad - (b2z lf + b2z rf) ->
  0 < w - (b2z lf + b2z rf) ->
  w < MAXREPEAT -> 0 <= pad ->
  side_frames w pad (b2z lf + b2z rf) lf rf s
  = Ok (map_lines (cut_line (w - (b2z lf + b2z rf)) lf rf)
          (map_lines (pad_line (UpTo (w - 2 * pad - (b2z lf + b2z rf))) w) s)).
Proof.
  intros HN HM Hw Hp. unfold side_frames.
  assert (0 <= b2z lf + b2z rf) by (destruct lf, rf; simpl; lia).
  rewrite dots_upto_ok by lia. cbn [bind_result].
  replace (0 <? w - (b2z lf + b2z rf)) with true by (symmetry; apply Z.ltb_lt; lia).
  replace (MAXREPEAT <=? w - (b2z lf + b2z rf)) with false
    by (symmetry; apply Z.leb_gt; lia).
  cbn [bind_result].
  replace (w - (b2z lf + b2z rf) =? 0) with false by (symmetry; apply Z.eqb_neq; lia).
  replace (w - (b2z lf + b2z rf) =? -1) with false by (symmetry; apply Z.eqb_neq; lia).
  replace (w - (b2z lf + b2z rf) <? -1) with false by (symmetry; apply Z.ltb_ge; lia).
  reflexivity.
Qed.

(** The lines that leave the side frames all have the full width. *)
Lemma side_frames_lines w pad lf rf s :
  0 <= w - 2 * pad - (b2z lf + b2z rf) ->
  0 < w - (b2z lf + b2z rf) ->
  w < MAXREPEAT -> 0 <= pad ->
  exists s', side_frames w pad (b2z lf + b2z rf) lf rf s = Ok s'
             /\ length (split_lines s') = length (split_lines s)
             /\ all_width w (split_lines s').
Proof.
  intros HN HM Hw Hp. rewrite side_frames_regular by assumption.
  eexists. split; [reflexivity|].
  rewrite split_map_lines by (intros; apply no_nl_cut_line; assumption).
  rewrite split_map_lines by (intros; apply no_nl_pad_line; assumption).
  split; [rewrite !length_map; reflexivity|].
  rewrite map_map. unfold all_width.
  pose proof (split_lines_no_nl s) as N.
  induction N as [|l ls Hl Hls IH]; simpl; constructor; [|exact IH].
  apply side_line_width; assumption.
Qed.

Lemma border_line_regular w lf rf :
  0 < w - (b2z lf + b2z rf) -> lf || rf = true ->
  exists b, border_line w (b2z lf + b2z rf) lf rf = Some b
            /\ len b = w /\ no_nl b.
Proof.
  intros HM Hs. unfold border_line.
  replace (0 <? w - (b2z lf + b2z rf)) with true by (symmetry; apply Z.ltb_lt; lia).
  eexists. split; [reflexivity|]. split.
  - unfold len. rewrite !length_app, length_rep1.
    destruct lf, rf; cbn [b2z corner length orb] in *; try discriminate; lia.
  - apply no_nl_app; [destruct lf; repeat constructor|].
    apply no_nl_app; [apply no_nl_rep; reflexivity|destruct rf; repeat constructor].
Qed.

Lemma split_lines_add_top top b s :
  no_nl b ->
  split_lines (add_top top (Some b) s)
  = (if top then [b] else []) ++ split_lines s.
Proof.
  intros Hb. unfold add_top. destruct top; [|reflexivity].
  simpl app. apply split_lines_line_app. exact Hb.
Qed.

Lemma split_lines_add_bot bot b s :
  no_nl b ->
  split_lines (add_bot bot (Some b) s)
  = split_lines s ++ (if bot then [b] else []).
Proof.
  intros Hb. unfold add_bot. destruct bot; [|rewrite app_nil_r; reflexivity].
  simpl app. rewrite split_lines_app_nl, (split_lines_single b Hb). reflexivity.
Qed.

End FrameLines.

Section FixHeight.

Lemma length_all_width_firstn {A : Type} n (l : list A) :
  (n <= length l)%nat -> length (firstn n l) = n.
Proof. intros H. rewrite length_firstn. lia. Qed.

(** The block under [if height > -1] on a text whose lines all have the
    full width: [height - botFrame] lines of the full width come out. *)
Lemma fix_height_lines w h pad lf rf top bot s :
  0 <= pad ->
  0 <= w - (b2z lf + b2z rf) ->
  pad = 0 \/ b2z lf + b2z rf = 2 ->
  pad + b2z bot + 1 <= h ->
  all_width w (split_lines s) ->
  (Z.to_nat (1 + b2z top) <= length (split_lines s))%nat ->
  let out := fix_height w h pad (b2z lf + b2z rf) top bot lf rf s in
  Z.of_nat (length (split_lines out)) = h - b2z bot
  /\ all_width w (split_lines out).
Proof.
  intros Hpad HM Hbars Hh Hall Hlen out. unfold out, fix_height. clear out.
  assert (Hbot : 0 <= b2z bot <= 1) by (destruct bot; simpl; lia).
  assert (Htop : 0 <= b2z top <= 1) by (destruct top; simpl; lia).
  replace (-1 <? h) with true by (symmetry; apply Z.ltb_lt; lia).
  set (M := w - (b2z lf + b2z rf)) in *.
  set (blankline := left_bar lf ++ rep [space] M ++ right_bar rf).
  assert (Eblank : (if lf then [nl; pipe] else [nl]) ++ rep [space] M ++ right_bar rf
                   = nl :: blankline).
  { unfold blankline. destruct lf; reflexivity. }
  rewrite Eblank.
  assert (Bw : len blankline = w).
  { unfold blankline. rewrite length_bars. unfold len. rewrite length_rep1.
    unfold M. lia. }
  assert (Bn : no_nl blankline).
  { unfold blankline. apply no_nl_bars. apply no_nl_rep. reflexivity. }
  set (padline := [pipe] ++ rep [space] M ++ [pipe]).
  change ([nl; pipe] ++ rep [space] M ++ [pipe]) with (nl :: padline).
  assert (Pn : no_nl padline).
  { unfold padline. apply (no_nl_bars true true). apply no_nl_rep. reflexivity. }
  assert (Pw : pad <> 0 -> len padline = w).
  { intros Hp. unfold padline. rewrite (length_bars true true).
    unfold len. rewrite length_rep1. unfold M. simpl b2z. lia. }
  set (L1 := split_lines s ++ repeat blankline (Z.to_nat h)).
  assert (A1 : all_width w L1).
  { unfold L1. apply all_width_app; [exact Hall|].
    apply all_width_repeat; assumption. }
  assert (E1 : split_lines (s ++ rep (nl :: blankline) h) = L1).
  { unfold L1. apply split_lines_rep_back. exact Bn. }
  set (n := Z.to_nat (h + b2z top)).
  assert (Hn : (n < length L1)%nat).
  { unfold L1. rewrite length_app, repeat_length. unfold n. lia. }
  rewrite split_max_lines by (rewrite E1; exact Hn).
  rewrite E1.
  set (m := Z.to_nat (h - pad - b2z bot)).
  assert (Ekeep : drop_last (Z.to_nat (1 + pad + b2z bot + b2z top))
                    (firstn n L1 ++ [join_lines (skipn n L1)])
                  = firstn m L1).
  { unfold drop_last. rewrite length_app, length_all_width_firstn by lia.
    simpl length.
    replace (n + 1 - Z.to_nat (1 + pad + b2z bot + b2z top))%nat with m
      by (unfold n, m; lia).
    rewrite firstn_app, length_all_width_firstn by lia.
    replace (m - n)%nat with 0%nat by (unfold n, m; lia).
    simpl firstn. rewrite app_nil_r.
    rewrite firstn_firstn. f_equal. unfold n, m. lia. }
  rewrite Ekeep.
  assert (Km : length (firstn m L1) = m).
  { apply length_all_width_firstn. unfold m. unfold n in Hn. lia. }
  assert (Kne : firstn m L1 <> []).
  { intros E. rewrite E in Km. simpl in Km. unfold m in Km. lia. }
  rewrite split_lines_rep_back by exact Pn.
  rewrite split_join;
    [|exact Kne|apply (all_width_no_nl w); apply all_width_firstn; exact A1].
  split.
  - rewrite length_app, Km, repeat_length. unfold m. lia.
  - apply all_width_app; [apply all_width_firstn; exact A1|].
    destruct (Z.eq_dec pad 0) as [->|Hp]; [constructor|].
    apply all_width_repeat; [apply Pw; exact Hp|exact Pn].
Qed.

End FixHeight.

Section FrameCount.

Lemma widest_nonneg s : 0 <= widest s.
Proof.
  unfold widest. generalize (map len (split_lines s)). intros l.
  induction l; simpl; lia.
Qed.

Lemma fill_empty_again t w f p w' f' p' :
  fill_empty (fill_empty t w f p) w' f' p' = fill_empty t w f p.
Proof.
  unfold fill_empty at 1.
  destruct (len (fill_empty t w f p) <? 1) eqn:E; [|reflexivity].
  apply Z.ltb_lt in E. pose proof (fill_empty_nonempty t w f p) as N.
  unfold len in E. destruct (fill_empty t w f p); [congruence|simpl in E; lia].
Qed.

(** With a negative width [frame] goes on as with the automatic width. *)
Lemma frame_body_auto t w h pad top bot lf rf :
  0 <= pad -> w < 0 ->
  frame_body t w h pad top bot lf rf
  = frame_body (fill_empty t w (b2z lf + b2z rf) pad)
      (frame_width t w pad (b2z lf + b2z rf)) h pad top bot lf rf.
Proof.
  intros Hpad Hw. unfold frame_body, frame_width.
  change (0 + b2z lf + b2z rf) with (b2z lf + b2z rf).
  set (fNum := b2z lf + b2z rf).
  assert (Hf : 0 <= fNum) by (unfold fNum; destruct lf, rf; simpl; lia).
  replace (w <? 0) with true by (symmetry; apply Z.ltb_lt; lia).
  rewrite fill_empty_again.
  set (t1 := fill_empty t w fNum pad).
  pose proof (widest_nonneg t1) as Hwd.
  replace (widest t1 + 4 * pad + fNum <? 0) with false
    by (symmetry; apply Z.ltb_ge; lia).
  reflexivity.
Qed.

Lemma side_frames_returns w pad fNum lf rf s :
  w - fNum < MAXREPEAT -> 0 <= pad ->
  exists s', side_frames w pad fNum lf rf s = Ok s'.
Proof.
  intros Hw Hpad. unfold side_frames.
  destruct (dots_upto_below (w - 2 * pad - fNum)) as (q & ->); [lia|].
  cbn [bind_result].
  replace (MAXREPEAT <=? w - fNum) with false by (symmetry; apply Z.leb_gt; lia).
  destruct (0 <? w - fNum); cbn [bind_result]; eauto.
Qed.

Lemma no_nl_corner side : no_nl (corner side).
Proof. destruct side; repeat constructor. Qed.

(** A frame line is drawn unless the side frames leave less than -1. *)
Lemma border_line_drawn w fNum lf rf :
  -1 <= w - fNum ->
  exists b, border_line w fNum lf rf = Some b /\ no_nl b.
Proof.
  intros H. unfold border_line.
  destruct (0 <? w - fNum) eqn:E0.
  { eexists. split; [reflexivity|].
    apply no_nl_app; [apply no_nl_corner|].
    apply no_nl_app; [apply no_nl_rep; reflexivity|apply no_nl_corner]. }
  destruct (w - fNum =? 0) eqn:E1.
  { eexists. split; [reflexivity|]. apply no_nl_app; apply no_nl_corner. }
  destruct (w - fNum =? -1) eqn:E2.
  { eexists. split; [reflexivity|]. apply no_nl_corner. }
  apply Z.ltb_ge in E0. apply Z.eqb_neq in E1. apply Z.eqb_neq in E2. lia.
Qed.

Lemma Forall_firstn_keeps {A : Type} (P : A -> Prop) k (l : list A) :
  Forall P l -> Forall P (firstn k l).
Proof.
  intros H. revert k. induction H as [|x l Hx _ IH]; intros [|k]; simpl;
    constructor; auto.
Qed.

(** The block under [if height > -1], whatever the lines are: of the
    text and the [height] blank lines after it, [height - padding -
    botFrame] lines are kept, one empty line when that is none, and
    [padding] lines follow. *)
Lemma fix_height_count w h pad fNum lf rf top bot s :
  0 <= pad -> 0 <= h ->
  (Z.to_nat (1 + b2z top) <= length (split_lines s))%nat ->
  Z.of_nat (length (split_lines (fix_height w h pad fNum top bot lf rf s)))
  = Z.max 1 (h - pad - b2z bot) + pad.
Proof.
  intros Hpad Hh Hlen. unfold fix_height.
  assert (Hbot : 0 <= b2z bot <= 1) by (destruct bot; simpl; lia).
  assert (Htop : 0 <= b2z top <= 1) by (destruct top; simpl; lia).
  replace (-1 <? h) with true by (symmetry; apply Z.ltb_lt; lia).
  set (M := w - fNum).
  set (blankline := left_bar lf ++ rep [space] M ++ right_bar rf).
  assert (Eblank : (if lf then [nl; pipe] else [nl]) ++ rep [space] M ++ right_bar rf
                   = nl :: blankline).
  { unfold blankline. destruct lf; reflexivity. }
  rewrite Eblank.
  assert (Bn : no_nl blankline).
  { unfold blankline. apply no_nl_bars. apply no_nl_rep. reflexivity. }
  set (padline := [pipe] ++ rep [space] M ++ [pipe]).
  change ([nl; pipe] ++ rep [space] M ++ [pipe]) with (nl :: padline).
  assert (Pn : no_nl padline).
  { unfold padline. apply (no_nl_bars true true). apply no_nl_rep. reflexivity. }
  set (L1 := split_lines s ++ repeat blankline (Z.to_nat h)).
  assert (N1 : Forall no_nl L1).
  { unfold L1. apply Forall_app. split; [apply split_lines_no_nl|].
    apply Forall_forall. intros x Hx. apply repeat_spec in Hx. subst x. exact Bn. }
  assert (E1 : split_lines (s ++ rep (nl :: blankline) h) = L1).
  { unfold L1. apply split_lines_rep_back. exact Bn. }
  set (n := Z.to_nat (h + b2z top)).
  assert (Hn : (n < length L1)%nat).
  { unfold L1. rewrite length_app, repeat_length. unfold n. lia. }
  rewrite split_max_lines by (rewrite E1; exact Hn).
  rewrite E1.
  set (m := Z.to_nat (h - pad - b2z bot)).
  assert (Ekeep : drop_last (Z.to_nat (1 + pad + b2z bot + b2z top))
                    (firstn n L1 ++ [join_lines (skipn n L1)])
                  = firstn m L1).
  { unfold drop_last. rewrite length_app, length_all_width_firstn by lia.
    simpl length.
    replace (n + 1 - Z.to_nat (1 + pad + b2z bot + b2z top))%nat with m
      by (unfold n, m; lia).
    rewrite firstn_app, length_all_width_firstn by lia.
    replace (m - n)%nat with 0%nat by (unfold n, m; lia).
    simpl firstn. rewrite app_nil_r.
    rewrite firstn_firstn. f_equal. unfold n, m. lia. }
  rewrite Ekeep.
  rewrite split_lines_rep_back by exact Pn.
  rewrite length_app, repeat_length.
  destruct (Nat.eq_dec m 0) as [Em|Em].
  - rewrite Em. simpl. unfold m in Em. lia.
  - assert (Km : length (firstn m L1) = m).
    { apply length_all_width_firstn. unfold m. unfold n in Hn. lia. }
    rewrite split_join.
    + rewrite Km. unfold m in *. lia.
    + intros E. rewrite E in Km. simpl in Km. lia.
    + apply Forall_firstn_keeps. exact N1.
Qed.

(** The number of lines for a width that was asked for. *)
Lemma frame_body_count t w h pad top bot lf rf :
  0 <= pad -> 0 <= w < MAXREPEAT -> 0 <= h ->
  (w = 0 -> b2z lf + b2z rf < 2) ->
  exists out,
    frame_body t w h pad top bot lf rf = Ok out
    /\ Z.of_nat (length (split_lines out)) = Z.max h (pad + b2z bot + 1).
Proof.
  intros Hpad [W0 W1] Hh Hb.
  assert (Hf : 0 <= b2z lf + b2z rf <= 2) by (destruct lf, rf; simpl; lia).
  assert (Hbot : 0 <= b2z bot <= 1) by (destruct bot; simpl; lia).
  unfold frame_body. change (0 + b2z lf + b2z rf) with (b2z lf + b2z rf).
  set (fNum := b2z lf + b2z rf) in *.
  replace (w <? 0) with false by (symmetry; apply Z.ltb_ge; lia).
  destruct (constrain_returns (fill_empty t w fNum pad) (w - 4 * pad - fNum))
    as (t2 & ->); [apply fill_empty_nonempty|lia|].
  cbn [bind_result].
  set (t4 := rep [nl] pad ++ _ ++ rep [nl] pad).
  assert (S5 : exists t5,
             (if lf || rf then side_frames w pad fNum lf rf t4 else Ok t4) = Ok t5).
  { destruct (lf || rf); [|eauto]. apply side_frames_returns; lia. }
  destruct S5 as (t5 & ->). cbn [bind_result].
  destruct (border_line_drawn w fNum lf rf) as (b & -> & Bn); [lia|].
  set (t6 := add_top top (Some b) t5).
  assert (N6 : (Z.to_nat (1 + b2z top) <= length (split_lines t6))%nat).
  { unfold t6. rewrite split_lines_add_top by exact Bn. rewrite length_app.
    pose proof (split_lines_nonempty t5) as N.
    destruct (split_lines t5); [congruence|]. destruct top; simpl; lia. }
  pose proof (fix_height_count w h pad fNum lf rf top bot t6 Hpad Hh N6) as C.
  eexists. split; [reflexivity|].
  rewrite split_lines_add_bot by exact Bn.
  rewrite length_app, Nat2Z.inj_add, C. destruct bot; simpl; lia.
Qed.

(** The width of the lines, where the side frames are drawn in full. *)
Lemma frame_body_widths t w h pad top bot lf rf :
  0 <= pad ->
  lf || rf = true ->
  0 <= w - 2 * pad - (b2z lf + b2z rf) ->
  0 < w - (b2z lf + b2z rf) ->
  w < MAXREPEAT ->
  pad = 0 \/ b2z lf + b2z rf = 2 ->
  pad + b2z bot + 1 <= h ->
  exists out,
    frame_body t w h pad top bot lf rf = Ok out
    /\ Forall (fun l => len l = w) (split_lines out).
Proof.
  intros Hpad Hside HN HM Hw Hbars Hh.
  assert (Hf : 0 <= b2z lf + b2z rf <= 2) by (destruct lf, rf; simpl; lia).
  unfold frame_body. change (0 + b2z lf + b2z rf) with (b2z lf + b2z rf).
  replace (w <? 0) with false by (symmetry; apply Z.ltb_ge; lia).
  destruct (constrain_returns (fill_empty t w (b2z lf + b2z rf) pad)
              (w - 4 * pad - (b2z lf + b2z rf)))
    as (t2 & ->); [apply fill_empty_nonempty|lia|].
  cbn [bind_result]. rewrite Hside.
  set (t4 := rep [nl] pad ++ _ ++ rep [nl] pad).
  destruct (side_frames_lines w pad lf rf t4 HN HM Hw Hpad) as (t5 & -> & L5 & A5).
  cbn [bind_result].
  destruct (border_line_regular w lf rf HM Hside) as (b & -> & Bw & Bn).
  set (t6 := add_top top (Some b) t5).
  assert (E6 : split_lines t6 = (if top then [b] else []) ++ split_lines t5).
  { apply split_lines_add_top. exact Bn. }
  assert (A6 : all_width w (split_lines t6)).
  { rewrite E6. apply all_width_app; [|exact A5].
    destruct top; repeat constructor; assumption. }
  assert (N6 : (Z.to_nat (1 + b2z top) <= length (split_lines t6))%nat).
  { rewrite E6, length_app.
    pose proof (split_lines_nonempty t5) as N.
    destruct (split_lines t5); [congruence|]. destruct top; simpl; lia. }
  destruct (fix_height_lines w h pad lf rf top bot t6 Hpad
              (Z.lt_le_incl _ _ HM) Hbars Hh A6 N6)
    as (Hcount & A7).
  eexists. split; [reflexivity|].
  rewrite split_lines_add_bot by exact Bn.
  apply all_width_len. apply all_width_app; [exact A7|].
  destruct bot; repeat constructor; assumption.
Qed.

(** The width 2 with both side frames: every line is [||], [++] or the
    two bars of a blank line. *)
Lemma frame_body_two_wide t h pad top bot :
  0 <= pad ->
  pad + b2z bot + 1 <= h ->
  exists out,
    frame_body t 2 h pad top bot true true = Ok out
    /\ Forall (fun l => len l = 2) (split_lines out).
Proof.
  intros Hpad Hh. unfold frame_body.
  change (0 + b2z true + b2z true) with 2.
  change (2 <? 0) with false. cbv iota.
  destruct (constrain_returns (fill_empty t 2 2 pad) (2 - 4 * pad - 2))
    as (t2 & ->); [apply fill_empty_nonempty|unfold MAXREPEAT; lia|].
  cbn [bind_result orb].
  set (t4 := rep [nl] pad ++ _ ++ rep [nl] pad).
  unfold side_frames.
  destruct (dots_upto_below (2 - 2 * pad - 2)) as (q & ->);
    [unfold MAXREPEAT; lia|].
  cbn [bind_result].
  change (2 - 2) with 0.
  change (0 <? 0) with false. change (0 =? 0) with true.
  change (0 =? -1) with false. change (0 <? -1) with false.
  cbv iota. cbn [bind_result].
  change (border_line 2 2 true true) with (Some [plus; plus]).
  set (t5 := map_lines (fun _ => [pipe; pipe]) _).
  assert (A5 : all_width 2 (split_lines t5)).
  { unfold t5. rewrite split_map_lines_const by (repeat constructor).
    generalize (split_lines (map_lines (pad_line q 2) t4)). intros ls.
    induction ls; simpl; constructor; auto.
    split; [reflexivity|repeat constructor]. }
  assert (Bn : no_nl [plus; plus]) by (repeat constructor).
  set (t6 := add_top top (Some [plus; plus]) t5).
  assert (E6 : split_lines t6 = (if top then [[plus; plus]] else []) ++ split_lines t5).
  { apply split_lines_add_top. exact Bn. }
  assert (A6 : all_width 2 (split_lines t6)).
  { rewrite E6. apply all_width_app; [|exact A5].
    destruct top; repeat constructor. }
  assert (N6 : (Z.to_nat (1 + b2z top) <= length (split_lines t6))%nat).
  { rewrite E6, length_app.
    pose proof (split_lines_nonempty t5) as N.
    destruct (split_lines t5); [congruence|]. destruct top; simpl; lia. }
  destruct (fix_height_lines 2 h pad true true top bot t6 Hpad)
    as (Hcount & A7); try assumption.
  { simpl. lia. }
  { right. reflexivity. }
  eexists. split; [reflexivity|].
  rewrite split_lines_add_bot by exact Bn.
  apply all_width_len. apply all_width_app; [exact A7|].
  destruct bot; repeat constructor.
Qed.

(** Both, for the width that [frame] works with. *)
Lemma frame_body_dimensions t w h pad top bot lf rf :
  0 <= pad ->
  frame_width t w pad (b2z lf + b2z rf) < MAXREPEAT ->
  (frame_width t w pad (b2z lf + b2z rf) = 0 -> b2z lf + b2z rf < 2) ->
  0 <= h ->
  exists out,
    frame_body t w h pad top bot lf rf = Ok out
    /\ Z.of_nat (length (split_lines out)) = Z.max h (pad + b2z bot + 1)
    /\ ((frame_width t w pad (b2z lf + b2z rf) = 2 /\ b2z lf + b2z rf = 2)
        \/ (0 < b2z lf + b2z rf
            /\ 0 <= frame_width t w pad (b2z lf + b2z rf) - 2 * pad - (b2z lf + b2z rf)
            /\ 0 < frame_width t w pad (b2z lf + b2z rf) - (b2z lf + b2z rf)
            /\ (pad = 0 \/ b2z lf + b2z rf = 2)) ->
        pad + b2z bot + 1 <= h ->
        Forall (fun l => len l = frame_width t w pad (b2z lf + b2z rf))
               (split_lines out)).
Proof.
  intros Hpad HW Hb Hh.
  assert (Hf : 0 <= b2z lf + b2z rf <= 2) by (destruct lf, rf; simpl; lia).
  assert (G : forall t' W,
             0 <= W < MAXREPEAT -> (W = 0 -> b2z lf + b2z rf < 2) ->
             exists out,
               frame_body t' W h pad top bot lf rf = Ok out
               /\ Z.of_nat (length (split_lines out)) = Z.max h (pad + b2z bot + 1)
               /\ ((W = 2 /\ b2z lf + b2z rf = 2)
                   \/ (0 < b2z lf + b2z rf
                       /\ 0 <= W - 2 * pad - (b2z lf + b2z rf)
                       /\ 0 < W - (b2z lf + b2z rf)
                       /\ (pad = 0 \/ b2z lf + b2z rf = 2)) ->
                   pad + b2z bot + 1 <= h ->
                   Forall (fun l => len l = W) (split_lines out))).
  { intros t' W HW' Hb'.
    destruct (frame_body_count t' W h pad top bot lf rf Hpad HW' Hh Hb')
      as (out & E & C).
    exists out. split; [exact E|split; [exact C|]].
    intros [[-> Hboth]|(Hs & HN & HM & Hbars)] Hhh.
    - assert (lf = true /\ rf = true) as [-> ->]
        by (destruct lf, rf; simpl in Hboth; try lia; split; reflexivity).
      destruct (frame_body_two_wide t' h pad top bot Hpad Hhh) as (out' & E' & A).
      rewrite E in E'. injection E' as <-. exact A.
    - assert (Hside : lf || rf = true)
        by (destruct lf, rf; simpl in *; try reflexivity; lia).
      destruct (frame_body_widths t' W h pad top bot lf rf Hpad Hside HN HM
                  (proj2 HW') Hbars Hhh) as (out' & E' & A).
      rewrite E in E'. injection E' as <-. exact A. }
  destruct (Z_lt_le_dec w 0) as [Hw|Hw].
  - rewrite (frame_body_auto t w h pad top bot lf rf Hpad Hw).
    apply G; [|exact Hb]. split; [|exact HW].
    unfold frame_width. replace (w <? 0) with true by (symmetry; apply Z.ltb_lt; lia).
    pose proof (widest_nonneg (fill_empty t w (b2z lf + b2z rf) pad)). lia.
  - assert (E : frame_width t w pad (b2z lf + b2z rf) = w).
    { unfold frame_width.
      replace (w <? 0) with false by (symmetry; apply Z.ltb_ge; lia). reflexivity. }
    rewrite E in *. apply G; [lia|exact Hb].
Qed.

End FrameCount.

(** C2 (amended). [height] is the height of the whole block, top and
    bottom frame lines included.  Take [frame] with a height [h >= 0],
    the width it works with under the bound of [re] (the width asked for,
    or the automatic one for a negative width), height and padding under
    2^30 (with a width under 2^32 every repetition count and every
    repeated string then stays under 2^63, the bound of Python on a
    count), and not the width 0 with both side frames (where no frame line
    is drawn).  A negative padding stands for no padding and no frame.
    Then [frame] returns a block of [max h (padding + botFrame + 1)]
    lines: exactly [h] lines from [h = padding + botFrame + 1] on.  Where
    moreover [h >= padding + botFrame + 1] and either the width is 2 with
    both side frames, or a side frame is on, the width leaves room
    ([width - 2 padding - fNum >= 0], [width - fNum > 0]) and there is no
    padding or both side frames are on, every line has exactly [width]
    characters. *)
Theorem frame_exact_dimensions (t : text) (w h pad : Z) (top bot lf rf : bool) :
  let on := 0 <=? pad in
  let p := Z.max 0 pad in
  let fNum := b2z (on && lf) + b2z (on && rf) in
  let W := frame_width t w p fNum in
  W < MAXREPEAT ->
  (W = 0 -> fNum < 2) ->
  0 <= h < 2 ^ 30 ->
  pad < 2 ^ 30 ->
  exists out,
    frame t w h pad top bot lf rf = Ok out
    /\ Z.of_nat (length (split_lines out)) = Z.max h (p + b2z (on && bot) + 1)
    /\ ((W = 2 /\ fNum = 2)
        \/ (0 < fNum /\ 0 <= W - 2 * p - fNum /\ 0 < W - fNum
            /\ (p = 0 \/ fNum = 2)) ->
        p + b2z (on && bot) + 1 <= h ->
        Forall (fun l => len l = W) (split_lines out)).
Proof.
  intros on p fNum W HW Hb [Hh _] _.
  unfold frame. destruct (pad <? 0) eqn:P.
  - apply Z.ltb_lt in P.
    assert (Eon : on = false) by (apply Z.leb_gt; exact P).
    assert (Ep : p = 0) by (unfold p; lia).
    unfold W, fNum in *. clearbody on p. subst on p. cbn [andb] in *.
    apply (frame_body_dimensions t w h 0 false false false false); try assumption. lia.
  - apply Z.ltb_ge in P.
    assert (Eon : on = true) by (apply Z.leb_le; exact P).
    assert (Ep : p = pad) by (unfold p; lia).
    unfold W, fNum in *. clearbody on p. subst on p. cbn [andb] in *.
    apply (frame_body_dimensions t w h pad top bot lf rf); assumption.
Qed.

Lemma frame_exact_dimensions_witness :
  exists out,
    frame (str "hi") 6 5 1 true true true true = Ok out
    /\ Z.of_nat (length (split_lines out)) = 5
    /\ Forall (fun l => len l = 6) (split_lines out).
Proof.
  destruct (frame_exact_dimensions (str "hi") 6 5 1 true true true true)
    as (out & E & C & A).
  - reflexivity.
  - intros H. discriminate H.
  - change (2 ^ 30) with 1073741824. lia.
  - reflexivity.
  - exists out. split; [exact E|split; [exact C|]].
    apply A; [|discriminate].
    right. repeat split; try discriminate. right. reflexivity.
Defined.

(** C2, as the specification states it, fails: [frame("hi", 6, 3)] with
    the four frames on has 3 lines, the two frame lines among them, and
    not 3 + 1 + 1.  At height 0 the block still has two lines.  Without
    side frames the text lines are not padded to the width, and with one
    side frame and padding the padding line above the bottom frame is one
    character too long. *)
Lemma frame_height_counts_frame_lines :
  lines_of (frame (str "hi") 6 3 0 true true true true)
  = ["+----+"; "|hi  |"; "+----+"]%string
  /\ Z.of_nat (length (lines_of (frame (str "hi") 6 3 0 true true true true)))
     <> 3 + b2z true + b2z true
  /\ lines_of (frame (str "hi") 6 0 0 true true true true)
     = [""; "+----+"]%string
  /\ lines_of (frame (str "hi") 6 3 0 true true false false)
     = ["------"; "hi"; "------"]%string
  /\ lines_of (frame (str "hi") 8 5 1 true true true false)
     = ["+-------"; "|       "; "|  hi   "; "|       |"; "+-------"]%string.
Proof. vm_compute. repeat split. discriminate. Qed.

(** ** Wrapped lines fit *)

Section WrapFits.

Lemma is_nl_is_space c : is_nl c = true -> is_space c = true.
Proof.
  unfold is_nl. intros H. apply Ascii.eqb_eq in H. subst c. reflexivity.
Qed.

(** What the second group matches is a prefix of the text. *)
Lemma match_group2_prefix r g2 :
  match_group2 r = Some g2 -> exists rest, r = g2 ++ rest.
Proof.
  unfold match_group2. destruct r as [|c r1].
  { intros H. injection H as <-. exists []. reflexivity. }
  destruct (is_space c).
  { intros H. injection H as <-. exists r1. reflexivity. }
  destruct (is_word c); [|discriminate].
  destruct r1 as [|d1 [|d2 r2]]; try discriminate.
  destruct (Ascii.eqb d1 dash); [|discriminate].
  destruct (Ascii.eqb d2 dash).
  - destruct r2 as [|w r3]; [discriminate|].
    destruct (is_word w); [|discriminate].
    intros H. injection H as <-. exists r3. reflexivity.
  - destruct (is_word d2); [|discriminate].
    intros H. injection H as <-. exists r2. reflexivity.
Qed.

(** Where no hyphen alternative applies, the second group is one white
    space character, or nothing at the end of the text. *)
Lemma match_group2_shape r g2 :
  match_group2 r = Some g2 -> hyphen_at r = false ->
  (r = [] /\ g2 = [])
  \/ (exists c rest, r = c :: rest /\ g2 = [c] /\ is_space c = true).
Proof.
  unfold match_group2, hyphen_at. destruct r as [|c r1].
  { intros H _. injection H as <-. left. split; reflexivity. }
  destruct (is_space c) eqn:S.
  { intros H _. injection H as <-. right. exists c, r1. repeat split. exact S. }
  destruct (is_word c); [|discriminate].
  destruct r1 as [|d1 [|d2 r2]]; try discriminate.
  destruct (Ascii.eqb d1 dash); [|discriminate].
  destruct (Ascii.eqb d2 dash).
  - destruct r2 as [|w r3]; [discriminate|].
    destruct (is_word w); discriminate.
  - destruct (is_word d2); discriminate.
Qed.

Lemma group2_only_inv r g1 g2 :
  group2_only r = Some (g1, g2) -> g1 = [] /\ match_group2 r = Some g2.
Proof.
  unfold group2_only. destruct (match_group2 r); [|discriminate].
  intros H. injection H as <- <-. split; reflexivity.
Qed.

(** A match of the pattern of [constrain]: the two groups lie at the head
    of the text, the first has no newline and at most [W] characters. *)
Lemma match_upto_sound r :
  forall W g1 g2,
    match_upto W r = Some (g1, g2) ->
    exists rest, r = g1 ++ g2 ++ rest
                 /\ no_nl g1
                 /\ Z.of_nat (length g1) <= Z.max 0 W
                 /\ match_group2 (g2 ++ rest) = Some g2.
Proof.
  induction r as [|c r' IH]; intros W g1 g2 H.
  - simpl in H. injection H as <- <-. exists []. repeat split; [constructor|simpl; lia].
  - cbn [match_upto] in H.
    assert (G : group2_only (c :: r') = Some (g1, g2) ->
                exists rest, c :: r' = g1 ++ g2 ++ rest /\ no_nl g1
                             /\ Z.of_nat (length g1) <= Z.max 0 W
                             /\ match_group2 (g2 ++ rest) = Some g2).
    { intros E. apply group2_only_inv in E as [-> E].
      destruct (match_group2_prefix _ _ E) as (rest & R).
      exists rest.
      split; [exact R|split; [constructor|split; [simpl; lia|rewrite <- R; exact E]]]. }
    destruct ((0 <? W) && negb (is_nl c)) eqn:C; [|exact (G H)].
    apply andb_true_iff in C as [C1 C2]. apply Z.ltb_lt in C1.
    apply negb_true_iff in C2.
    destruct (match_upto (W - 1) r') as [[g1' g2']|] eqn:M; [|exact (G H)].
    injection H as <- <-.
    destruct (IH _ _ _ M) as (rest & R & N & L & T).
    exists rest. repeat split.
    + simpl. rewrite <- R. reflexivity.
    + constructor; assumption.
    + simpl length. lia.
    + exact T.
Qed.

Lemma run_cons_other c r : is_space c = false -> run (c :: r) = S (run r).
Proof. intros H. simpl. rewrite H. reflexivity. Qed.

(** Where white space or the end comes within [W] characters, the pattern
    matches on the spot. *)
Lemma match_upto_complete r :
  forall W, Z.of_nat (run r) <= W -> exists g1 g2, match_upto W r = Some (g1, g2).
Proof.
  induction r as [|c r' IH]; intros W H.
  - exists [], []. reflexivity.
  - cbn [match_upto].
    assert (G : is_space c = true -> exists g1 g2, group2_only (c :: r') = Some (g1, g2)).
    { intros S. unfold group2_only, match_group2. rewrite S. eauto. }
    destruct ((0 <? W) && negb (is_nl c)) eqn:C.
    + destruct (match_upto (W - 1) r') as [[g1 g2]|] eqn:M; [eauto|].
      destruct (is_space c) eqn:S; [exact (G eq_refl)|].
      rewrite (run_cons_other _ _ S) in H.
      destruct (IH (W - 1)) as (g1 & g2 & E); [lia|]. congruence.
    + apply G. apply andb_false_iff in C as [C|C].
      * apply Z.ltb_ge in C. destruct (is_space c) eqn:S; [reflexivity|].
        rewrite (run_cons_other _ _ S) in H. lia.
      * apply negb_false_iff in C. apply is_nl_is_space. exact C.
Qed.

Lemma run_le_longest r : (run r <= longest_run r)%nat.
Proof. destruct r; simpl; lia. Qed.

Lemma longest_run_skipn k r : (longest_run (skipn k r) <= longest_run r)%nat.
Proof.
  revert r. induction k as [|k IH]; intros [|c r]; simpl skipn; try lia.
  specialize (IH r). cbn [longest_run]. lia.
Qed.

Lemma has_hyphen_break_skipn k r :
  has_hyphen_break r = false -> has_hyphen_break (skipn k r) = false.
Proof.
  revert r. induction k as [|k IH]; intros [|c r] H; simpl skipn; auto.
  cbn [has_hyphen_break] in H. apply orb_false_iff in H as [_ H]. auto.
Qed.

Lemma has_hyphen_break_head r : has_hyphen_break r = false -> hyphen_at r = false.
Proof.
  destruct r as [|c r]; [reflexivity|]. cbn [has_hyphen_break].
  intros H. apply orb_false_iff in H as [H _]. exact H.
Qed.

Lemma wrap_sub_skipn q k :
  forall r adj, (k <= length r)%nat ->
                wrap_sub q r k adj = wrap_sub q (skipn k r) 0 adj.
Proof.
  induction k as [|k IH]; intros r adj H.
  - reflexivity.
  - destruct r as [|c r']; [simpl in H; lia|].
    simpl in H. cbn [wrap_sub skipn]. apply IH. lia.
Qed.

Lemma wrap_sub_unfold q r adj :
  wrap_sub q r 0 adj =
  match match_wrap q r with
  | None =>
      match r with
      | [] => []
      | c :: r' => c :: wrap_sub q r' 0 false
      end
  | Some (g1, g2) =>
      match (length g1 + length g2)%nat with
      | O =>
          (if adj then [] else wrap_replacement g1 g2)
          ++ match r with
             | [] => []
             | c :: r' => c :: wrap_sub q r' 0 false
             end
      | S k =>
          wrap_replacement g1 g2
          ++ match r with
             | [] => []
             | _ :: r' => wrap_sub q r' k true
             end
      end
  end.
Proof. destruct r; reflexivity. Qed.

Variable W : Z.
Hypothesis W_nonneg : 0 <= W.

(** The substitution on a text of short words without hyphen breaks:
    every match starts where the last one ended, and the result is a
    sequence of lines of at most [W] characters, each ended by a
    newline. *)
Lemma wrap_sub_lines n :
  forall r adj,
    (length r <= n)%nat ->
    Z.of_nat (longest_run r) <= W ->
    has_hyphen_break r = false ->
    exists ls, wrap_sub (UpTo W) r 0 adj = ended ls /\ Forall (line_ok W) ls.
Proof.
  induction n as [|n IH]; intros r adj Hlen Hrun Hhy.
  - destruct r; [|simpl in Hlen; lia].
    destruct adj; [exists []|exists [[]]]; split; try reflexivity;
      repeat constructor. simpl. lia.
  - rewrite wrap_sub_unfold. cbn [match_wrap].
    destruct (match_upto_complete r W) as (g1 & g2 & M).
    { pose proof (run_le_longest r). lia. }
    rewrite M.
    destruct (match_upto_sound _ _ _ _ M) as (rest & R & N1 & L1 & T).
    rewrite Z.max_r in L1 by exact W_nonneg.
    assert (Hh : hyphen_at (g2 ++ rest) = false).
    { replace (g2 ++ rest) with (skipn (length g1) r).
      - apply has_hyphen_break_head, has_hyphen_break_skipn. exact Hhy.
      - rewrite R, skipn_app, skipn_all, Nat.sub_diag. reflexivity. }
    destruct (match_group2_shape _ _ T Hh) as [[E1 E2]|(c & rest' & E1 & E2 & Sc)].
    + (* the match runs to the end of the text *)
      subst g2. simpl in E1. subst rest. rewrite app_nil_r in R. simpl in R.
      subst g1. simpl length. rewrite Nat.add_0_r.
      destruct r as [|x r'].
      * simpl. destruct adj; [exists []|exists [[]]]; split; try reflexivity;
          repeat constructor. simpl. lia.
      * simpl length. cbv iota. rewrite (wrap_sub_skipn _ (length r') r') by lia.
        rewrite (skipn_all r'). unfold wrap_replacement. simpl Nat.ltb. cbv iota.
        exists [x :: r']. split.
        -- unfold ended. simpl. rewrite !app_nil_r. reflexivity.
        -- constructor; [split; assumption|constructor].
    + (* the match ends on a white space character *)
      subst g2. simpl in E1. injection E1 as <-.
      simpl length. rewrite Nat.add_1_r.
      unfold wrap_replacement. simpl Nat.ltb. cbv iota.
      assert (Hr : exists x r', r = x :: r' /\ skipn (length g1) r' = rest).
      { destruct g1 as [|y g1']; rewrite R.
        - exists c, rest. split; reflexivity.
        - exists y, (g1' ++ c :: rest). split; [reflexivity|].
          replace (length (y :: g1')) with (length (g1' ++ [c]))
            by (rewrite length_app; simpl; lia).
          replace (g1' ++ c :: rest) with ((g1' ++ [c]) ++ rest)
            by (rewrite <- app_assoc; reflexivity).
          rewrite skipn_app, skipn_all, Nat.sub_diag. reflexivity. }
      destruct Hr as (x & r' & Er & Es).
      assert (Hlr : (length g1 <= length r')%nat).
      { apply (f_equal (@length ascii)) in R. rewrite Er in R.
        rewrite length_app in R. simpl in R. lia. }
      rewrite Er. cbv iota.
      rewrite (wrap_sub_skipn _ (length g1) r') by exact Hlr. rewrite Es.
      assert (Hrest : rest = skipn (S (length g1)) r).
      { rewrite Er. simpl. symmetry. exact Es. }
      destruct (IH rest true) as (ls & E & F).
      * apply (f_equal (@length ascii)) in R. rewrite !length_app in R.
        simpl in R. lia.
      * rewrite Hrest. pose proof (longest_run_skipn (S (length g1)) r). lia.
      * rewrite Hrest. apply has_hyphen_break_skipn. exact Hhy.
      * exists (g1 :: ls). split.
        -- rewrite E. unfold ended. simpl. rewrite <- app_assoc. reflexivity.
        -- constructor; [split; assumption|exact F].
Qed.

Lemma ended_join ls : ls <> [] -> ended ls = join_lines ls ++ [nl].
Proof.
  unfold ended. induction ls as [|l ls IH]; [congruence|]. intros _.
  destruct ls as [|l' ls'].
  - simpl. rewrite app_nil_r. reflexivity.
  - change (map _ (l :: l' :: ls')) with ((l ++ [nl]) :: map (fun l => l ++ [nl]) (l' :: ls')).
    cbn [concat]. rewrite IH by discriminate.
    rewrite (join_lines_cons l (l' :: ls')) by discriminate.
    rewrite <- !app_assoc. reflexivity.
Qed.

Lemma unprotect_ended ls : unprotect (ended ls) = ended (map unprotect ls).
Proof.
  unfold ended, unprotect. induction ls as [|l ls IH]; [reflexivity|].
  simpl. rewrite !map_app, IH. reflexivity.
Qed.

Lemma line_ok_unprotect l : line_ok W l -> line_ok W (unprotect l).
Proof.
  unfold line_ok, unprotect, no_nl. intros [N L]. split.
  - clear L. induction N as [|c l Hc Hl IH]; simpl; constructor; [|exact IH].
    destruct (Ascii.eqb c backtick); [reflexivity|exact Hc].
  - rewrite length_map. exact L.
Qed.

Lemma drop_final_newline_ended s :
  drop_final_newline (s ++ [nl]) = Ok s.
Proof.
  unfold drop_final_newline.
  destruct (s ++ [nl]) as [|c r] eqn:E; [destruct s; discriminate|].
  rewrite <- E, last_last, removelast_last. reflexivity.
Qed.

End WrapFits.

(** X24. Where [constrain] does keep to the width: for a width [W] from
    0 up to the bound of [re], a text in which (once the spaces of lines
    with two pipes are shielded) no stretch without white space is longer
    than [W] and no hyphen stands between two word characters:
    [constrain] returns, and every line of the result has at most [W]
    characters. *)
Theorem constrain_lines_fit (t : text) (W : Z) :
  0 <= W < MAXREPEAT ->
  Z.of_nat (longest_run (protect t)) <= W ->
  has_hyphen_break (protect t) = false ->
  exists out,
    constrain t W = Ok out
    /\ Forall (fun l => len l <= W) (split_lines out).
Proof.
  intros [W0 W1] Hrun Hhy. unfold constrain.
  rewrite dots_upto_ok by lia. cbn [bind_result].
  destruct (wrap_sub_lines W W0 (length (protect t)) (protect t) false
              (le_n _) Hrun Hhy) as (ls & E & F).
  assert (Hne : ls <> []).
  { intros ->. unfold ended in E. simpl in E.
    destruct (protect t) as [|c r] eqn:P.
    - vm_compute in E. discriminate.
    - exact (wrap_sub_nonempty _ _ _ E). }
  rewrite E, unprotect_ended.
  rewrite ended_join by (destruct ls; [congruence|discriminate]).
  rewrite drop_final_newline_ended.
  eexists. split; [reflexivity|].
  assert (F' : Forall (line_ok W) (map unprotect ls)).
  { clear - F. induction F; simpl; constructor; auto.
    apply line_ok_unprotect. assumption. }
  rewrite split_join.
  - clear - F'. induction F' as [|l ls' [_ L] _ IH]; constructor; auto.
  - destruct ls; [congruence|discriminate].
  - clear - F'. induction F' as [|l ls' [N _] _ IH]; constructor; auto.
Qed.

Lemma constrain_lines_fit_witness :
  exists out,
    constrain (str "Text that overflows the width parameter") 18 = Ok out
    /\ Forall (fun l => len l <= 18) (split_lines out).
Proof.
  apply (constrain_lines_fit (str "Text that overflows the width parameter") 18).
  - unfold MAXREPEAT. lia.
  - vm_compute. discriminate.
  - vm_compute. reflexivity.
Defined.

(** The two ways in which a line of [constrain] gets longer than the
    width, on examples.  A word longer than the width is not cut: the text
    before the first match is copied as it is, and ["abcdef"] wrapped to 3
    is the one line ["abcdef"].  And a break at a hyphen puts the word
    character and the hyphen after the [W] characters of the first group:
    ["xxx ab-cd"] wrapped to 5 has the line ["xxx ab-"]. *)
Lemma constrain_keeps_long_word :
  constrain (str "abcdef") 3 = Ok (str "abcdef")
  /\ ~ Forall (fun l => len l <= 3) (split_lines (str "abcdef"))
  /\ lines_of (constrain (str "xxx ab-cd") 5) = ["xxx ab-"; "cd"]%string
  /\ longest_run (str "xxx ab-cd") = 5%nat.
Proof.
  split; [vm_compute; reflexivity|].
  split; [|split; vm_compute; reflexivity].
  intros H. vm_compute in H. inversion H as [|? ? L _]. vm_compute in L.
  apply L. reflexivity.
Qed.

(** ** A word longer than the width *)

Section LongWord.

Lemma is_word_not_space c : is_word c = true -> is_space c = false.
Proof.
  destruct c as [[] [] [] [] [] [] [] []]; vm_compute; congruence.
Qed.

Lemma is_word_differs c x : is_word x = false -> is_word c = true -> Ascii.eqb c x = false.
Proof.
  intros Hx Hc. destruct (Ascii.eqb c x) eqn:E; [|reflexivity].
  apply Ascii.eqb_eq in E. congruence.
Qed.

Lemma is_word_not_nl c : is_word c = true -> is_nl c = false.
Proof. intros H. unfold is_nl. apply is_word_differs; [reflexivity|exact H]. Qed.

Lemma word_no_nl word : Forall (fun c => is_word c = true) word -> no_nl word.
Proof.
  unfold no_nl. induction 1; constructor; auto using is_word_not_nl.
Qed.

(** A word has no pipe to shield and no backtick to turn back. *)
Lemma protect_word word :
  Forall (fun c => is_word c = true) word -> protect word = word.
Proof.
  intros H. unfold protect, map_lines.
  rewrite (split_lines_single word (word_no_nl word H)). simpl.
  unfold protect_line.
  replace (count_pipes word) with 0%nat; [reflexivity|].
  unfold count_pipes. induction H as [|c l Hc _ IH]; [reflexivity|].
  cbn [filter]. rewrite Ascii.eqb_sym, (is_word_differs c pipe eq_refl Hc). exact IH.
Qed.

Lemma unprotect_word word :
  Forall (fun c => is_word c = true) word -> unprotect word = word.
Proof.
  unfold unprotect. induction 1 as [|c l Hc _ IH]; [reflexivity|].
  cbn [map]. rewrite (is_word_differs c backtick eq_refl Hc), IH. reflexivity.
Qed.

(** The second group does not match at the head of a word that goes on:
    there is no white space, no hyphen and no end. *)
Lemma match_group2_word c r :
  Forall (fun c => is_word c = true) (c :: r) ->
  match_group2 (c :: r) = None.
Proof.
  intros H. inversion H as [|? ? Hc Hr]; subst.
  unfold match_group2. rewrite (is_word_not_space c Hc), Hc.
  destruct r as [|d1 [|d2 r2]]; try reflexivity.
  inversion Hr as [|? ? Hd1 _]; subst.
  rewrite (is_word_differs d1 dash eq_refl Hd1). reflexivity.
Qed.

(** Inside a word with more than [n] characters to go the pattern has
    no match. *)
Lemma match_upto_word_none r :
  forall n,
    Forall (fun c => is_word c = true) r ->
    Z.max 0 n < Z.of_nat (length r) ->
    match_upto n r = None.
Proof.
  induction r as [|c r' IH]; intros n H L.
  - simpl in L. lia.
  - cbn [match_upto]. unfold group2_only. rewrite (match_group2_word c r' H).
    destruct ((0 <? n) && negb (is_nl c)) eqn:C; [|reflexivity].
    apply andb_true_iff in C as [C _]. apply Z.ltb_lt in C.
    rewrite IH; [reflexivity|inversion H; assumption|].
    simpl length in L. lia.
Qed.

(** With at most [n] characters to go the pattern takes them all, up to
    the end of the text. *)
Lemma match_upto_word_all r :
  forall n,
    Forall (fun c => is_word c = true) r ->
    Z.of_nat (length r) <= n ->
    match_upto n r = Some (r, []).
Proof.
  induction r as [|c r' IH]; intros n H L.
  - reflexivity.
  - cbn [match_upto]. inversion H as [|? ? Hc Hr]; subst.
    simpl length in L.
    replace (0 <? n) with true by (symmetry; apply Z.ltb_lt; lia).
    rewrite (is_word_not_nl c Hc). cbn [negb andb].
    rewrite (IH (n - 1) Hr) by lia. reflexivity.
Qed.

(** The substitution copies a word as it is, whatever its length, and
    ends it with a newline. *)
Lemma wrap_sub_word W word :
  0 <= W ->
  Forall (fun c => is_word c = true) word ->
  wrap_sub (UpTo W) word 0 false = word ++ [nl].
Proof.
  intros HW H. induction H as [|c r Hc Hr IH]; [reflexivity|].
  assert (Hcr : Forall (fun c => is_word c = true) (c :: r)) by (constructor; assumption).
  rewrite wrap_sub_unfold. cbn [match_wrap].
  destruct (Z_lt_le_dec W (Z.of_nat (length (c :: r)))) as [L|L].
  - rewrite (match_upto_word_none (c :: r) W Hcr) by lia.
    rewrite IH. reflexivity.
  - rewrite (match_upto_word_all (c :: r) W Hcr L).
    simpl length. rewrite Nat.add_0_r.
    rewrite (wrap_sub_skipn _ (length r) r) by lia.
    rewrite skipn_all. unfold wrap_replacement. simpl.
    rewrite app_nil_r. reflexivity.
Qed.

End LongWord.

(** C5. What the code does in place of the claim.  For a width [W] from 0
    up to the bound of [re], a word (letters, digits, underscores) of more
    than [W] characters comes back from [constrain] as it is: one line,
    longer than the width, and nothing is cut. *)
Theorem constrain_keeps_over_long_word (word : text) (W : Z) :
  0 <= W < MAXREPEAT ->
  Forall (fun c => is_word c = true) word ->
  W < len word ->
  constrain word W = Ok word
  /\ split_lines word = [word]
  /\ ~ Forall (fun l => len l <= W) (split_lines word).
Proof.
  intros [W0 W1] Hword Hlen.
  assert (S1 : split_lines word = [word])
    by (apply split_lines_single, word_no_nl; exact Hword).
  split; [|split; [exact S1|]].
  - unfold constrain. rewrite dots_upto_ok by lia. cbn [bind_result].
    rewrite (protect_word word Hword), (wrap_sub_word W word W0 Hword).
    unfold unprotect. rewrite map_app. fold (unprotect word).
    rewrite (unprotect_word word Hword). simpl map.
    apply drop_final_newline_ended.
  - rewrite S1. intros F. inversion F as [|? ? L _]; subst. lia.
Qed.

Lemma constrain_keeps_over_long_word_witness :
  constrain (str "abcdef") 3 = Ok (str "abcdef")
  /\ split_lines (str "abcdef") = [str "abcdef"]
  /\ ~ Forall (fun l => len l <= 3) (split_lines (str "abcdef")).
Proof.
  apply (constrain_keeps_over_long_word (str "abcdef") 3).
  - unfold MAXREPEAT. lia.
  - repeat constructor.
  - vm_compute. reflexivity.
Defined.
(** * Further theorems: the panel tree *)

Section Lookup.

(** Induction on a panel with the daughters as hypotheses. *)
Lemma Panel_nested_ind (P : Panel -> Prop) :
  (forall p, Forall P (daughters p) -> P p) -> forall p, P p.
Proof.
  intros H. fix IH 1. intros p. apply H.
  destruct p as [n c w pc h pad t b l r ds hz v]. simpl.
  induction ds as [|d ds IHds]; constructor; [apply IH|exact IHds].
Qed.

Lemma getitem_unfold t key :
  getitem t key =
  if String.eqb (name t) key then Some [] else search_daughters key (daughters t) 0.
Proof.
  destruct t as [n c w pc h pad tf bf lf rf ds hz v]. simpl.
  destruct (String.eqb n key); [reflexivity|].
  generalize 0%nat. induction ds as [|d ds IH]; intros i; simpl; [reflexivity|].
  destruct (getitem d key); [reflexivity|apply IH].
Qed.

(** What the loop over the daughters returns: the first daughter in which
    the lookup succeeds, with the path found there. *)
Lemma search_daughters_some key l :
  forall i p,
    search_daughters key l i = Some p ->
    exists k d q,
      p = (i + k)%nat :: q /\ nth_error l k = Some d /\ getitem d key = Some q
      /\ forall j d', (j < k)%nat -> nth_error l j = Some d' -> getitem d' key = None.
Proof.
  induction l as [|d l IH]; intros i p H; simpl in H; [discriminate|].
  destruct (getitem d key) as [q|] eqn:G.
  - injection H as <-. exists 0%nat, d, q. rewrite Nat.add_0_r.
    repeat split; auto. intros j d' Hj. lia.
  - destruct (IH _ _ H) as (k & d1 & q & -> & Hn & Hg & Hfirst).
    exists (S k), d1, q. repeat split; auto.
    + f_equal. lia.
    + intros [|j] d' Hj Hd'; simpl in Hd'.
      * injection Hd' as <-. exact G.
      * apply (Hfirst j d'); [lia|exact Hd'].
Qed.

Lemma search_daughters_none key l :
  forall i, search_daughters key l i = None ->
            forall k d, nth_error l k = Some d -> getitem d key = None.
Proof.
  induction l as [|d l IH]; intros i H k d' Hk; [destruct k; discriminate|].
  simpl in H. destruct (getitem d key) eqn:G; [discriminate|].
  destruct k as [|k]; simpl in Hk.
  - injection Hk as <-. exact G.
  - eapply IH; eassumption.
Qed.

Lemma search_daughters_finds key l :
  forall i k d q,
    nth_error l k = Some d -> getitem d key = Some q ->
    exists p, search_daughters key l i = Some p.
Proof.
  induction l as [|d0 l IH]; intros i k d q Hk G; [destruct k; discriminate|].
  simpl. destruct (getitem d0 key) eqn:G0; [eauto|].
  destruct k as [|k]; simpl in Hk.
  - injection Hk as <-. congruence.
  - eapply IH; eassumption.
Qed.

End Lookup.

(** X1. A successful lookup returns the path of a panel of the tree whose
    name is the key. *)
Theorem getitem_names_a_panel (t : Panel) (key : string) (q : path) :
  getitem t key = Some q ->
  exists x, get_at q t = Some x /\ name x = key.
Proof.
  revert q. induction t as [t IH] using Panel_nested_ind. intros q H.
  rewrite getitem_unfold in H.
  destruct (String.eqb (name t) key) eqn:E.
  - injection H as <-. exists t. split; [reflexivity|].
    apply String.eqb_eq. exact E.
  - destruct (search_daughters_some _ _ _ _ H) as (k & d & q' & -> & Hk & G & _).
    simpl. rewrite Hk.
    rewrite Forall_forall in IH. apply IH; [|exact G].
    eapply nth_error_In. exact Hk.
Qed.

Lemma getitem_names_a_panel_witness :
  exists x, get_at [0%nat; 1%nat] screen3 = Some x /\ name x = "B2"%string.
Proof.
  apply (getitem_names_a_panel screen3 "B2" [0%nat; 1%nat]).
  vm_compute. reflexivity.
Defined.

Lemma getitem_none_iff (t : Panel) (key : string) :
  getitem t key = None <->
  (forall p x, get_at p t = Some x -> name x <> key).
Proof.
  induction t as [t IH] using Panel_nested_ind.
  rewrite Forall_forall in IH.
  rewrite getitem_unfold. split.
  - intros H p x Hp.
    destruct (String.eqb (name t) key) eqn:E; [discriminate|].
    destruct p as [|i p]; simpl in Hp.
    + injection Hp as <-. apply String.eqb_neq. exact E.
    + destruct (nth_error (daughters t) i) as [d|] eqn:Hi; [|discriminate].
      pose proof (search_daughters_none _ _ _ H i d Hi) as G.
      apply (proj1 (IH d (nth_error_In _ _ Hi))) with (p := p); assumption.
  - intros H.
    destruct (String.eqb (name t) key) eqn:E.
    + apply String.eqb_eq in E. exfalso. exact (H [] t eq_refl E).
    + destruct (search_daughters key (daughters t) 0) as [p|] eqn:S; [|reflexivity].
      destruct (search_daughters_some _ _ _ _ S) as (k & d & q & -> & Hk & G & _).
      exfalso.
      assert (N : getitem d key = None).
      { apply (proj2 (IH d (nth_error_In _ _ Hk))).
        intros p x Hp. apply (H (k :: p) x). simpl. rewrite Hk. exact Hp. }
      congruence.
Qed.

(** X2. The lookup fails (the [ValueError]) exactly when no panel of the
    tree has the key as its name. *)
Theorem getitem_fails_iff_no_panel (t : Panel) (key : string) :
  getitem t key = None <->
  (forall p x, get_at p t = Some x -> name x <> key).
Proof. apply getitem_none_iff. Qed.

(** X3. The panel that a lookup returns is the first one with that name in
    the order of the depth-first search. *)
Theorem getitem_returns_the_first (t : Panel) (key : string) (q p : path) (x : Panel) :
  getitem t key = Some q ->
  get_at p t = Some x -> name x = key ->
  path_le q p.
Proof.
  revert q p x. induction t as [t IH] using Panel_nested_ind.
  rewrite Forall_forall in IH.
  intros q p x H Hp Hx. rewrite getitem_unfold in H.
  destruct (String.eqb (name t) key) eqn:E.
  - injection H as <-. exact I.
  - destruct (search_daughters_some _ _ _ _ H) as (k & d & q' & -> & Hk & G & Hfirst).
    destruct p as [|j p]; simpl in Hp.
    + injection Hp as <-. apply String.eqb_neq in E. congruence.
    + destruct (nth_error (daughters t) j) as [d'|] eqn:Hj; [|discriminate].
      simpl. destruct (Nat.lt_trichotomy k j) as [L|[->|L]].
      * left. exact L.
      * right. split; [reflexivity|].
        rewrite Hk in Hj. injection Hj as <-.
        apply (IH d (nth_error_In _ _ Hk) q' p x); assumption.
      * exfalso. pose proof (Hfirst j d' L Hj) as N.
        exact (proj1 (getitem_none_iff d' key) N p x Hp Hx).
Qed.

Lemma getitem_returns_the_first_witness :
  getitem screen_twins "B2" = Some [0%nat; 1%nat]
  /\ get_at [1%nat; 1%nat] screen_twins = Some screen_twins_second
  /\ name screen_twins_second = "B2"%string
  /\ path_le [0%nat; 1%nat] [1%nat; 1%nat].
Proof.
  assert (H1 : getitem screen_twins "B2" = Some [0%nat; 1%nat])
    by (vm_compute; reflexivity).
  assert (H2 : get_at [1%nat; 1%nat] screen_twins = Some screen_twins_second)
    by (vm_compute; reflexivity).
  assert (H3 : name screen_twins_second = "B2"%string)
    by (vm_compute; reflexivity).
  split; [exact H1|split; [exact H2|split; [exact H3|]]].
  exact (getitem_returns_the_first screen_twins "B2" [0%nat; 1%nat]
           [1%nat; 1%nat] screen_twins_second H1 H2 H3).
Defined.

(** ** What seal writes *)

Section SealWrites.

Context {B : Type} (f : Panel -> B).

Lemma for_each_keeps step ds :
  (forall d, f (state_of (step d)) = f d) ->
  map f (state_of (for_each step ds)) = map f ds.
Proof.
  intros Hstep. induction ds as [|d ds IH]; simpl; [reflexivity|].
  specialize (Hstep d).
  destruct (step d) as [d'|e d']; simpl in *.
  - destruct (for_each step ds) as [r|e r]; simpl in *; congruence.
  - congruence.
Qed.

Lemma bump_last_free_keeps g ds :
  (forall d, f (g d) = f d) -> map f (bump_last_free g ds) = map f ds.
Proof.
  intros Hg. induction ds as [|d ds IH]; simpl; [reflexivity|].
  destruct (existsb is_free ds); simpl; [f_equal; exact IH|].
  destruct (is_free d); simpl; [rewrite Hg|]; reflexivity.
Qed.

Lemma normalize_keeps x ds :
  (forall v d, f (set_percent_field v d) = f d) ->
  map f (normalize x ds) = map f ds.
Proof.
  intros Hf. unfold normalize. destruct (100 <? x); [|reflexivity].
  induction ds as [|d ds IH]; simpl; [reflexivity|].
  rewrite IH. destruct (0 <? percent d); [rewrite Hf|]; reflexivity.
Qed.

Hypothesis f_width : forall v d, f (set_width v d) = f d.
Hypothesis f_height : forall v d, f (set_height v d) = f d.
Hypothesis f_percent : forall v d, f (set_percent_field v d) = f d.

Lemma seal_step_h_keeps pH pW dP nF d :
  f (state_of (seal_step_h pH pW dP nF d)) = f d.
Proof.
  unfold seal_step_h. cbn [percent set_height].
  destruct (percent d <? 0); [destruct (free_extent pW dP nF)|]; simpl;
    repeat (rewrite f_width || rewrite f_height); reflexivity.
Qed.

Lemma seal_step_v_keeps pH pW dP nF d :
  f (state_of (seal_step_v pH pW dP nF d)) = f d.
Proof.
  unfold seal_step_v. cbn [percent set_width].
  destruct (percent d <? 0); [destruct (free_extent pH dP nF)|]; simpl;
    repeat (rewrite f_width || rewrite f_height); reflexivity.
Qed.

(** A field that no assignment of width, height or percent touches is the
    same in every daughter after [seal], raised or not. *)
Lemma seal_keeps c p :
  map f (daughters (state_of (seal c p))) = map f (daughters p).
Proof.
  unfold seal. destruct (daughters p) as [|d0 r0] eqn:E.
  { simpl. rewrite E. reflexivity. }
  rewrite <- E. clear E d0 r0. unfold seal_body.
  pose proof (normalize_keeps (daughtersPercent (daughters p)) (daughters p) f_percent) as N.
  destruct (horizontal p).
  - pose proof (for_each_keeps
                  (seal_step_h (parentHeight p) (parentWidth p)
                     (daughtersPercent (daughters p)) (numFreeDaughters (daughters p)))
                  (normalize (daughtersPercent (daughters p)) (daughters p))
                  (seal_step_h_keeps _ _ _ _)) as L.
    destruct (for_each _ _) as [ds1|e ds1]; simpl in *.
    + destruct (c && _); simpl; [rewrite bump_last_free_keeps by (intros; apply f_width)|];
        congruence.
    + congruence.
  - destruct (vertical p).
    + pose proof (for_each_keeps
                  (seal_step_v (parentHeight p) (parentWidth p)
                     (daughtersPercent (daughters p)) (numFreeDaughters (daughters p)))
                  (normalize (daughtersPercent (daughters p)) (daughters p))
                  (seal_step_v_keeps _ _ _ _)) as L.
      destruct (for_each _ _) as [ds1|e ds1]; simpl in *.
      * destruct (c && _); simpl; [rewrite bump_last_free_keeps by (intros; apply f_height)|];
          congruence.
      * congruence.
    + simpl. exact N.
Qed.

End SealWrites.

Lemma seal_keeps_self c p :
  set_daughters (daughters p) (state_of (seal c p)) = p.
Proof.
  unfold seal. destruct (daughters p) as [|d0 r0] eqn:E.
  { simpl. rewrite <- E. destruct p; reflexivity. }
  rewrite <- E. clear E d0 r0. unfold seal_body.
  destruct (horizontal p); [|destruct (vertical p)];
    repeat match goal with
           | |- context [match ?x with _ => _ end] => destruct x
           end; destruct p; reflexivity.
Qed.

(** X4. Whatever its outcome, [seal] writes only the width, the height
    and the percent of the panel's own daughters: the panel's own fields,
    the number of daughters, their names, contents, paddings, frame and
    direction flags, and everything below them are as before. *)
Theorem seal_writes_only_daughter_geometry (c : bool) (p : Panel) :
  let p' := state_of (seal c p) in
  set_daughters (daughters p) p' = p
  /\ length (daughters p') = length (daughters p)
  /\ map fixed_fields (daughters p') = map fixed_fields (daughters p)
  /\ map daughters (daughters p') = map daughters (daughters p).
Proof.
  intros p'. unfold p'.
  split; [apply seal_keeps_self|].
  assert (F : map fixed_fields (daughters (state_of (seal c p)))
              = map fixed_fields (daughters p)) by (apply seal_keeps; reflexivity).
  split; [|split; [exact F|apply seal_keeps; reflexivity]].
  apply (f_equal (@length _)) in F. rewrite !length_map in F. exact F.
Qed.

(** ** What seal assigns *)

Section SealAssigns.

Lemma for_each_done_nth step ds ds1 :
  for_each step ds = Done ds1 ->
  forall i d, nth_error ds i = Some d ->
              exists d1, nth_error ds1 i = Some d1 /\ step d = Done d1.
Proof.
  revert ds1. induction ds as [|d0 ds IH]; intros ds1 H i d Hi;
    [destruct i; discriminate|].
  simpl in H. destruct (step d0) as [d0'|e d0'] eqn:E0; [|discriminate].
  destruct (for_each step ds) as [r|e r] eqn:Er; [|discriminate].
  injection H as <-. destruct i as [|i]; simpl in Hi |- *.
  - injection Hi as <-. eauto.
  - eapply IH; [reflexivity|exact Hi].
Qed.

Lemma for_each_done_all step ds ds1 (Q : Panel -> Prop) :
  (forall d d1, step d = Done d1 -> Q d1) ->
  for_each step ds = Done ds1 -> Forall Q ds1.
Proof.
  intros HQ. revert ds1. induction ds as [|d0 ds IH]; intros ds1 H; simpl in H.
  - injection H as <-. constructor.
  - destruct (step d0) as [d0'|e d0'] eqn:E0; [|discriminate].
    destruct (for_each step ds) as [r|e r] eqn:Er; [|discriminate].
    injection H as <-. constructor; [eapply HQ; exact E0|apply IH; reflexivity].
Qed.

Lemma bump_last_free_all g ds (Q : Panel -> Prop) :
  (forall d, Q d -> Q (g d)) -> Forall Q ds -> Forall Q (bump_last_free g ds).
Proof.
  intros Hg H. induction H as [|d ds Hd Hds IH]; simpl; [constructor|].
  destruct (existsb is_free ds); [constructor; assumption|].
  destruct (is_free d); constructor; auto.
Qed.

(** The bump of the last free daughter leaves a daughter with a set
    percent where and as it is. *)
Lemma bump_last_free_set g ds :
  forall i d, nth_error ds i = Some d -> is_free d = false ->
              nth_error (bump_last_free g ds) i = Some d.
Proof.
  induction ds as [|d0 ds IH]; intros i d Hi Hd; [destruct i; discriminate|].
  simpl. destruct (existsb is_free ds).
  - destruct i as [|i]; simpl in *; [exact Hi|apply IH; assumption].
  - destruct i as [|i]; simpl in Hi.
    + injection Hi as ->. rewrite Hd. reflexivity.
    + destruct (is_free d0); simpl; exact Hi.
Qed.

Lemma normalize_id x ds : x <= 100 -> normalize x ds = ds.
Proof.
  intros L. unfold normalize.
  destruct (100 <? x) eqn:E; [apply Z.ltb_lt in E; lia|reflexivity].
Qed.

End SealAssigns.

(** X5. After a [seal] that returns, every daughter spans the cross axis
    of the panel: in a horizontal panel each daughter has the panel's
    interior height, in a vertical one the panel's interior width. *)
Theorem seal_spans_cross_axis (c : bool) (p p' : Panel) :
  seal c p = Done p' ->
  if horizontal p
  then Forall (fun d => height d = parentHeight p) (daughters p')
  else Forall (fun d => width d = parentWidth p) (daughters p').
Proof.
  intros H. unfold seal in H.
  destruct (daughters p) as [|d0 r0] eqn:E; [discriminate|].
  clear E d0 r0. unfold seal_body in H.
  destruct (horizontal p).
  - destruct (for_each _ _) as [ds1|e ds1] eqn:L; [|discriminate].
    assert (A : Forall (fun d => height d = parentHeight p) ds1).
    { eapply for_each_done_all; [|exact L].
      intros d d1. unfold seal_step_h. cbn [percent set_height].
      destruct (percent d <? 0); [destruct (free_extent _ _ _); [|discriminate]|];
        intros X; injection X as <-; reflexivity. }
    destruct (c && _); injection H as <-; simpl; [|exact A].
    apply bump_last_free_all; [|exact A]. intros d Hd. exact Hd.
  - destruct (vertical p); [|discriminate].
    destruct (for_each _ _) as [ds1|e ds1] eqn:L; [|discriminate].
    assert (A : Forall (fun d => width d = parentWidth p) ds1).
    { eapply for_each_done_all; [|exact L].
      intros d d1. unfold seal_step_v. cbn [percent set_width].
      destruct (percent d <? 0); [destruct (free_extent _ _ _); [|discriminate]|];
        intros X; injection X as <-; reflexivity. }
    destruct (c && _); injection H as <-; simpl; [|exact A].
    apply bump_last_free_all; [|exact A]. intros d Hd. exact Hd.
Qed.

Lemma seal_spans_cross_axis_witness :
  Forall (fun d => height d = parentHeight one_free)
         (daughters (state_of (seal true one_free))).
Proof.
  apply (seal_spans_cross_axis true one_free (state_of (seal true one_free))).
  vm_compute. reflexivity.
Defined.

(** X6. Where the set percents of the daughters sum to at most 100, a
    [seal] that returns gives each daughter with a set percent the floor
    of [interior * percent / 100] along the stacking axis and keeps its
    percent. *)
Theorem seal_gives_percent_share (c : bool) (p p' : Panel) (i : nat) (d : Panel) :
  daughtersPercent (daughters p) <= 100 ->
  seal c p = Done p' ->
  nth_error (daughters p) i = Some d ->
  0 <= percent d ->
  exists d',
    nth_error (daughters p') i = Some d'
    /\ percent d' = percent d
    /\ (if horizontal p then width d' else height d')
       = stack_interior p * percent d / 100.
Proof.
  intros Hle H Hi Hd. unfold seal in H.
  destruct (daughters p) as [|d0 r0] eqn:E; [destruct i; discriminate|].
  rewrite <- E in Hi, Hle. clear E d0 r0. unfold seal_body in H.
  rewrite (normalize_id _ _ Hle) in H.
  assert (Hset : (percent d <? 0) = false) by (apply Z.ltb_ge; exact Hd).
  unfold stack_interior.
  destruct (horizontal p).
  - destruct (for_each _ _) as [ds1|e ds1] eqn:L; [|discriminate].
    destruct (for_each_done_nth _ _ _ L i d Hi) as (d1 & H1 & S1).
    unfold seal_step_h in S1. cbn [percent set_height] in S1.
    rewrite Hset in S1. injection S1 as <-.
    exists (set_width (set_extent (parentWidth p) (percent d)) (set_height (parentHeight p) d)).
    split; [|split; reflexivity].
    destruct (c && _); injection H as <-; simpl; [|exact H1].
    apply bump_last_free_set; [exact H1|]. unfold is_free. simpl. exact Hset.
  - destruct (vertical p); [|discriminate].
    destruct (for_each _ _) as [ds1|e ds1] eqn:L; [|discriminate].
    destruct (for_each_done_nth _ _ _ L i d Hi) as (d1 & H1 & S1).
    unfold seal_step_v in S1. cbn [percent set_width] in S1.
    rewrite Hset in S1. injection S1 as <-.
    exists (set_height (set_extent (parentHeight p) (percent d)) (set_width (parentWidth p) d)).
    split; [|split; reflexivity].
    destruct (c && _); injection H as <-; simpl; [|exact H1].
    apply bump_last_free_set; [exact H1|]. unfold is_free. simpl. exact Hset.
Qed.

Lemma seal_gives_percent_share_witness :
  exists d',
    nth_error (daughters (state_of (seal true one_free))) 0 = Some d'
    /\ percent d' = percent (leaf "a" 50)
    /\ (if horizontal one_free then width d' else height d')
       = stack_interior one_free * percent (leaf "a" 50) / 100.
Proof.
  apply (seal_gives_percent_share true one_free (state_of (seal true one_free))
           0 (leaf "a" 50)); vm_compute; try reflexivity; discriminate.
Defined.

(** X7. On a panel with no direction (a leaf among them) [seal] raises
    [PanelError] and moves no extent. *)
Theorem seal_without_direction (c : bool) (p : Panel) :
  horizontal p = false -> vertical p = false ->
  exists s, seal c p = Raised PanelError s
            /\ map width (daughters s) = map width (daughters p)
            /\ map height (daughters s) = map height (daughters p).
Proof.
  intros Hh Hv. unfold seal.
  destruct (daughters p) as [|d0 r0] eqn:E.
  - exists p. rewrite E. repeat split.
  - rewrite <- E. unfold seal_body. rewrite Hh, Hv.
    eexists. split; [reflexivity|]. simpl.
    split; apply normalize_keeps; reflexivity.
Qed.

Lemma seal_without_direction_witness :
  exists s, seal true screen0 = Raised PanelError s
            /\ map width (daughters s) = map width (daughters screen0)
            /\ map height (daughters s) = map height (daughters screen0).
Proof.
  apply (seal_without_direction true screen0); reflexivity.
Defined.

(** X8. Where the set percents of the daughters sum to at most 100, a
    second [seal] right after a [seal] that returned changes nothing. *)
Theorem seal_twice_same_below_100 (c : bool) (p p' : Panel) :
  daughtersPercent (daughters p) <= 100 ->
  seal c p = Done p' ->
  seal c p' = Done p'.
Proof. apply seal_idempotent_without_rescale. Qed.

Lemma seal_twice_same_below_100_witness :
  seal true (state_of (seal true one_free)) = Done (state_of (seal true one_free)).
Proof.
  apply (seal_twice_same_below_100 true one_free (state_of (seal true one_free)));
    vm_compute; [discriminate|reflexivity].
Defined.

(** X9. [set_percent] on a panel that has a parent never ends in the
    [AttributeError] of the root. *)
Theorem set_percent_with_parent (t : Panel) (q : path) (i : nat) (v : Z) (self : Panel) :
  get_at (q ++ [i]) t = Some self ->
  exists o, set_percent (q ++ [i]) v t = Some o
            /\ forall s, o <> Raised AttributeError s.
Proof. apply set_percent_below_root. Qed.

Lemma set_percent_with_parent_witness :
  exists o, set_percent ([0%nat] ++ [0%nat]) 50 screen3 = Some o
            /\ forall s, o <> Raised AttributeError s.
Proof.
  apply (set_percent_with_parent screen3 [0%nat] 0%nat 50 screen3_B1).
  vm_compute. reflexivity.
Defined.

(** ** Flags survive the reflow *)

Section FlagsAt.

Lemma map_nth_error_eq {A B : Type} (f : A -> B) l l' i x :
  map f l' = map f l -> nth_error l i = Some x ->
  exists x', nth_error l' i = Some x' /\ f x' = f x.
Proof.
  revert l' i. induction l as [|a l IH]; intros [|a' l'] [|i] H Hi; simpl in *;
    try discriminate.
  - injection H as H1 H2. injection Hi as <-. eauto.
  - injection H as H1 H2. eapply IH; eassumption.
Qed.

(** The fields other than width, height and percent of the panel at any
    path are the same after [seal] on the root, raised or not. *)
Lemma seal_fixed_fields_at c t p x :
  get_at p t = Some x ->
  exists x', get_at p (state_of (seal c t)) = Some x'
             /\ fixed_fields x' = fixed_fields x.
Proof.
  intros H. destruct p as [|i q]; simpl in H |- *.
  - injection H as <-. eexists. split; [reflexivity|].
    pose proof (seal_keeps_self c t) as K.
    rewrite <- K at 2. reflexivity.
  - destruct (nth_error (daughters t) i) as [d|] eqn:Hi; [|discriminate].
    destruct (map_nth_error_eq fixed_fields _ _ i d
                (seal_keeps fixed_fields ltac:(reflexivity) ltac:(reflexivity)
                   ltac:(reflexivity) c t) Hi) as (d' & Hd' & F).
    destruct (map_nth_error_eq daughters _ _ i d
                (seal_keeps daughters ltac:(reflexivity) ltac:(reflexivity)
                   ltac:(reflexivity) c t) Hi) as (d'' & Hd'' & D).
    rewrite Hd'' in Hd'. injection Hd' as <-. rewrite Hd''.
    destruct q as [|j q]; simpl in H |- *.
    + injection H as <-. eauto.
    + rewrite D. destruct (nth_error (daughters d) j); [|discriminate].
      exists x. split; [exact H|reflexivity].
Qed.

Lemma seal_origin_fixed_fields_at t p x :
  get_at p t = Some x ->
  exists o x', seal_origin t = Some o
               /\ get_at p (state_of o) = Some x'
               /\ fixed_fields x' = fixed_fields x.
Proof.
  intros H. destruct (seal_origin_state t) as (o & E1 & E2 & _).
  destruct (seal_fixed_fields_at true t p x H) as (x' & G & F).
  exists o, x'. rewrite E2. auto.
Qed.

End FlagsAt.

(** X10. [toggle_direction] on a panel with no direction raises
    [PanelError] and changes nothing.  On a panel with one direction it
    swaps the two flags, and the swap is there whether the [seal] of the
    root that follows returns or raises. *)
Theorem toggle_direction_swaps (p : path) (t self : Panel) :
  get_at p t = Some self ->
  (horizontal self = false -> vertical self = false ->
   toggle_direction p t = Some (Raised PanelError t))
  /\ (xorb (horizontal self) (vertical self) = true ->
      exists o self',
        toggle_direction p t = Some o
        /\ get_at p (state_of o) = Some self'
        /\ horizontal self' = vertical self
        /\ vertical self' = horizontal self).
Proof.
  intros Hp. unfold toggle_direction. rewrite Hp. split.
  - intros -> ->. reflexivity.
  - intros X.
    destruct (horizontal self) eqn:Hh, (vertical self) eqn:Hv; try discriminate;
      simpl negb; simpl andb; cbv iota.
    + destruct (seal_origin_fixed_fields_at
                  (replace_at p (set_direction false true self) t) p
                  (set_direction false true self)
                  (get_at_replace_at _ _ _ _ Hp)) as (o & x' & E & G & F).
      exists o, x'. repeat split; try assumption;
        unfold fixed_fields in F; simpl in F; congruence.
    + destruct (seal_origin_fixed_fields_at
                  (replace_at p (set_direction true false self) t) p
                  (set_direction true false self)
                  (get_at_replace_at _ _ _ _ Hp)) as (o & x' & E & G & F).
      exists o, x'. repeat split; try assumption;
        unfold fixed_fields in F; simpl in F; congruence.
Qed.

Lemma toggle_direction_swaps_witness :
  (horizontal screen3_A = false -> vertical screen3_A = false ->
   toggle_direction [0%nat] screen3 = Some (Raised PanelError screen3))
  /\ (xorb (horizontal screen3_A) (vertical screen3_A) = true ->
      exists o self',
        toggle_direction [0%nat] screen3 = Some o
        /\ get_at [0%nat] (state_of o) = Some self'
        /\ horizontal self' = vertical screen3_A
        /\ vertical self' = horizontal screen3_A).
Proof.
  apply (toggle_direction_swaps [0%nat] screen3 screen3_A).
  vm_compute. reflexivity.
Defined.

(** X11. [set_frames] stores the four flags in the panel, and they are
    there whether the [seal] of the root that follows returns or raises;
    the panel keeps its name, content, padding and direction. *)
Theorem set_frames_stores_flags (p : path) (tf bf lf rf : bool) (t self : Panel) :
  get_at p t = Some self ->
  exists o self',
    set_frames p tf bf lf rf t = Some o
    /\ get_at p (state_of o) = Some self'
    /\ fixed_fields self'
       = (name self, content self, padding self, (tf, bf, lf, rf),
          (horizontal self, vertical self)).
Proof.
  intros Hp. unfold set_frames, update_at. rewrite Hp. simpl.
  destruct (seal_origin_fixed_fields_at
              (replace_at p (set_frames_fields tf bf lf rf self) t) p
              (set_frames_fields tf bf lf rf self)
              (get_at_replace_at _ _ _ _ Hp)) as (o & x' & E & G & F).
  exists o, x'. repeat split; assumption.
Qed.

Lemma set_frames_stores_flags_witness :
  exists o self',
    set_frames [0%nat] false false true true screen3 = Some o
    /\ get_at [0%nat] (state_of o) = Some self'
    /\ fixed_fields self'
       = (name screen3_A, content screen3_A, padding screen3_A,
          (false, false, true, true),
          (horizontal screen3_A, vertical screen3_A)).
Proof.
  apply (set_frames_stores_flags [0%nat] false false true true screen3 screen3_A).
  vm_compute. reflexivity.
Defined.

(** ** subdivide on the root *)

Section SubdivideRoot.

(** The sum of the extents along the stacking axis after a completed
    [seal] with a free daughter. *)
Lemma seal_fills (p p' : Panel) :
  existsb is_free (daughters p) = true ->
  seal true p = Done p' ->
  stack_sum p' = stack_interior p'.
Proof.
  intros Hfree H. unfold seal in H.
  destruct (daughters p) as [|d0 ds0] eqn:Eds; [discriminate|].
  unfold seal_body in H. rewrite <- Eds in *. rewrite Hfree in H. simpl andb in H.
  unfold stack_sum, stack_interior.
  destruct (horizontal p) eqn:Hh.
  - destruct (for_each _ _) as [ds1|e ds1] eqn:Eloop; [|discriminate].
    injection H as <-. simpl. rewrite Hh.
    rewrite bump_last_free_widths.
    + unfold parentWidth. simpl. lia.
    + rewrite (for_each_free _ _ _ (seal_step_h_percent _ _ _ _) Eloop).
      rewrite normalize_free. exact Hfree.
  - destruct (vertical p) eqn:Hv; [|discriminate].
    destruct (for_each _ _) as [ds1|e ds1] eqn:Eloop; [|discriminate].
    injection H as <-. simpl. rewrite Hh.
    rewrite bump_last_free_heights.
    + unfold parentHeight. simpl. lia.
    + rewrite (for_each_free _ _ _ (seal_step_v_percent _ _ _ _) Eloop).
      rewrite normalize_free. exact Hfree.
Qed.

(** The percents after [seal] are those the rescaling loop left. *)
Lemma seal_percents c p :
  map percent (daughters (state_of (seal c p)))
  = map percent (normalize (daughtersPercent (daughters p)) (daughters p)).
Proof.
  unfold seal. destruct (daughters p) as [|d0 r0] eqn:E.
  { simpl. rewrite E. unfold normalize.
    destruct (100 <? daughtersPercent []); reflexivity. }
  rewrite <- E. clear E d0 r0. unfold seal_body.
  destruct (horizontal p).
  - pose proof (for_each_percent
                  (seal_step_h (parentHeight p) (parentWidth p)
                     (daughtersPercent (daughters p)) (numFreeDaughters (daughters p)))
                  (normalize (daughtersPercent (daughters p)) (daughters p))
                  (seal_step_h_percent _ _ _ _)) as L.
    destruct (for_each _ _) as [ds1|e ds1]; simpl in *; [|exact L].
    destruct (c && _); simpl; [rewrite bump_last_free_percent by reflexivity|]; exact L.
  - destruct (vertical p); [|reflexivity].
    pose proof (for_each_percent
                  (seal_step_v (parentHeight p) (parentWidth p)
                     (daughtersPercent (daughters p)) (numFreeDaughters (daughters p)))
                  (normalize (daughtersPercent (daughters p)) (daughters p))
                  (seal_step_v_percent _ _ _ _)) as L.
    destruct (for_each _ _) as [ds1|e ds1]; simpl in *; [|exact L].
    destruct (c && _); simpl; [rewrite bump_last_free_percent by reflexivity|]; exact L.
Qed.

Lemma apply_names_keeps {B : Type} (f : Panel -> B) names ds :
  (forall n d, f (set_name n d) = f d) ->
  map f (apply_names names ds) = map f ds.
Proof.
  intros Hf. revert ds. induction names as [|n ns IH]; intros [|d ds]; simpl;
    try reflexivity.
  rewrite Hf, IH. reflexivity.
Qed.

Lemma apply_names_names names ds :
  length names = length ds -> map name (apply_names names ds) = names.
Proof.
  revert ds. induction names as [|n ns IH]; intros [|d ds] H; simpl in *;
    try discriminate; [reflexivity|].
  f_equal. apply IH. lia.
Qed.

Lemma new_daughters_free self n w h l :
  l <> [] ->
  existsb is_free (map (new_daughter self n w h) l) = true.
Proof.
  destruct l as [|a l]; [congruence|]. intros _. simpl.
  unfold new_daughter. destruct (horizontal self); reflexivity.
Qed.

Lemma new_daughters_percent self n w h l :
  map percent (map (new_daughter self n w h) l) = repeat (-1) (length l).
Proof.
  induction l as [|a l IH]; simpl; [reflexivity|]. rewrite IH.
  unfold new_daughter. destruct (horizontal self); reflexivity.
Qed.

Lemma daughtersPercent_all_free ds k :
  map percent ds = repeat (-1) k -> daughtersPercent ds = 0.
Proof.
  unfold daughtersPercent. revert k.
  induction ds as [|d ds IH]; intros [|k] H; simpl in *; try discriminate;
    [reflexivity|].
  injection H as H1 H2. unfold is_set at 1. rewrite H1. simpl.
  eapply IH. exact H2.
Qed.

End SubdivideRoot.

(** X12. A [subdivide] of the root into [n >= 1] parts that returns leaves
    the root with [n] daughters and the direction asked for; the
    daughters' extents along the stacking axis sum to exactly the root's
    interior extent; each daughter has no percent, no content and no
    daughters, and the root's padding and frame flags; their names are the
    names given, or the default names. *)
Theorem subdivide_root_partitions (t t' : Panel) (n : Z) (names : list string)
    (hz : bool) (w h : Z) :
  1 <= n ->
  subdivide [] n names hz w h t = Some (Done t') ->
  length (daughters t') = Z.to_nat n
  /\ horizontal t' = hz /\ vertical t' = negb hz
  /\ stack_sum t' = stack_interior t'
  /\ map handed_down (daughters t')
     = repeat (-1, ""%string, padding t,
               (topFrame t, botFrame t, leftFrame t, rightFrame t), [])
              (Z.to_nat n)
  /\ map name (daughters t')
     = match names with
       | [] => map (daughter_name (name t)) (seq 1 (Z.to_nat n))
       | _ :: _ => names
       end.
Proof.
  intros Hn H. unfold subdivide in H. cbn [get_at] in H.
  destruct (negb (String.eqb (content t) "")) eqn:C; [discriminate|].
  destruct (negb (Nat.eqb (length names) 0)
            && negb (Z.of_nat (length names) =? n)) eqn:Hnames; [discriminate|].
  set (self1 := set_daughters [] (set_direction hz (negb hz) t)) in *.
  set (ds := map (new_daughter self1 n w h) (seq 1 (Z.to_nat n))) in *.
  cbn [replace_at] in H.
  set (t1 := set_daughters ds self1) in *.
  assert (Lds : length ds = Z.to_nat n).
  { unfold ds. rewrite length_map, length_seq. reflexivity. }
  assert (Hfree : existsb is_free (daughters t1) = true).
  { simpl. apply new_daughters_free. intros E.
    apply (f_equal (@length nat)) in E. rewrite length_seq in E. simpl in E. lia. }
  assert (Pds : map percent ds = repeat (-1) (Z.to_nat n)).
  { unfold ds. rewrite new_daughters_percent, length_seq. reflexivity. }
  destruct (seal_origin_state t1) as (o & E1 & E2 & E3).
  rewrite E1 in H.
  destruct o as [t2|e t2]; [|simpl in H; destruct names; discriminate].
  specialize (E3 t2 eq_refl).
  assert (S2 : t2 = state_of (seal true t1)) by (rewrite E3; reflexivity).
  pose proof (seal_fills t1 t2 Hfree E3) as Fill.
  pose proof (seal_keeps_self true t1) as Self. rewrite <- S2 in Self.
  assert (Hhz : horizontal t2 = hz /\ vertical t2 = negb hz
                /\ parentWidth t2 = parentWidth t1 /\ parentHeight t2 = parentHeight t1).
  { assert (X : horizontal t2 = horizontal t1 /\ vertical t2 = vertical t1
               /\ parentWidth t2 = parentWidth t1 /\ parentHeight t2 = parentHeight t1).
    { rewrite <- Self. repeat split. }
    destruct X as (-> & -> & -> & ->). repeat split. }
  assert (Len2 : length (daughters t2) = Z.to_nat n).
  { pose proof (seal_keeps fixed_fields ltac:(reflexivity) ltac:(reflexivity)
                  ltac:(reflexivity) true t1) as K.
    rewrite <- S2 in K. apply (f_equal (@length _)) in K.
    rewrite !length_map in K. rewrite K. exact Lds. }
  assert (P2 : map percent (daughters t2) = repeat (-1) (Z.to_nat n)).
  { rewrite S2, seal_percents. simpl daughters.
    rewrite (daughtersPercent_all_free ds _ Pds), normalize_id by lia. exact Pds. }
  assert (N2 : map name (daughters t2)
               = map (daughter_name (name t)) (seq 1 (Z.to_nat n))).
  { rewrite S2, (seal_keeps name) by reflexivity. simpl daughters. unfold ds.
    rewrite map_map. apply map_ext. intros a.
    unfold new_daughter. destruct (horizontal self1); reflexivity. }
  assert (D2 : map (fun d => (content d, padding d,
                              (topFrame d, botFrame d, leftFrame d, rightFrame d),
                              daughters d)) (daughters t2)
               = repeat (""%string, padding t,
                         (topFrame t, botFrame t, leftFrame t, rightFrame t), [])
                        (Z.to_nat n)).
  { rewrite S2, (seal_keeps (fun d => (content d, padding d,
                              (topFrame d, botFrame d, leftFrame d, rightFrame d),
                              daughters d))) by reflexivity.
    simpl daughters. unfold ds. rewrite map_map.
    transitivity (repeat (""%string, padding t,
                          (topFrame t, botFrame t, leftFrame t, rightFrame t),
                          @nil Panel)
                         (length (seq 1 (Z.to_nat n))));
      [|rewrite length_seq; reflexivity].
    generalize (seq 1 (Z.to_nat n)). intros l.
    induction l as [|a l IH]; simpl; [reflexivity|]. rewrite IH. f_equal.
    unfold new_daughter. destruct (horizontal self1); reflexivity. }
  assert (HD : forall l k,
             map percent l = repeat (-1) k ->
             map (fun d => (content d, padding d,
                            (topFrame d, botFrame d, leftFrame d, rightFrame d),
                            daughters d)) l
             = repeat (""%string, padding t,
                       (topFrame t, botFrame t, leftFrame t, rightFrame t), []) k ->
             map handed_down l
             = repeat (-1, ""%string, padding t,
                       (topFrame t, botFrame t, leftFrame t, rightFrame t), []) k).
  { induction l as [|d l IH]; intros [|k] A B; simpl in *; try discriminate;
      [reflexivity|].
    injection A as A1 A2. injection B as B1 B2 B3 B4 B5 B6 B7 B8.
    rewrite (IH k A2 B8).
    unfold handed_down. congruence. }
  destruct names as [|n0 ns].
  - simpl in H. injection H as <-.
    destruct Hhz as (Hh & Hv & _).
    repeat split; auto.
  - unfold update_at in H. cbn [get_at replace_at map_outcome] in H.
    injection H as <-. cbn [daughters horizontal vertical set_daughters].
    change (match daughters t2 with
            | [] => daughters t2
            | d :: rest => set_name n0 d :: apply_names ns rest
            end) with (apply_names (n0 :: ns) (daughters t2)).
    destruct Hhz as (Hh & Hv & HW & HH).
    assert (Lnames : length (n0 :: ns) = length (daughters t2)).
    { rewrite Len2. apply andb_false_iff in Hnames as [X|X].
      - apply negb_false_iff in X. simpl in X. discriminate.
      - apply negb_false_iff, Z.eqb_eq in X. lia. }
    split; [|split; [exact Hh|split; [exact Hv|split; [|split]]]].
    + apply (f_equal (@length _)) in P2.
      rewrite length_map, repeat_length in P2.
      pose proof (apply_names_keeps percent (n0 :: ns) (daughters t2)
                    ltac:(reflexivity)) as K.
      apply (f_equal (@length _)) in K. rewrite !length_map in K. lia.
    + unfold stack_sum, stack_interior in *.
      cbn [daughters horizontal set_daughters]. rewrite Hh in *.
      unfold sum_widths, sum_heights in *.
      rewrite !apply_names_keeps by reflexivity.
      destruct hz; exact Fill.
    + apply HD.
      * rewrite apply_names_keeps by reflexivity. exact P2.
      * rewrite apply_names_keeps by reflexivity. exact D2.
    + apply apply_names_names. exact Lnames.
Qed.

Lemma subdivide_root_partitions_witness :
  length (daughters screen1) = Z.to_nat 2
  /\ horizontal screen1 = true /\ vertical screen1 = negb true
  /\ stack_sum screen1 = stack_interior screen1
  /\ map handed_down (daughters screen1)
     = repeat (-1, ""%string, padding screen0,
               (topFrame screen0, botFrame screen0, leftFrame screen0,
                rightFrame screen0), [])
              (Z.to_nat 2)
  /\ map name (daughters screen1) = ["A"; "C"]%string.
Proof.
  apply (subdivide_root_partitions screen0 screen1 2 ["A"; "C"]%string true (-1) (-1)).
  - lia.
  - vm_compute. reflexivity.
Defined.

(** X13. A [subdivide] of a root without content into no parts ([n <= 0],
    no names) raises [PanelError] from the [seal] at its end, after the
    panel has lost its daughters and taken the direction asked for. *)
Theorem subdivide_into_nothing (t : Panel) (n : Z) (hz : bool) (w h : Z) :
  content t = ""%string ->
  n <= 0 ->
  subdivide [] n [] hz w h t
  = Some (Raised PanelError (set_daughters [] (set_direction hz (negb hz) t))).
Proof.
  intros C Hn. unfold subdivide. cbn [get_at]. rewrite C.
  change (negb (String.eqb "" "")) with false. cbv iota.
  change (negb (Nat.eqb (length (@nil string)) 0)) with false. cbn [andb].
  replace (Z.to_nat n) with 0%nat by lia.
  cbn [seq map replace_at].
  unfold and_then_at, seal_origin, update_at. cbn [get_at].
  unfold seal. cbn [daughters set_daughters map_outcome replace_at]. reflexivity.
Qed.

Lemma subdivide_into_nothing_witness :
  subdivide [] 0 [] true (-1) (-1) screen1
  = Some (Raised PanelError (set_daughters [] (set_direction true (negb true) screen1))).
Proof.
  apply (subdivide_into_nothing screen1 0 true (-1) (-1)); [reflexivity|lia].
Defined.

(** ** Assignment by name *)

Section Assignment.

Lemma search_replace_nth key l :
  forall i n d d',
    nth_error l i = Some d -> getitem d' key = getitem d key ->
    search_daughters key (replace_nth i d' l) n = search_daughters key l n.
Proof.
  induction l as [|a l IH]; intros [|i] n d d' Hi G; simpl in *; try discriminate.
  - injection Hi as ->. rewrite G. reflexivity.
  - destruct (getitem a key); [reflexivity|]. eapply IH; eassumption.
Qed.

(** A content written somewhere in the tree changes no lookup. *)
Lemma getitem_replace_content key s q :
  forall self x,
    get_at q self = Some x ->
    getitem (replace_at q (set_content s x) self) key = getitem self key.
Proof.
  induction q as [|i q IH]; intros self x H; cbn [get_at replace_at] in H |- *.
  - injection H as <-. rewrite !getitem_unfold. reflexivity.
  - destruct (nth_error (daughters self) i) as [d|] eqn:Hi; [|discriminate].
    rewrite !getitem_unfold. cbn [name daughters set_daughters].
    destruct (String.eqb (name self) key); [reflexivity|].
    eapply search_replace_nth; [exact Hi|]. apply IH. exact H.
Qed.

End Assignment.

(** X14. [panel[key] = text] on a found panel without direction stores
    the text there and changes the tree nowhere else; afterwards the same
    key is found at the same place and the panel there holds the text. *)
Theorem setitem_text_round_trip (p q : path) (key s : string) (t self x : Panel) :
  get_at p t = Some self ->
  getitem self key = Some q ->
  get_at (p ++ q) t = Some x ->
  horizontal x = false -> vertical x = false ->
  exists t' self',
    setitem p key (VStr s) t = Some (Done t')
    /\ t' = replace_at (p ++ q) (set_content s x) t
    /\ get_at p t' = Some self'
    /\ getitem self' key = Some q
    /\ option_map content (get_at (p ++ q) t') = Some s.
Proof.
  intros Hp G Hx Hh Hv.
  assert (Hq : get_at q self = Some x).
  { rewrite get_at_app, Hp in Hx. exact Hx. }
  eexists. exists (replace_at q (set_content s x) self).
  split; [|split; [reflexivity|split; [|split]]].
  - unfold setitem. rewrite Hp, G, Hx, Hh, Hv. cbn [orb].
    unfold update_at. rewrite Hx. reflexivity.
  - rewrite (replace_at_app _ _ _ _ _ Hp). apply (get_at_replace_at _ _ _ _ Hp).
  - rewrite getitem_replace_content by exact Hq. exact G.
  - rewrite (get_at_replace_at _ _ _ _ Hx). reflexivity.
Qed.

Lemma setitem_text_round_trip_witness :
  exists t' self',
    setitem [] "B2" (VStr "hello") screen3 = Some (Done t')
    /\ t' = replace_at ([] ++ [0%nat; 1%nat])
              (set_content "hello"
                 (tree_of (option_map Done (get_at [0%nat; 1%nat] screen3))))
              screen3
    /\ get_at [] t' = Some self'
    /\ getitem self' "B2" = Some [0%nat; 1%nat]
    /\ option_map content (get_at ([] ++ [0%nat; 1%nat]) t') = Some "hello"%string.
Proof.
  apply (setitem_text_round_trip [] [0%nat; 1%nat] "B2" "hello" screen3 screen3
           (tree_of (option_map Done (get_at [0%nat; 1%nat] screen3))));
    vm_compute; reflexivity.
Defined.

(** X15. The failures of [panel[key] = value], each leaving the tree as
    it was: a key that names no panel under the receiver raises
    [ValueError] for a number and for a text; a text for a panel with a
    direction raises [PanelError]; a value that is neither a number nor a
    text raises [PanelError] whatever the key. *)
Theorem setitem_rejects (p : path) (key : string) (t self : Panel) :
  get_at p t = Some self ->
  (getitem self key = None ->
   forall n s, setitem p key (VInt n) t = Some (Raised ValueError t)
               /\ setitem p key (VStr s) t = Some (Raised ValueError t))
  /\ (forall q x s,
         getitem self key = Some q -> get_at (p ++ q) t = Some x ->
         horizontal x || vertical x = true ->
         setitem p key (VStr s) t = Some (Raised PanelError t))
  /\ setitem p key VOther t = Some (Raised PanelError t).
Proof.
  intros Hp. unfold setitem. rewrite Hp.
  split; [|split; [|reflexivity]].
  - intros ->. split; reflexivity.
  - intros q x s -> Hx Hd. rewrite Hx, Hd. reflexivity.
Qed.

Lemma setitem_rejects_witness :
  (getitem screen3 "nowhere" = None ->
   forall n s, setitem [] "nowhere" (VInt n) screen3 = Some (Raised ValueError screen3)
               /\ setitem [] "nowhere" (VStr s) screen3 = Some (Raised ValueError screen3))
  /\ (forall q x s,
         getitem screen3 "nowhere" = Some q -> get_at ([] ++ q) screen3 = Some x ->
         horizontal x || vertical x = true ->
         setitem [] "nowhere" (VStr s) screen3 = Some (Raised PanelError screen3))
  /\ setitem [] "nowhere" VOther screen3 = Some (Raised PanelError screen3).
Proof.
  apply (setitem_rejects [] "nowhere" screen3 screen3). reflexivity.
Defined.

(** * Further theorems: the frame and wrap engine *)

(** X16. For a width from 0 up to the bound of [re], and a height and a
    padding under 2^30 (with a width under 2^32 every repetition count
    and every repeated string then stays under 2^63, the bound of Python
    on a count), [frame] returns a text: no text, no choice of frames, no
    negative height and no negative padding makes it raise. *)
Theorem frame_returns (t : text) (w h pad : Z) (top bot lf rf : bool) :
  0 <= w < MAXREPEAT ->
  h < 2 ^ 30 ->
  pad < 2 ^ 30 ->
  exists out, frame t w h pad top bot lf rf = Ok out.
Proof.
  intros [W0 W1] _ _.
  assert (B : forall pad' top' bot' lf' rf',
             0 <= pad' ->
             exists out, frame_body t w h pad' top' bot' lf' rf' = Ok out).
  { intros pad' top' bot' lf' rf' Hp. unfold frame_body.
    assert (Hf : 0 <= 0 + b2z lf' + b2z rf' <= 2) by (destruct lf', rf'; simpl; lia).
    set (fNum := 0 + b2z lf' + b2z rf') in *.
    replace (w <? 0) with false by (symmetry; apply Z.ltb_ge; lia).
    destruct (constrain_returns (fill_empty t w fNum pad') (w - 4 * pad' - fNum))
      as (t2 & ->); [apply fill_empty_nonempty|lia|].
    cbn [bind_result].
    destruct (lf' || rf'); [|cbn [bind_result]; eauto].
    unfold side_frames.
    destruct (dots_upto_below (w - 2 * pad' - fNum)) as (q & ->); [lia|].
    cbn [bind_result].
    replace (MAXREPEAT <=? w - fNum) with false by (symmetry; apply Z.leb_gt; lia).
    destruct (0 <? w - fNum); cbn [bind_result]; eauto. }
  unfold frame. destruct (pad <? 0) eqn:P.
  - apply B. lia.
  - apply B. apply Z.ltb_ge in P. exact P.
Qed.

Lemma frame_returns_witness :
  exists out, frame (str "hi") 0 7 (-3) true false true false = Ok out.
Proof.
  apply (frame_returns (str "hi") 0 7 (-3) true false true false).
  - unfold MAXREPEAT. lia.
  - reflexivity.
  - reflexivity.
Defined.

(** ** The frame without a fixed height *)

Section FrameNatural.

Lemma split_lines_frame_pad pad s :
  split_lines (rep [nl] pad ++ s ++ rep [nl] pad)
  = repeat [] (Z.to_nat pad) ++ split_lines s ++ repeat [] (Z.to_nat pad).
Proof.
  rewrite split_lines_rep_nl_front. f_equal.
  apply (split_lines_rep_back s [] pad). constructor.
Qed.

End FrameNatural.

(** X17. With a negative [height], padding [pad >= 0], a side frame and a
    width that leaves room, the block that [frame] returns has as many
    lines as the wrapped text has, and [pad] lines more above, [pad] lines
    more below, and one more for each of the top and bottom frames that
    were asked for; every line has exactly [width] characters.  (This
    counts and measures the lines; what is left of the text in them is not
    stated.) *)
Theorem frame_natural_height (t : text) (w h pad : Z) (top bot lf rf : bool) :
  0 <= pad ->
  lf || rf = true ->
  0 <= w - 2 * pad - (b2z lf + b2z rf) ->
  0 < w - (b2z lf + b2z rf) ->
  w < MAXREPEAT ->
  h < 0 ->
  exists wrapped out,
    constrain (fill_empty t w (b2z lf + b2z rf) pad)
              (w - 4 * pad - (b2z lf + b2z rf)) = Ok wrapped
    /\ frame t w h pad top bot lf rf = Ok out
    /\ Z.of_nat (length (split_lines out))
       = b2z top + 2 * pad + Z.of_nat (length (split_lines wrapped)) + b2z bot
    /\ Forall (fun l => len l = w) (split_lines out).
Proof.
  intros Hpad Hside HN HM Hw Hh.
  assert (Hf : 0 <= b2z lf + b2z rf <= 2) by (destruct lf, rf; simpl; lia).
  unfold frame. replace (pad <? 0) with false by (symmetry; apply Z.ltb_ge; lia).
  unfold frame_body. change (0 + b2z lf + b2z rf) with (b2z lf + b2z rf).
  replace (w <? 0) with false by (symmetry; apply Z.ltb_ge; lia).
  destruct (constrain_returns (fill_empty t w (b2z lf + b2z rf) pad)
              (w - 4 * pad - (b2z lf + b2z rf)))
    as (t2 & E2); [apply fill_empty_nonempty|lia|].
  exists t2. rewrite E2. cbn [bind_result]. rewrite Hside.
  set (t3 := map_lines _ t2).
  destruct (side_frames_lines w pad lf rf (rep [nl] pad ++ t3 ++ rep [nl] pad)
              HN HM Hw Hpad) as (t5 & -> & L5 & A5).
  cbn [bind_result].
  destruct (border_line_regular w lf rf HM Hside) as (b & -> & Bw & Bn).
  unfold fix_height. replace (-1 <? h) with false by (symmetry; apply Z.ltb_ge; lia).
  eexists. split; [reflexivity|]. split; [reflexivity|].
  rewrite split_lines_add_bot, split_lines_add_top by exact Bn.
  split.
  - rewrite !length_app, L5, split_lines_frame_pad, !length_app, !repeat_length.
    unfold t3. rewrite split_map_lines.
    + rewrite length_map. destruct top, bot; simpl length; simpl b2z; lia.
    + intros l Hl. apply no_nl_app; [|exact Hl].
      unfold rep, no_nl. induction (Z.to_nat pad); simpl; repeat constructor; auto.
  - apply all_width_len. apply all_width_app; [apply all_width_app|].
    + destruct top; repeat constructor; assumption.
    + exact A5.
    + destruct bot; repeat constructor; assumption.
Qed.

Lemma frame_natural_height_witness :
  exists wrapped out,
    constrain (fill_empty (str "Extra Padding") 20 (b2z true + b2z true) 1)
              (20 - 4 * 1 - (b2z true + b2z true)) = Ok wrapped
    /\ frame (str "Extra Padding") 20 (-1) 1 true true true true = Ok out
    /\ Z.of_nat (length (split_lines out))
       = b2z true + 2 * 1 + Z.of_nat (length (split_lines wrapped)) + b2z true
    /\ Forall (fun l => len l = 20) (split_lines out).
Proof.
  apply (frame_natural_height (str "Extra Padding") 20 (-1) 1 true true true true);
    try reflexivity; unfold MAXREPEAT; simpl; lia.
Defined.

(** X18. [constrain] on the empty text: with a negative width (the default
    -1 among them) it raises [IndexError]; with a width from 0 up to the
    bound of [re] it returns the empty text. *)
Theorem constrain_empty_text (W : Z) :
  (W < 0 -> constrain [] W = Raise IndexError)
  /\ (0 <= W < MAXREPEAT -> constrain [] W = Ok []).
Proof.
  split.
  - intros H. unfold constrain, dots_upto.
    replace (W <? 0) with true by (symmetry; apply Z.ltb_lt; lia).
    reflexivity.
  - intros H. unfold constrain. rewrite dots_upto_ok by exact H. reflexivity.
Qed.

Lemma constrain_empty_text_witness :
  (-1 < 0 -> constrain [] (-1) = Raise IndexError)
  /\ (0 <= -1 < MAXREPEAT -> constrain [] (-1) = Ok []).
Proof. apply (constrain_empty_text (-1)). Defined.

(** ** What the wrap keeps *)

Section WrapKeeps.

Lemma filter_join_lines (f : ascii -> bool) ls :
  f nl = false ->
  filter f (join_lines ls) = concat (map (filter f) ls).
Proof.
  intros Hf. induction ls as [|l ls IH]; [reflexivity|].
  destruct ls as [|l' ls'].
  - simpl. rewrite app_nil_r. reflexivity.
  - rewrite join_lines_cons by discriminate.
    rewrite filter_app. cbn [filter]. rewrite Hf, IH. reflexivity.
Qed.

Lemma visible_protect_line l : filter visible (protect_line l) = filter visible l.
Proof.
  unfold protect_line. destruct (Nat.leb 2 (count_pipes l)); [|reflexivity].
  induction l as [|c l IH]; simpl; [reflexivity|]. rewrite IH.
  destruct (Ascii.eqb c space) eqn:E; [|reflexivity].
  apply Ascii.eqb_eq in E. subst c. reflexivity.
Qed.

Lemma visible_protect t : filter visible (protect t) = filter visible t.
Proof.
  unfold protect, map_lines.
  rewrite filter_join_lines by reflexivity.
  rewrite map_map.
  rewrite (map_ext _ (filter visible) visible_protect_line).
  rewrite <- filter_join_lines by reflexivity.
  rewrite join_split. reflexivity.
Qed.

(** The replacement of a match shows the same characters as the match. *)
Lemma visible_wrap_replacement x g1 g2 :
  match_group2 x = Some g2 ->
  filter visible (wrap_replacement g1 g2) = filter visible (g1 ++ g2).
Proof.
  unfold match_group2.
  destruct x as [|c r1].
  { intros H. injection H as <-. unfold wrap_replacement. simpl.
    rewrite !filter_app. reflexivity. }
  destruct (is_space c) eqn:S.
  { intros H. injection H as <-. unfold wrap_replacement. simpl.
    rewrite !filter_app. simpl. unfold visible at 3. rewrite S. reflexivity. }
  destruct (is_word c); [|discriminate].
  destruct r1 as [|d1 [|d2 r2]]; try discriminate.
  destruct (Ascii.eqb d1 dash); [|discriminate].
  destruct (Ascii.eqb d2 dash).
  - destruct r2 as [|w r3]; [discriminate|].
    destruct (is_word w); [|discriminate].
    intros H. injection H as <-. unfold wrap_replacement. simpl.
    rewrite !filter_app. simpl.
    destruct (visible c), (visible d1), (visible d2), (visible w); reflexivity.
  - destruct (is_word d2); [|discriminate].
    intros H. injection H as <-. unfold wrap_replacement. simpl.
    rewrite !filter_app. simpl.
    destruct (visible c), (visible d1), (visible d2); reflexivity.
Qed.

Lemma starts_with_app lit s :
  starts_with lit s = true -> s = lit ++ skipn (length lit) s.
Proof.
  revert s. induction lit as [|a lit IH]; intros s H; [reflexivity|].
  destruct s as [|b s]; [discriminate|]. simpl in H.
  apply andb_true_iff in H as [E H]. apply Ascii.eqb_eq in E. subst b.
  simpl. f_equal. apply IH. exact H.
Qed.

(** A match of either form of the pattern lies at the head of the text. *)
Lemma match_wrap_sound q r g1 g2 :
  match_wrap q r = Some (g1, g2) ->
  exists rest, r = g1 ++ g2 ++ rest /\ match_group2 (g2 ++ rest) = Some g2.
Proof.
  destruct q as [n|lit]; simpl.
  - intros H. destruct (match_upto_sound _ _ _ _ H) as (rest & R & _ & _ & T).
    eauto.
  - unfold match_dot_then. destruct r as [|c r']; [discriminate|].
    destruct (negb (is_nl c) && starts_with lit r') eqn:C; [|discriminate].
    apply andb_true_iff in C as [_ C].
    destruct (match_group2 (skipn (length lit) r')) as [g|] eqn:M; [|discriminate].
    intros H. injection H as <- <-.
    destruct (match_group2_prefix _ _ M) as (rest & R).
    exists rest. split.
    + rewrite (starts_with_app _ _ C) at 1. rewrite R. reflexivity.
    + rewrite <- R. exact M.
Qed.

(** The substitution shows the characters of the text it has not
    skipped, in their order. *)
Lemma visible_wrap_sub q r :
  forall skip adj,
    filter visible (wrap_sub q r skip adj) = filter visible (skipn skip r).
Proof.
  induction r as [|c r' IH]; intros skip adj.
  - destruct skip as [|k]; [|reflexivity].
    rewrite wrap_sub_unfold.
    destruct (match_wrap q []) as [[g1 g2]|] eqn:M; [|reflexivity].
    destruct (match_wrap_sound _ _ _ _ M) as (rest & R & T).
    destruct g1; [|discriminate]. destruct g2; [|discriminate].
    simpl. destruct adj; reflexivity.
  - destruct skip as [|k]; [|cbn [wrap_sub skipn]; apply IH].
    rewrite wrap_sub_unfold.
    destruct (match_wrap q (c :: r')) as [[g1 g2]|] eqn:M.
    + destruct (match_wrap_sound _ _ _ _ M) as (rest & R & T).
      destruct (length g1 + length g2)%nat as [|k] eqn:L.
      * destruct g1; [|discriminate]. destruct g2; [|discriminate].
        rewrite filter_app. cbn [skipn filter].
        rewrite (IH 0%nat false). cbn [skipn].
        destruct adj; reflexivity.
      * rewrite filter_app, (visible_wrap_replacement _ g1 g2 T), (IH k true).
        cbn [skipn].
        assert (Hs : skipn k r' = rest).
        { change (skipn k r') with (skipn (S k) (c :: r')).
          rewrite R, app_assoc, skipn_app, <- L, <- length_app.
          rewrite skipn_all, Nat.sub_diag. reflexivity. }
        rewrite Hs, R. rewrite !filter_app. rewrite app_assoc. reflexivity.
    + cbn [skipn filter]. rewrite (IH 0%nat false). reflexivity.
Qed.

Lemma black_unprotect x : filter black (unprotect x) = filter visible x.
Proof.
  unfold unprotect. induction x as [|c x IH]; simpl; [reflexivity|].
  rewrite IH. unfold black, visible.
  destruct (Ascii.eqb c backtick) eqn:E.
  - apply Ascii.eqb_eq in E. subst c. reflexivity.
  - rewrite andb_true_r. reflexivity.
Qed.

Lemma black_drop_final_newline x out :
  drop_final_newline x = Ok out -> filter black out = filter black x.
Proof.
  unfold drop_final_newline. destruct x as [|c r] eqn:E; [discriminate|].
  rewrite <- E. intros H. injection H as <-.
  destruct (is_nl (last x space)) eqn:N; [|reflexivity].
  assert (Hx : x <> []) by (rewrite E; discriminate).
  rewrite (app_removelast_last space Hx) at 2.
  rewrite filter_app. simpl.
  unfold is_nl in N. apply Ascii.eqb_eq in N. rewrite N.
  change (black nl) with false. cbv iota. rewrite app_nil_r. reflexivity.
Qed.

End WrapKeeps.

(** X19. Whatever the width, the text that [constrain] returns shows, in
    the same order, exactly the characters of the given text that are
    neither white space nor backticks: no such character is lost, moved or
    added, a word longer than the width is kept whole, and all else in the
    result is white space. *)
Theorem constrain_keeps_the_characters (t : text) (W : Z) (out : text) :
  constrain t W = Ok out ->
  filter black out = filter visible t.
Proof.
  unfold constrain. intros H.
  destruct (dots_upto W) as [q|e]; [|discriminate]. cbn [bind_result] in H.
  rewrite (black_drop_final_newline _ _ H), black_unprotect.
  rewrite (visible_wrap_sub q (protect t) 0 false). cbn [skipn].
  apply visible_protect.
Qed.

Lemma constrain_keeps_the_characters_witness :
  filter black (str "abcdef") = filter visible (str "abcdef").
Proof.
  apply (constrain_keeps_the_characters (str "abcdef") 3 (str "abcdef")).
  vm_compute. reflexivity.
Defined.

(** ** The longest line and the number of lines *)

Section LongestLine.

Lemma fold_longest ls :
  let step := fun (st : Z * text) (line : text) =>
                if fst st <? len line then (len line, line) else st in
  forall st,
    fst st = len (snd st) ->
    let r := fold_left step ls st in
    fst r = len (snd r)
    /\ fst r = Z.max (fst st) (fold_right Z.max 0 (map len ls))
    /\ (snd r = snd st \/ In (snd r) ls).
Proof.
  intros step. induction ls as [|l ls IH]; intros st Hst; simpl.
  - assert (0 <= fst st) by (rewrite Hst; unfold len; lia).
    repeat split; [exact Hst|lia|left; reflexivity].
  - destruct (IH (step st l)) as (A & B & C).
    { unfold step. destruct (fst st <? len l); [reflexivity|exact Hst]. }
    split; [exact A|]. split.
    + rewrite B. unfold step.
      destruct (fst st <? len l) eqn:E; simpl;
        [apply Z.ltb_lt in E|apply Z.ltb_ge in E]; lia.
    + destruct C as [C|C]; [|right; right; exact C].
      rewrite C. unfold step.
      destruct (fst st <? len l); simpl; [right; left; reflexivity|left; reflexivity].
Qed.

Lemma len_le_widest l ls : In l ls -> len l <= fold_right Z.max 0 (map len ls).
Proof.
  induction ls as [|a ls IH]; simpl; [tauto|].
  intros [->|H]; [lia|]. specialize (IH H). lia.
Qed.

Lemma length_split_lines s :
  length (split_lines s) = S (length (filter is_nl s)).
Proof.
  induction s as [|c r IH]; simpl; [reflexivity|].
  destruct (is_nl c); simpl; [rewrite IH; reflexivity|].
  destruct (split_lines r); simpl in *; [discriminate|exact IH].
Qed.

End LongestLine.

(** X20. [longest_line] returns a line of the text (the empty string when
    every line is empty) that no line of the text is longer than; its
    length is the width that [frame] takes for the automatic width. *)
Theorem longest_line_is_longest (s : text) :
  Forall (fun l => len l <= len (longest_line s)) (split_lines s)
  /\ (longest_line s = [] \/ In (longest_line s) (split_lines s))
  /\ len (longest_line s) = widest s.
Proof.
  destruct (fold_longest (split_lines s) (0, []) eq_refl) as (A & B & C).
  unfold longest_line, widest.
  assert (W : 0 <= fold_right Z.max 0 (map len (split_lines s))).
  { generalize (map len (split_lines s)). intros l. induction l; simpl; lia. }
  simpl fst in B. rewrite Z.max_r in B by exact W.
  split; [|split].
  - rewrite Forall_forall. intros l Hl. rewrite <- A, B. apply len_le_widest. exact Hl.
  - exact C.
  - rewrite <- A. exact B.
Qed.

(** X21. [line_height] is one more than the number of newlines of the
    text: the empty text has height 1. *)
Theorem line_height_counts_newlines (s : text) :
  line_height s = 1 + count_nl s /\ line_height [] = 1.
Proof.
  split; [|reflexivity].
  unfold line_height, count_nl. rewrite length_split_lines. lia.
Qed.

(** ** Texts side by side *)

Section SideBySide.

Lemma count_nl_tallest texts :
  forall acc,
    count_nl (fold_left
                (fun tallest t => if count_nl tallest <? count_nl t then t else tallest)
                texts acc)
    = Z.max (count_nl acc) (fold_right Z.max 0 (map count_nl texts)).
Proof.
  assert (N : forall t, 0 <= count_nl t) by (intros t; unfold count_nl; lia).
  induction texts as [|t texts IH]; intros acc; simpl.
  - pose proof (N acc). lia.
  - rewrite IH. destruct (count_nl acc <? count_nl t) eqn:E;
      [apply Z.ltb_lt in E|apply Z.ltb_ge in E]; lia.
Qed.

Lemma count_nl_le_max t texts :
  In t texts -> count_nl t <= fold_right Z.max 0 (map count_nl texts).
Proof.
  induction texts as [|a texts IH]; simpl; [tauto|].
  intros [->|H]; [lia|]. specialize (IH H). lia.
Qed.

Lemma screen_line_ok rows num cols :
  (num < rows)%nat ->
  Forall (column_ok rows) cols ->
  exists row, screen_line num cols = Ok row
              /\ no_nl row /\ len row = zsum (map snd cols).
Proof.
  intros Hnum H. induction H as [|[lines l] cols [Hlen Hall] Hcols IH]; simpl.
  - exists []. repeat split. constructor.
  - simpl in Hlen, Hall.
    destruct (nth_error lines num) as [cell|] eqn:E.
    2:{ apply nth_error_None in E. lia. }
    destruct IH as (others & -> & No & Lo). cbn [bind_result].
    eexists. split; [reflexivity|].
    rewrite Forall_forall in Hall.
    destruct (Hall cell (nth_error_In _ _ E)) as (Nc & Lc).
    split.
    + apply no_nl_app; [exact Nc|].
      apply no_nl_app; [apply no_nl_rep; reflexivity|exact No].
    + unfold len in *. rewrite !length_app, length_rep1.
      unfold zsum in *. simpl. lia.
Qed.

Lemma screen_lines_ok rows cols width nums :
  Forall (fun num => (num < rows)%nat) nums ->
  Forall (column_ok rows) cols ->
  exists ls, screen_lines nums cols width = Ok (ended ls)
             /\ length ls = length nums
             /\ Forall (fun l => no_nl l
                                 /\ len l = if width <? 0 then zsum (map snd cols)
                                            else Z.min width (zsum (map snd cols))) ls.
Proof.
  intros Hn Hc. induction Hn as [|num nums Hnum Hnums IH]; simpl.
  - exists []. repeat split. constructor.
  - destruct (screen_line_ok rows num cols Hnum Hc) as (row & -> & Nr & Lr).
    destruct IH as (ls & -> & Ll & Al). cbn [bind_result].
    exists ((if width <? 0 then row else firstn (Z.to_nat width) row) :: ls).
    split; [|split].
    + unfold ended. simpl. rewrite <- app_assoc. reflexivity.
    + simpl. rewrite Ll. reflexivity.
    + constructor; [|exact Al].
      destruct (width <? 0) eqn:E; [split; assumption|].
      apply Z.ltb_ge in E. split; [apply no_nl_firstn; exact Nr|].
      unfold len in *. rewrite length_firstn. lia.
Qed.

Lemma combine_map_snd {A B : Type} (f : A -> B) l :
  combine l (map f l) = map (fun x => (x, f x)) l.
Proof. induction l as [|a l IH]; simpl; [reflexivity|]. rewrite IH. reflexivity. Qed.

Lemma combine_fst_snd {A B C : Type} (g : A -> B * C) l :
  combine (map fst (map g l)) (map (fun x => snd (g x)) l) = map g l.
Proof.
  induction l as [|a l IH]; simpl; [reflexivity|]. rewrite IH.
  destruct (g a); reflexivity.
Qed.

End SideBySide.

(** X22. [parallelize] of no text raises [IndexError].  Of one text or
    more it returns a rectangle: as many lines as the tallest text has, and
    every line as long as the widest lines of the texts together, or cut to
    [width] when [width] is not negative. *)
Theorem parallelize_is_a_rectangle (texts : list text) (width : Z) :
  match texts with
  | [] => parallelize texts width = Raise IndexError
  | _ :: _ =>
      exists out,
        parallelize texts width = Ok out
        /\ Z.of_nat (length (split_lines out))
           = 1 + fold_right Z.max 0 (map count_nl texts)
        /\ Forall (fun l => len l = if width <? 0 then zsum (map widest texts)
                                    else Z.min width (zsum (map widest texts)))
                  (split_lines out)
  end.
Proof.
  destruct texts as [|t0 ts]; [reflexivity|].
  set (texts := t0 :: ts).
  set (T := fold_right Z.max 0 (map count_nl texts)).
  assert (HT : count_nl (tallest_of texts) = T).
  { unfold tallest_of. rewrite count_nl_tallest.
    change (count_nl []) with 0.
    assert (0 <= T).
    { unfold T. generalize (map count_nl texts). intros l. induction l; simpl; lia. }
    lia. }
  set (col := fun t : text =>
                (split_lines
                   (t ++ rep ([nl] ++ rep [space] (widest t)) (T - count_nl t)),
                 widest t)).
  assert (Hcols : Forall (column_ok (S (Z.to_nat T))) (map col texts)).
  { rewrite Forall_forall. intros c Hc. apply in_map_iff in Hc as (t & <- & Ht).
    pose proof (count_nl_le_max t texts Ht) as Hle. fold T in Hle.
    unfold col, column_ok. cbn [fst snd].
    change ([nl] ++ rep [space] (widest t)) with (nl :: rep [space] (widest t)).
    rewrite split_lines_rep_back by (apply no_nl_rep; reflexivity).
    split.
    - rewrite length_app, repeat_length, length_split_lines.
      unfold count_nl in *. lia.
    - apply Forall_app. split.
      + pose proof (split_lines_no_nl t) as N.
        rewrite Forall_forall in N |- *. intros l Hl. split; [apply N; exact Hl|].
        unfold widest. apply len_le_widest. exact Hl.
      + rewrite Forall_forall. intros l Hl. apply repeat_spec in Hl. subst l.
        split; [apply no_nl_rep; reflexivity|].
        unfold len. rewrite length_rep1. pose proof (widest_nonneg t). lia. }
  unfold parallelize. fold texts. rewrite HT.
  rewrite (combine_map_snd widest texts), map_map.
  assert (Ecopy : map (fun x : text =>
                         let (t, l) := (x, widest x) in
                         split_lines (t ++ rep ([nl] ++ rep [space] l) (T - count_nl t)))
                      texts
                  = map fst (map col texts)).
  { rewrite map_map. reflexivity. }
  rewrite Ecopy.
  assert (Ecomb : combine (map fst (map col texts)) (map widest texts) = map col texts).
  { change (map widest texts) with (map (fun x => snd (col x)) texts).
    apply combine_fst_snd. }
  rewrite Ecomb.
  assert (Hfirst : exists first rest, map fst (map col texts) = first :: rest
                                      /\ length first = S (Z.to_nat T)).
  { unfold texts in *. simpl map in *. inversion Hcols as [|? ? [Hl _] _]; subst.
    eexists. eexists. split; [reflexivity|exact Hl]. }
  destruct Hfirst as (first & rest & -> & Lfirst).
  destruct (screen_lines_ok (S (Z.to_nat T)) (map col texts) width
              (seq 0 (length first))) as (ls & -> & Lls & Als).
  { rewrite Forall_forall. intros n Hn. apply in_seq in Hn. lia. }
  { exact Hcols. }
  cbn [bind_result]. rewrite length_seq, Lfirst in Lls.
  assert (Hne : ls <> []) by (destruct ls; [discriminate|discriminate]).
  rewrite ended_join by exact Hne. rewrite removelast_last.
  eexists. split; [reflexivity|].
  assert (Hsum : zsum (map snd (map col texts)) = zsum (map widest texts)).
  { rewrite map_map. reflexivity. }
  rewrite Hsum in Als.
  rewrite split_join; [|exact Hne|].
  - split.
    + rewrite Lls. assert (0 <= T).
      { unfold T. generalize (map count_nl texts). intros l. induction l; simpl; lia. }
      lia.
    + clear - Als. induction Als as [|l ls' [_ L] _ IH]; constructor; auto.
  - clear - Als. induction Als as [|l ls' [N _] _ IH]; constructor; auto.
Qed.

(** ** Texts one under the other *)

Section Column.

(** The block of [frame] without a fixed height: full lines, and at least
    one line besides the frame lines. *)
Lemma frame_natural_block t w h pad top bot lf rf :
  0 <= pad ->
  lf || rf = true ->
  0 <= w - 2 * pad - (b2z lf + b2z rf) ->
  0 < w - (b2z lf + b2z rf) ->
  w < MAXREPEAT ->
  h < 0 ->
  exists out,
    frame t w h pad top bot lf rf = Ok out
    /\ all_width w (split_lines out)
    /\ b2z top + 1 + b2z bot <= Z.of_nat (length (split_lines out)).
Proof.
  intros Hpad Hside HN HM Hw Hh.
  assert (Hf : 0 <= b2z lf + b2z rf <= 2) by (destruct lf, rf; simpl; lia).
  unfold frame. replace (pad <? 0) with false by (symmetry; apply Z.ltb_ge; lia).
  unfold frame_body. change (0 + b2z lf + b2z rf) with (b2z lf + b2z rf).
  replace (w <? 0) with false by (symmetry; apply Z.ltb_ge; lia).
  destruct (constrain_returns (fill_empty t w (b2z lf + b2z rf) pad)
              (w - 4 * pad - (b2z lf + b2z rf)))
    as (t2 & ->); [apply fill_empty_nonempty|lia|].
  cbn [bind_result]. rewrite Hside.
  set (t4 := rep [nl] pad ++ _ ++ rep [nl] pad).
  destruct (side_frames_lines w pad lf rf t4 HN HM Hw Hpad) as (t5 & -> & L5 & A5).
  cbn [bind_result].
  destruct (border_line_regular w lf rf HM Hside) as (b & -> & Bw & Bn).
  unfold fix_height. replace (-1 <? h) with false by (symmetry; apply Z.ltb_ge; lia).
  eexists. split; [reflexivity|].
  rewrite split_lines_add_bot, split_lines_add_top by exact Bn.
  split.
  - apply all_width_app; [apply all_width_app|].
    + destruct top; repeat constructor; assumption.
    + exact A5.
    + destruct bot; repeat constructor; assumption.
  - rewrite !length_app.
    pose proof (split_lines_nonempty t5) as N.
    destruct (split_lines t5); [congruence|].
    destruct top, bot; simpl; lia.
Qed.

End Column.

(** X23. [columnize] of no text is a line of [width] spaces.  Of one text
    or more, with frames, a width that leaves room and no fixed height, it
    returns a column whose lines all have exactly [width] characters, with
    at least a text line and a frame line for every text under the top
    frame line. *)
Theorem columnize_is_a_column (texts : list text) (w h pad : Z) :
  0 <= pad ->
  0 <= w - 2 * pad - 2 ->
  0 < w - 2 ->
  w < MAXREPEAT ->
  h < 0 ->
  match texts with
  | [] => columnize texts w h pad true = Ok (repeat space (Z.to_nat w))
  | _ :: _ =>
      exists out,
        columnize texts w h pad true = Ok out
        /\ Forall (fun l => len l = w) (split_lines out)
        /\ 2 * Z.of_nat (length texts) + 1 <= Z.of_nat (length (split_lines out))
  end.
Proof.
  intros Hpad HN HM Hw Hh.
  destruct texts as [|first others].
  { unfold columnize. rewrite rep1_repeat. reflexivity. }
  unfold columnize.
  replace (0 <? h) with false by (symmetry; apply Z.ltb_ge; lia).
  replace (w <? 0) with false by (symmetry; apply Z.ltb_ge; lia).
  destruct (frame_natural_block first w h pad true true true true)
    as (c0 & -> & A0 & L0); try assumption; try reflexivity.
  cbn [bind_result]. simpl b2z in L0.
  assert (G : forall ts column,
             all_width w (split_lines column) ->
             exists out,
               fold_left
                 (fun acc elem =>
                    column <- acc ;;
                    framed <- frame elem w h pad false true true true ;;
                    Ok (column ++ [nl] ++ framed))
                 ts (Ok column) = Ok out
               /\ all_width w (split_lines out)
               /\ Z.of_nat (length (split_lines column)) + 2 * Z.of_nat (length ts)
                  <= Z.of_nat (length (split_lines out))).
  { induction ts as [|e ts IH]; intros column Hc.
    - exists column. simpl. repeat split; [exact Hc|lia].
    - cbn [fold_left bind_result].
      destruct (frame_natural_block e w h pad false true true true)
        as (f & -> & Af & Lf); try assumption; try reflexivity.
      cbn [bind_result]. simpl b2z in Lf.
      destruct (IH (column ++ [nl] ++ f)) as (out & E & Ao & Lo).
      + simpl app. rewrite split_lines_app_nl. apply all_width_app; assumption.
      + exists out. split; [exact E|split; [exact Ao|]].
        simpl app in Lo. rewrite split_lines_app_nl, length_app in Lo.
        simpl length. lia. }
  destruct (G others c0 A0) as (out & E & Ao & Lo).
  exists out. split; [exact E|split; [apply all_width_len; exact Ao|]].
  simpl length. lia.
Qed.

Lemma columnize_is_a_column_witness :
  exists out,
    columnize [str "Example 1"; str "Example 2"] 11 (-1) 0 true = Ok out
    /\ Forall (fun l => len l = 11) (split_lines out)
    /\ 2 * Z.of_nat (length [str "Example 1"; str "Example 2"]) + 1
       <= Z.of_nat (length (split_lines out)).
Proof.
  apply (columnize_is_a_column [str "Example 1"; str "Example 2"] 11 (-1) 0);
    unfold MAXREPEAT; lia.
Defined.
